(** * The model-description XML parser (xml_parser.c), embedded in Rocq

    The parser receives the open, close and text events of an XML tokenizer,
    keeps a stack of AST nodes, assembles the children of an element when the
    element closes, validates the declared-type references of the finished
    tree and offers typed accessors over it.  This file embeds the name
    tables, the attribute store and its typed readers, the accessor layer, the
    validator and the stack machine, and proves the properties the
    specification states about them. *)

From Stdlib Require Import List String Ascii ZArith Bool Lia.
Import ListNotations.

Local Open Scope string_scope.
Local Open Scope list_scope.
Local Open Scope Z_scope.

(** ** Name tables *)

(** Modelled from the spec: the enums [Elm], [Att] and [Enu] are declared in
    xml_parser.h, which is not part of the sources at hand.  Their constants
    are the entries of the three name tables, in table order and numbered from
    0, preceded by a BAD_DEFINED constant of value -1 (what [checkName]
    returns for an unknown name). *)
Inductive Elm : Set :=
  | elm_BAD_DEFINED
  | elm_fmiModelDescription | elm_UnitDefinitions | elm_BaseUnit
  | elm_DisplayUnitDefinition | elm_TypeDefinitions | elm_Type | elm_RealType
  | elm_IntegerType | elm_BooleanType | elm_StringType | elm_EnumerationType
  | elm_Item | elm_DefaultExperiment | elm_VendorAnnotations | elm_Tool
  | elm_Annotation | elm_ModelVariables | elm_ScalarVariable
  | elm_DirectDependency | elm_Name | elm_Real | elm_Integer | elm_Boolean
  | elm_String | elm_Enumeration | elm_Implementation
  | elm_CoSimulation_StandAlone | elm_CoSimulation_Tool | elm_Model | elm_File
  | elm_Capabilities.

Definition Elm_to_Z (x : Elm) : Z :=
  match x with
  | elm_BAD_DEFINED => -1
  | elm_fmiModelDescription => 0 | elm_UnitDefinitions => 1
  | elm_BaseUnit => 2 | elm_DisplayUnitDefinition => 3
  | elm_TypeDefinitions => 4 | elm_Type => 5 | elm_RealType => 6
  | elm_IntegerType => 7 | elm_BooleanType => 8 | elm_StringType => 9
  | elm_EnumerationType => 10 | elm_Item => 11 | elm_DefaultExperiment => 12
  | elm_VendorAnnotations => 13 | elm_Tool => 14 | elm_Annotation => 15
  | elm_ModelVariables => 16 | elm_ScalarVariable => 17
  | elm_DirectDependency => 18 | elm_Name => 19 | elm_Real => 20
  | elm_Integer => 21 | elm_Boolean => 22 | elm_String => 23
  | elm_Enumeration => 24 | elm_Implementation => 25
  | elm_CoSimulation_StandAlone => 26 | elm_CoSimulation_Tool => 27
  | elm_Model => 28 | elm_File => 29 | elm_Capabilities => 30
  end.

Definition Elm_values : list Elm :=
  [ elm_fmiModelDescription; elm_UnitDefinitions; elm_BaseUnit;
    elm_DisplayUnitDefinition; elm_TypeDefinitions; elm_Type; elm_RealType;
    elm_IntegerType; elm_BooleanType; elm_StringType; elm_EnumerationType;
    elm_Item; elm_DefaultExperiment; elm_VendorAnnotations; elm_Tool;
    elm_Annotation; elm_ModelVariables; elm_ScalarVariable;
    elm_DirectDependency; elm_Name; elm_Real; elm_Integer; elm_Boolean;
    elm_String; elm_Enumeration; elm_Implementation;
    elm_CoSimulation_StandAlone; elm_CoSimulation_Tool; elm_Model; elm_File;
    elm_Capabilities ].

Definition elmNames : list string :=
  [ "fmiModelDescription"; "UnitDefinitions"; "BaseUnit";
    "DisplayUnitDefinition"; "TypeDefinitions"; "Type"; "RealType";
    "IntegerType"; "BooleanType"; "StringType"; "EnumerationType"; "Item";
    "DefaultExperiment"; "VendorAnnotations"; "Tool"; "Annotation";
    "ModelVariables"; "ScalarVariable"; "DirectDependency"; "Name"; "Real";
    "Integer"; "Boolean"; "String"; "Enumeration"; "Implementation";
    "CoSimulation_StandAlone"; "CoSimulation_Tool"; "Model"; "File";
    "Capabilities" ].
Inductive Att : Set :=
  | att_BAD_DEFINED
  | att_fmiVersion | att_displayUnit | att_gain | att_offset | att_unit
  | att_name | att_description | att_quantity | att_relativeQuantity | att_min
  | att_max | att_nominal | att_declaredType | att_start | att_fixed
  | att_startTime | att_stopTime | att_tolerance | att_value
  | att_valueReference | att_variability | att_causality | att_alias
  | att_modelName | att_modelIdentifier | att_guid | att_author | att_version
  | att_generationTool | att_generationDateAndTime
  | att_variableNamingConvention | att_numberOfContinuousStates
  | att_numberOfEventIndicators | att_input
  | att_canHandleVariableCommunicationStepSize | att_canHandleEvents
  | att_canRejectSteps | att_canInterpolateInputs
  | att_maxOutputDerivativeOrder | att_canRunAsynchronuously
  | att_canSignalEvents | att_canBeInstantiatedOnlyOncePerProcess
  | att_canNotUseMemoryManagementFunctions | att_file | att_entryPoint
  | att_manualStart | att_type.

Definition Att_to_Z (x : Att) : Z :=
  match x with
  | att_BAD_DEFINED => -1
  | att_fmiVersion => 0 | att_displayUnit => 1 | att_gain => 2
  | att_offset => 3 | att_unit => 4 | att_name => 5 | att_description => 6
  | att_quantity => 7 | att_relativeQuantity => 8 | att_min => 9
  | att_max => 10 | att_nominal => 11 | att_declaredType => 12
  | att_start => 13 | att_fixed => 14 | att_startTime => 15
  | att_stopTime => 16 | att_tolerance => 17 | att_value => 18
  | att_valueReference => 19 | att_variability => 20 | att_causality => 21
  | att_alias => 22 | att_modelName => 23 | att_modelIdentifier => 24
  | att_guid => 25 | att_author => 26 | att_version => 27
  | att_generationTool => 28 | att_generationDateAndTime => 29
  | att_variableNamingConvention => 30 | att_numberOfContinuousStates => 31
  | att_numberOfEventIndicators => 32 | att_input => 33
  | att_canHandleVariableCommunicationStepSize => 34
  | att_canHandleEvents => 35 | att_canRejectSteps => 36
  | att_canInterpolateInputs => 37 | att_maxOutputDerivativeOrder => 38
  | att_canRunAsynchronuously => 39 | att_canSignalEvents => 40
  | att_canBeInstantiatedOnlyOncePerProcess => 41
  | att_canNotUseMemoryManagementFunctions => 42 | att_file => 43
  | att_entryPoint => 44 | att_manualStart => 45 | att_type => 46
  end.

Definition Att_values : list Att :=
  [ att_fmiVersion; att_displayUnit; att_gain; att_offset; att_unit; att_name;
    att_description; att_quantity; att_relativeQuantity; att_min; att_max;
    att_nominal; att_declaredType; att_start; att_fixed; att_startTime;
    att_stopTime; att_tolerance; att_value; att_valueReference;
    att_variability; att_causality; att_alias; att_modelName;
    att_modelIdentifier; att_guid; att_author; att_version;
    att_generationTool; att_generationDateAndTime;
    att_variableNamingConvention; att_numberOfContinuousStates;
    att_numberOfEventIndicators; att_input;
    att_canHandleVariableCommunicationStepSize; att_canHandleEvents;
    att_canRejectSteps; att_canInterpolateInputs;
    att_maxOutputDerivativeOrder; att_canRunAsynchronuously;
    att_canSignalEvents; att_canBeInstantiatedOnlyOncePerProcess;
    att_canNotUseMemoryManagementFunctions; att_file; att_entryPoint;
    att_manualStart; att_type ].

Definition attNames : list string :=
  [ "fmiVersion"; "displayUnit"; "gain"; "offset"; "unit"; "name";
    "description"; "quantity"; "relativeQuantity"; "min"; "max"; "nominal";
    "declaredType"; "start"; "fixed"; "startTime"; "stopTime"; "tolerance";
    "value"; "valueReference"; "variability"; "causality"; "alias";
    "modelName"; "modelIdentifier"; "guid"; "author"; "version";
    "generationTool"; "generationDateAndTime"; "variableNamingConvention";
    "numberOfContinuousStates"; "numberOfEventIndicators"; "input";
    "canHandleVariableCommunicationStepSize"; "canHandleEvents";
    "canRejectSteps"; "canInterpolateInputs"; "maxOutputDerivativeOrder";
    "canRunAsynchronuously"; "canSignalEvents";
    "canBeInstantiatedOnlyOncePerProcess";
    "canNotUseMemoryManagementFunctions"; "file"; "entryPoint"; "manualStart";
    "type" ].
Inductive Enu : Set :=
  | enu_BAD_DEFINED
  | enu_flat | enu_structured | enu_constant | enu_parameter | enu_discrete
  | enu_continuous | enu_input | enu_output | enu_internal | enu_none
  | enu_noAlias | enu_alias | enu_negatedAlias.

Definition Enu_to_Z (x : Enu) : Z :=
  match x with
  | enu_BAD_DEFINED => -1
  | enu_flat => 0 | enu_structured => 1 | enu_constant => 2
  | enu_parameter => 3 | enu_discrete => 4 | enu_continuous => 5
  | enu_input => 6 | enu_output => 7 | enu_internal => 8 | enu_none => 9
  | enu_noAlias => 10 | enu_alias => 11 | enu_negatedAlias => 12
  end.

Definition Enu_values : list Enu :=
  [ enu_flat; enu_structured; enu_constant; enu_parameter; enu_discrete;
    enu_continuous; enu_input; enu_output; enu_internal; enu_none;
    enu_noAlias; enu_alias; enu_negatedAlias ].

Definition enuNames : list string :=
  [ "flat"; "structured"; "constant"; "parameter"; "discrete"; "continuous";
    "input"; "output"; "internal"; "none"; "noAlias"; "alias"; "negatedAlias" ].
(** C compares enum values as integers. *)
Definition Elm_eqb (a b : Elm) : bool := Elm_to_Z a =? Elm_to_Z b.
Definition Att_eqb (a b : Att) : bool := Att_to_Z a =? Att_to_Z b.
Definition Enu_eqb (a b : Enu) : bool := Enu_to_Z a =? Enu_to_Z b.

(** The cast [(Elm)i] of a table index (or of -1). *)
Definition Elm_of_Z (i : Z) : Elm :=
  if i <? 0 then elm_BAD_DEFINED else nth (Z.to_nat i) Elm_values elm_BAD_DEFINED.
Definition Att_of_Z (i : Z) : Att :=
  if i <? 0 then att_BAD_DEFINED else nth (Z.to_nat i) Att_values att_BAD_DEFINED.
Definition Enu_of_Z (i : Z) : Enu :=
  if i <? 0 then enu_BAD_DEFINED else nth (Z.to_nat i) Enu_values enu_BAD_DEFINED.

(** [checkName]: linear scan of a table with [strcmp]; the index of the first
    match, or -1.  (On -1 the C function also logs and stops the tokenizer;
    the stack machine below records that where it matters.) *)
Fixpoint checkName_from (i : Z) (name : string) (array : list string) : Z :=
  match array with
  | [] => -1
  | s :: rest => if String.eqb name s then i else checkName_from (i + 1) name rest
  end.

Definition checkName (name : string) (array : list string) : Z :=
  checkName_from 0 name array.

Definition checkElement (elm : string) : Elm := Elm_of_Z (checkName elm elmNames).
Definition checkAttribute (att : string) : Att := Att_of_Z (checkName att attNames).
Definition checkEnumValue (enu : string) : Enu := Enu_of_Z (checkName enu enuNames).

(** ** AST nodes *)

Inductive ValueStatus : Set := valueMissing | valueDefined | valueIllegal.

Inductive AstNodeType : Set :=
  | astElement | astListElement | astType | astScalarVariable
  | astCoSimulation | astModelDescription.

Definition getAstNodeType (e : Elm) : AstNodeType :=
  match e with
  | elm_fmiModelDescription => astModelDescription
  | elm_Type => astType
  | elm_ScalarVariable => astScalarVariable
  | elm_CoSimulation_StandAlone | elm_CoSimulation_Tool => astCoSimulation
  | elm_BaseUnit | elm_EnumerationType | elm_Tool | elm_UnitDefinitions
  | elm_TypeDefinitions | elm_VendorAnnotations | elm_ModelVariables
  | elm_DirectDependency | elm_Model => astListElement
  | _ => astElement
  end.

(** The attribute array of a node: alternating name and value in C, here a
    list of pairs in storage order.  A name is one of the [attNames] literals,
    so that the pointer comparison of [getString] is a comparison of [Att]; a
    value is a C string or NULL (the value of a closed Name element is the
    [data] buffer, which is NULL when no text arrived). *)
Definition Attributes : Type := list (Att * option string).

Set Warnings "-register-all".

(** Modelled from the spec: the structs [Element], [ListElement], [Type],
    [ScalarVariable], [CoSimulation] and [ModelDescription] are declared in
    xml_parser.h, which is not part of the sources at hand.  Every struct
    starts with the element kind and the attribute array; the other fields
    are the ones the parser assigns, pointers that are NULL ([None]) after
    [calloc] and NULL-terminated arrays as lists. *)
Inductive Element : Type :=
  | mkElement (type : Elm) (attributes : Attributes)
  | mkListElement (type : Elm) (attributes : Attributes)
      (list_ : option (list Element))
  | mkType (type : Elm) (attributes : Attributes) (typeSpec : option Element)
  | mkScalarVariable (type : Elm) (attributes : Attributes)
      (typeSpec : option Element) (directDependencies : option (list Element))
  | mkCoSimulation (type : Elm) (attributes : Attributes)
      (capabilities : option Element) (model : option Element)
  | mkModelDescription (type : Elm) (attributes : Attributes)
      (unitDefinitions typeDefinitions : option (list Element))
      (defaultExperiment : option Element)
      (vendorAnnotations modelVariables : option (list Element))
      (cosimulation : option Element).

Definition type (e : Element) : Elm :=
  match e with
  | mkElement t _ | mkListElement t _ _ | mkType t _ _
  | mkScalarVariable t _ _ _ | mkCoSimulation t _ _ _
  | mkModelDescription t _ _ _ _ _ _ _ => t
  end.

Definition attributes (e : Element) : Attributes :=
  match e with
  | mkElement _ a | mkListElement _ a _ | mkType _ a _
  | mkScalarVariable _ a _ _ | mkCoSimulation _ a _ _
  | mkModelDescription _ a _ _ _ _ _ _ => a
  end.

(** Field reads through a cast.  The parser allocates every node in the shape
    [getAstNodeType] gives for its kind and casts only after a test of the
    kind, so a read of a field the node does not have never happens on a node
    the parser built; such a read gives NULL here. *)
Definition ListElement_list (e : Element) : option (list Element) :=
  match e with mkListElement _ _ l => l | _ => None end.

Definition typeSpec (e : Element) : option Element :=
  match e with
  | mkType _ _ ts | mkScalarVariable _ _ ts _ => ts
  | _ => None
  end.

Definition typeDefinitions (md : Element) : option (list Element) :=
  match md with mkModelDescription _ _ _ td _ _ _ _ => td | _ => None end.

Definition modelVariables (md : Element) : option (list Element) :=
  match md with mkModelDescription _ _ _ _ _ _ mv _ => mv | _ => None end.

Definition cosimulation (md : Element) : option Element :=
  match md with mkModelDescription _ _ _ _ _ _ _ cs => cs | _ => None end.

(** ** Outcomes of the accessors *)

(** An accessor returns, or the run ends in a failed [assert] or in the
    dereference of a NULL pointer. *)
Inductive outcome (A : Type) : Type :=
  | Ret (a : A)
  | Abort.

Arguments Ret {A} a.
Arguments Abort {A}.

Definition bind {A B : Type} (m : outcome A) (f : A -> outcome B) : outcome B :=
  match m with
  | Ret a => f a
  | Abort => Abort
  end.

Notation "x <- m ;; k" := (bind m (fun x => k))
  (at level 61, m at next level, right associativity).

(** The C library's [sscanf] for the formats "%lf", "%d" and "%u": the value
    scanned when the call returns 1, [None] otherwise.  [double] is the type
    of C doubles, of which the parser only writes the constants 0 and 1.0. *)
Class Libc : Type := {
  double : Type;
  double_0 : double;
  double_1 : double;
  sscanf_lf : string -> option double;
  sscanf_d : string -> option Z;
  sscanf_u : string -> option Z
}.

(** [unsigned int] is 32 bits wide; a conversion to it wraps. *)
Definition to_uint (z : Z) : Z := z mod 2 ^ 32.

(** Modelled from the spec: the macro [fmiUndefinedValueReference] is defined
    in a header that is not part of the sources at hand; the comment above
    [getValueReference] gives its value, 4294967295 = 0xFFFFFFFF. *)
Definition fmiUndefinedValueReference : Z := 4294967295.

(** ** Attribute store: low-level readers *)

Fixpoint getString_from (attr : Attributes) (a : Att) : option string :=
  match attr with
  | [] => None
  | (k, v) :: rest => if Att_eqb k a then v else getString_from rest a
  end.

Definition getString (element : Element) (a : Att) : option string :=
  getString_from (attributes element) a.

Section Readers.
Context {libc : Libc}.

Definition getDouble (element : Element) (a : Att) : double * ValueStatus :=
  match getString element a with
  | None => (double_0, valueMissing)
  | Some value =>
      match sscanf_lf value with
      | Some d => (d, valueDefined)
      | None => (double_0, valueIllegal)
      end
  end.

Definition getInt (element : Element) (a : Att) : Z * ValueStatus :=
  match getString element a with
  | None => (0, valueMissing)
  | Some value =>
      match sscanf_d value with
      | Some n => (n, valueDefined)
      | None => (0, valueIllegal)
      end
  end.

Definition getUInt (element : Element) (a : Att) : Z * ValueStatus :=
  let u := to_uint (-1) in
  match getString element a with
  | None => (u, valueMissing)
  | Some value =>
      match sscanf_u value with
      | Some n => (n, valueDefined)
      | None => (u, valueIllegal)
      end
  end.

Definition getBoolean (element : Element) (a : Att) : Z * ValueStatus :=
  match getString element a with
  | None => (0, valueMissing)
  | Some value =>
      if String.eqb value "true" then (1, valueDefined)
      else if String.eqb value "false" then (0, valueDefined)
      else (0, valueIllegal)
  end.

Definition getEnumValue (element : Element) (a : Att) : Enu * ValueStatus :=
  match getString element a with
  | None =>
      (match a with
       | att_variableNamingConvention => enu_flat
       | att_variability => enu_continuous
       | att_causality => enu_internal
       | att_alias => enu_noAlias
       | _ => enu_BAD_DEFINED
       end, valueMissing)
  | Some value =>
      let id := checkEnumValue value in
      (id, if Enu_eqb id enu_BAD_DEFINED then valueIllegal else valueDefined)
  end.

(** ** Accessor layer *)

Definition getName (element : Element) : outcome string :=
  match getString element att_name with
  | Some name => Ret name
  | None => Abort
  end.

Definition getCausality (scalarVariable : Element) : Enu :=
  fst (getEnumValue scalarVariable att_causality).

Definition getVariability (scalarVariable : Element) : Enu :=
  fst (getEnumValue scalarVariable att_variability).

Definition getAlias (scalarVariable : Element) : Enu :=
  fst (getEnumValue scalarVariable att_alias).

Definition getValueReference (scalarVariable : Element) : outcome Z :=
  let '(vr, vs) := getUInt scalarVariable att_valueReference in
  if Elm_eqb (type scalarVariable) elm_ScalarVariable then
    match vs with
    | valueDefined => Ret vr
    | _ => Abort
    end
  else Abort.

Fixpoint getVariableByName_loop (vars : list Element) (name : string)
  : outcome (option Element) :=
  match vars with
  | [] => Ret None
  | sv :: rest =>
      n <- getName sv ;;
      if String.eqb n name then Ret (Some sv)
      else getVariableByName_loop rest name
  end.

Definition getVariableByName (md : Element) (name : string)
  : outcome (option Element) :=
  match modelVariables md with
  | Some vars => getVariableByName_loop vars name
  | None => Ret None
  end.

Definition sameBaseType (t1 t2 : Elm) : bool :=
  Elm_eqb t1 t2
  || Elm_eqb t1 elm_Enumeration && Elm_eqb t2 elm_Integer
  || Elm_eqb t2 elm_Enumeration && Elm_eqb t1 elm_Integer.

Fixpoint getVariable_loop (vars : list Element) (vr : Z) (ty : Elm)
  : outcome (option Element) :=
  match vars with
  | [] => Ret None
  | sv :: rest =>
      match typeSpec sv with
      | None => Abort
      | Some ts =>
          if sameBaseType ty (type ts) then
            r <- getValueReference sv ;;
            if r =? vr then Ret (Some sv) else getVariable_loop rest vr ty
          else getVariable_loop rest vr ty
      end
  end.

Definition getVariable (md : Element) (vr : Z) (ty : Elm)
  : outcome (option Element) :=
  match modelVariables md with
  | Some vars =>
      if negb (vr =? fmiUndefinedValueReference)
      then getVariable_loop vars vr ty
      else Ret None
  | None => Ret None
  end.

Fixpoint getNonAliasVariable_loop (vars : list Element) (vr : Z) (ty : Elm)
  : outcome (option Element) :=
  match vars with
  | [] => Ret None
  | sv :: rest =>
      match typeSpec sv with
      | None => Abort
      | Some ts =>
          if sameBaseType ty (type ts) then
            r <- getValueReference sv ;;
            if (r =? vr) && Enu_eqb (getAlias sv) enu_noAlias
            then Ret (Some sv)
            else getNonAliasVariable_loop rest vr ty
          else getNonAliasVariable_loop rest vr ty
      end
  end.

Definition getNonAliasVariable (md : Element) (vr : Z) (ty : Elm)
  : outcome (option Element) :=
  match modelVariables md with
  | Some vars =>
      if negb (vr =? fmiUndefinedValueReference)
      then getNonAliasVariable_loop vars vr ty
      else Ret None
  | None => Ret None
  end.

Fixpoint getDeclaredType_loop (tds : list Element) (declaredType : string)
  : outcome (option Element) :=
  match tds with
  | [] => Ret None
  | tp :: rest =>
      n <- getName tp ;;
      if String.eqb declaredType n then Ret (Some tp)
      else getDeclaredType_loop rest declaredType
  end.

Definition getDeclaredType (md : Element) (declaredType : option string)
  : outcome (option Element) :=
  match declaredType, typeDefinitions md with
  | Some dt, Some tds => getDeclaredType_loop tds dt
  | _, _ => Ret None
  end.

(** [getString(p, a)] where [p] may be NULL. *)
Definition getString_at (p : option Element) (a : Att) : outcome (option string) :=
  match p with
  | Some e => Ret (getString e a)
  | None => Abort
  end.

Definition getString2 (md tp : Element) (a : Att) : outcome (option string) :=
  match getString tp a with
  | Some value => Ret (Some value)
  | None =>
      ty <- getDeclaredType md (getString tp att_declaredType) ;;
      match ty with
      | Some t => getString_at (typeSpec t) a
      | None => Ret None
      end
  end.

Definition getDescription (md sv : Element) : outcome (option string) :=
  match getString sv att_description with
  | Some value => Ret (Some value)
  | None =>
      dt <- getString_at (typeSpec sv) att_declaredType ;;
      ty <- getDeclaredType md dt ;;
      match ty with
      | Some t => Ret (getString t att_description)
      | None => Ret None
      end
  end.

Definition getVariableAttributeString (md : Element) (vr : Z) (ty : Elm) (a : Att)
  : outcome (option string) :=
  sv <- getVariable md vr ty ;;
  match sv with
  | None => Ret None
  | Some sv =>
      value <- getString_at (typeSpec sv) a ;;
      match value with
      | Some v => Ret (Some v)
      | None =>
          dt <- getString_at (typeSpec sv) att_declaredType ;;
          tp <- getDeclaredType md dt ;;
          match tp with
          | Some t => getString_at (typeSpec t) a
          | None => Ret None
          end
      end
  end.

Definition getVariableAttributeDouble (md : Element) (vr : Z) (ty : Elm) (a : Att)
  : outcome (double * ValueStatus) :=
  value <- getVariableAttributeString md vr ty a ;;
  match value with
  | None => Ret (double_0, valueMissing)
  | Some v =>
      match sscanf_lf v with
      | Some d => Ret (d, valueDefined)
      | None => Ret (double_0, valueIllegal)
      end
  end.

Definition getNominal (md : Element) (vr : Z) : outcome double :=
  r <- getVariableAttributeDouble md vr elm_Real att_nominal ;;
  match snd r with
  | valueDefined => Ret (fst r)
  | _ => Ret double_1
  end.

(** ** Validation *)

(** The loop of [validate] from variable [i] on, with the error count so
    far.  The warning logged for an unresolved reference takes
    [getName(sv)] as an argument, which asserts that the name is there. *)
Fixpoint validate_loop (md : Element) (vars : list Element) (error : Z)
  : outcome Z :=
  match vars with
  | [] => Ret error
  | sv :: rest =>
      declaredType <- getString_at (typeSpec sv) att_declaredType ;;
      declType <- getDeclaredType md declaredType ;;
      match declaredType, declType with
      | Some _, None =>
          _ <- getName sv ;;
          validate_loop md rest (error + 1)
      | _, _ => validate_loop md rest error
      end
  end.

Definition validate_errors (md : Element) : outcome Z :=
  match modelVariables md with
  | Some vars => validate_loop md vars 0
  | None => Ret 0
  end.

Definition validate (md : Element) : outcome (option Element) :=
  error <- validate_errors md ;;
  if negb (error =? 0) then Ret None else Ret (Some md).

End Readers.

(** ** The parser stack *)

(** Modelled from the spec: the stack of node pointers (stack.h: [stackPush],
    [stackPop], [stackPeek], [stackIsEmpty], [stackLastPopedAsArray0]) is not
    part of the sources at hand.  It is an array with a top position: [live]
    holds the slots up to the top, top first; [dead] holds the slots above the
    top, lowest first, which keep what was popped from them until a push
    writes over the lowest one.  [stackLastPopedAsArray0 s n] copies the [n]
    slots above the top, lowest first, so that a run popped just before comes
    back in the order it was pushed, the order of the document.  A pop or a
    peek of the empty stack is a failed assert. *)
Record Stack : Type := mkStack {
  live : list Element;
  dead : list Element
}.

Definition stackIsEmpty (s : Stack) : bool :=
  match live s with [] => true | _ => false end.

Definition stackPush (s : Stack) (e : Element) : Stack :=
  {| live := e :: live s; dead := tl (dead s) |}.

Definition stackPeek (s : Stack) : outcome Element :=
  match live s with
  | [] => Abort
  | x :: _ => Ret x
  end.

Definition stackPop (s : Stack) : outcome (Element * Stack) :=
  match live s with
  | [] => Abort
  | x :: l => Ret (x, {| live := l; dead := x :: dead s |})
  end.

Definition stackLastPopedAsArray0 (s : Stack) (n : Z) : list Element :=
  firstn (Z.to_nat n) (dead s).

(** A write through the pointer on top of the stack. *)
Definition stackUpdateTop (f : Element -> Element) (s : Stack) : Stack :=
  match live s with
  | [] => s
  | x :: l => {| live := f x :: l; dead := dead s |}
  end.

(** ** Parser state *)

(** The globals of the parser: the stack, the text buffer [data] (NULL or a
    string), [skipData], and whether [XML_StopParser] was called. *)
Record PState : Type := mkPState {
  stack : Stack;
  data : option string;
  skipData : bool;
  stopped : bool
}.

Definition with_stack (st : PState) (s : Stack) : PState :=
  {| stack := s; data := data st; skipData := skipData st; stopped := stopped st |}.

Definition XML_StopParser (st : PState) : PState :=
  {| stack := stack st; data := data st; skipData := skipData st; stopped := true |}.

(** [checkElement] in a callback: an unknown name stops the tokenizer. *)
Definition checkElement_cb (elm : string) (st : PState) : Elm * PState :=
  let el := checkElement elm in
  (el, if Elm_eqb el elm_BAD_DEFINED then XML_StopParser st else st).

Definition checkElementType (element : Element) (e : Elm) (st : PState)
  : bool * PState :=
  if Elm_eqb (type element) e then (true, st) else (false, XML_StopParser st).

Definition checkPeek (e : Elm) (st : PState) : bool * PState :=
  match live (stack st) with
  | [] => (false, XML_StopParser st)
  | top :: _ =>
      if Elm_eqb e elm_BAD_DEFINED then (true, st)
      else checkElementType top e st
  end.

Definition checkPop (e : Elm) (st : PState) : option Element * PState :=
  let '(ok, st1) := checkPeek e st in
  if ok then
    match live (stack st1) with
    | x :: l => (Some x, with_stack st1 {| live := l; dead := x :: dead (stack st1) |})
    | [] => (None, st1)
    end
  else (None, st1).

(** ** Node construction *)

Fixpoint addAttributes (attr : list (string * string)) : option Attributes :=
  match attr with
  | [] => Some []
  | (name, value) :: rest =>
      let a := checkAttribute name in
      if Att_eqb a att_BAD_DEFINED then None
      else
        match addAttributes rest with
        | Some att => Some ((a, Some value) :: att)
        | None => None
        end
  end.

(** [newElement(type, size, attr)]: [size] is the size of the struct that
    [startElement] picks by [getAstNodeType], here the shape itself; the
    fields after the attributes are zeroed by [calloc]. *)
Definition newElement (ty : Elm) (size : AstNodeType) (attr : list (string * string))
  : option Element :=
  match addAttributes attr with
  | None => None
  | Some att =>
      Some
        match size with
        | astElement => mkElement ty att
        | astListElement => mkListElement ty att None
        | astType => mkType ty att None
        | astScalarVariable => mkScalarVariable ty att None None
        | astCoSimulation => mkCoSimulation ty att None None
        | astModelDescription => mkModelDescription ty att None None None None None None
        end
  end.

(** Field writes through a cast; on a node of another shape (which the parser
    never casts so) the node is left as it is. *)
Definition set_list (array : list Element) (e : Element) : Element :=
  match e with
  | mkListElement t a _ => mkListElement t a (Some array)
  | _ => e
  end.

Definition set_typeSpec (ts : Element) (e : Element) : Element :=
  match e with
  | mkType t a _ => mkType t a (Some ts)
  | _ => e
  end.

Definition set_variable (deps : option (list Element)) (ts : Element) (e : Element)
  : Element :=
  match e with
  | mkScalarVariable t a _ _ => mkScalarVariable t a (Some ts) deps
  | _ => e
  end.

Definition set_capabilities (ca : Element) (e : Element) : Element :=
  match e with
  | mkCoSimulation t a _ mo => mkCoSimulation t a (Some ca) mo
  | _ => e
  end.

Definition set_model (mo : Element) (e : Element) : Element :=
  match e with
  | mkCoSimulation t a ca _ => mkCoSimulation t a ca (Some mo)
  | _ => e
  end.

Definition set_description
  (mv va : option (list Element)) (de : option Element)
  (td ud : option (list Element)) (cs : option Element) (e : Element) : Element :=
  match e with
  | mkModelDescription t a _ _ _ _ _ _ => mkModelDescription t a ud td de va mv cs
  | _ => e
  end.

Definition set_attributes (att : Attributes) (e : Element) : Element :=
  match e with
  | mkElement t _ => mkElement t att
  | mkListElement t _ l => mkListElement t att l
  | mkType t _ ts => mkType t att ts
  | mkScalarVariable t _ ts dd => mkScalarVariable t att ts dd
  | mkCoSimulation t _ ca mo => mkCoSimulation t att ca mo
  | mkModelDescription t _ ud td de va mv cs => mkModelDescription t att ud td de va mv cs
  end.

(** ** Callbacks of the tokenizer *)

Definition startElement (elm : string) (attr : list (string * string)) (st : PState)
  : PState :=
  let '(el, st) := checkElement_cb elm st in
  if Elm_eqb el elm_BAD_DEFINED then st
  else
    let st := {| stack := stack st; data := data st;
                 skipData := negb (Elm_eqb el elm_Name); stopped := stopped st |} in
    match newElement el (getAstNodeType el) attr with
    | Some e => with_stack st (stackPush (stack st) e)
    | None => XML_StopParser st
    end.

(** The loop of [popList]: [elm] is the node popped last, [lv] and [dd] the
    stack after that pop, [n] the count of nodes of kind [e] popped so far. *)
Fixpoint popList_while (e : Elm) (elm : Element) (lv dd : list Element) (n : Z)
  : outcome (Element * Stack * Z) :=
  if Elm_eqb (type elm) e then
    match lv with
    | [] => Abort
    | x :: lv' => popList_while e x lv' (x :: dd) (n + 1)
    end
  else Ret (elm, {| live := lv; dead := dd |}, n).

Definition is_astListElement (t : AstNodeType) : bool :=
  match t with astListElement => true | _ => false end.

Definition popList (e : Elm) (st : PState) : outcome PState :=
  r <- stackPop (stack st) ;;
  let '(elm0, s0) := r in
  r <- popList_while e elm0 (live s0) (dead s0) 0 ;;
  let '(elm, s1, n) := r in
  let s2 := stackPush s1 elm in
  let array := stackLastPopedAsArray0 s2 n in
  if is_astListElement (getAstNodeType (type elm))
  then Ret (with_stack st (stackUpdateTop (set_list array) s2))
  else Ret (with_stack st s2).

(** The closing [checkPeek(el)] of [endElement]. *)
Definition endCheck (el : Elm) (st : PState) : outcome PState :=
  Ret (snd (checkPeek el st)).

Definition is_CoSimulation (child : Element) : bool :=
  Elm_eqb (type child) elm_CoSimulation_StandAlone
  || Elm_eqb (type child) elm_CoSimulation_Tool.

(** One optional child of the root: when [cond child] holds the child is
    taken and the next node is popped (a return when there is none). *)
Definition take_if (cond : Element -> bool) (child : Element) (st : PState)
  (k : option Element -> Element -> PState -> outcome PState) : outcome PState :=
  if cond child then
    let '(next, st1) := checkPop elm_BAD_DEFINED st in
    match next with
    | Some child1 => k (Some child) child1 st1
    | None => Ret st1
    end
  else k None child st.

Definition list_of (node : option Element) : option (list Element) :=
  match node with
  | Some child => ListElement_list child
  | None => None
  end.

Definition end_fmiModelDescription (st : PState) : outcome PState :=
  let '(first, st) := checkPop elm_BAD_DEFINED st in
  match first with
  | None => Abort
  | Some child =>
  take_if is_CoSimulation child st (fun cs child st =>
  take_if (fun c => Elm_eqb (type c) elm_ModelVariables) child st (fun mv child st =>
  take_if (fun c => Elm_eqb (type c) elm_VendorAnnotations) child st (fun va child st =>
  take_if (fun c => Elm_eqb (type c) elm_DefaultExperiment) child st (fun de child st =>
  take_if (fun c => Elm_eqb (type c) elm_TypeDefinitions) child st (fun td child st =>
  take_if (fun c => Elm_eqb (type c) elm_UnitDefinitions) child st (fun ud child st =>
  take_if (fun c => match cs with None => is_CoSimulation c | Some _ => false end)
    child st (fun cs2 child st =>
  let cs := match cs with Some _ => cs | None => cs2 end in
  let '(ok, st) := checkElementType child elm_fmiModelDescription st in
  if ok then
    let md := set_description (list_of mv) (list_of va) de (list_of td) (list_of ud) cs child in
    endCheck elm_fmiModelDescription (with_stack st (stackPush (stack st) md))
  else Ret st)))))))
  end.

Definition end_Implementation (st : PState) : outcome PState :=
  let '(cs, st) := checkPop elm_BAD_DEFINED st in
  let '(im, st) := checkPop elm_Implementation st in
  match cs, im with
  | Some cs, Some _ => endCheck (type cs) (with_stack st (stackPush (stack st) cs))
  | _, _ => Ret st
  end.

Definition end_CoSimulation_StandAlone (st : PState) : outcome PState :=
  let '(ca, st) := checkPop elm_Capabilities st in
  let '(cs, st) := checkPop elm_CoSimulation_StandAlone st in
  match ca, cs with
  | Some ca, Some cs =>
      endCheck elm_CoSimulation_StandAlone
        (with_stack st (stackPush (stack st) (set_capabilities ca cs)))
  | _, _ => Ret st
  end.

Definition end_CoSimulation_Tool (st : PState) : outcome PState :=
  let '(mo, st) := checkPop elm_Model st in
  let '(ca, st) := checkPop elm_Capabilities st in
  let '(cs, st) := checkPop elm_CoSimulation_Tool st in
  match ca, mo, cs with
  | Some ca, Some mo, Some cs =>
      endCheck elm_CoSimulation_Tool
        (with_stack st (stackPush (stack st) (set_model mo (set_capabilities ca cs))))
  | _, _, _ => Ret st
  end.

Definition is_typeSpec_of_Type (t : Elm) : bool :=
  match t with
  | elm_RealType | elm_IntegerType | elm_BooleanType | elm_StringType
  | elm_EnumerationType => true
  | _ => false
  end.

Definition is_typeSpec_of_variable (t : Elm) : bool :=
  match t with
  | elm_Real | elm_Integer | elm_Boolean | elm_String | elm_Enumeration => true
  | _ => false
  end.

Definition end_Type (st : PState) : outcome PState :=
  let '(ts, st) := checkPop elm_BAD_DEFINED st in
  match ts with
  | None => Ret st
  | Some ts =>
      let '(ok, st) := checkPeek elm_Type st in
      if ok then
        if is_typeSpec_of_Type (type ts)
        then endCheck elm_Type (with_stack st (stackUpdateTop (set_typeSpec ts) (stack st)))
        else Ret (XML_StopParser st)
      else Ret st
  end.

Definition end_ScalarVariable_with (deps : option (list Element)) (child : Element)
  (st : PState) : outcome PState :=
  let '(ok, st) := checkPeek elm_ScalarVariable st in
  if ok then
    if is_typeSpec_of_variable (type child)
    then endCheck elm_ScalarVariable
           (with_stack st (stackUpdateTop (set_variable deps child) (stack st)))
    else Ret (XML_StopParser st)
  else Ret st.

Definition end_ScalarVariable (st : PState) : outcome PState :=
  let '(child, st) := checkPop elm_BAD_DEFINED st in
  match child with
  | None => Ret st
  | Some child =>
      if Elm_eqb (type child) elm_DirectDependency then
        let '(next, st) := checkPop elm_BAD_DEFINED st in
        match next with
        | None => Ret st
        | Some child1 => end_ScalarVariable_with (ListElement_list child) child1 st
        end
      else end_ScalarVariable_with None child st
  end.

Definition end_Name (st : PState) : outcome PState :=
  let '(name, st) := checkPop elm_Name st in
  match name with
  | None => Ret st
  | Some name =>
      let name := set_attributes [(att_input, data st)] name in
      endCheck elm_Name
        {| stack := stackPush (stack st) name; data := None;
           skipData := true; stopped := stopped st |}
  end.

Definition end_popList (child_kind el : Elm) (st : PState) : outcome PState :=
  st1 <- popList child_kind st ;;
  endCheck el st1.

Definition endElement (elm : string) (st : PState) : outcome PState :=
  let '(el, st) := checkElement_cb elm st in
  match el with
  | elm_fmiModelDescription => end_fmiModelDescription st
  | elm_Implementation => end_Implementation st
  | elm_CoSimulation_StandAlone => end_CoSimulation_StandAlone st
  | elm_CoSimulation_Tool => end_CoSimulation_Tool st
  | elm_Type => end_Type st
  | elm_ScalarVariable => end_ScalarVariable st
  | elm_ModelVariables => end_popList elm_ScalarVariable el st
  | elm_VendorAnnotations => end_popList elm_Tool el st
  | elm_Tool => end_popList elm_Annotation el st
  | elm_TypeDefinitions => end_popList elm_Type el st
  | elm_EnumerationType => end_popList elm_Item el st
  | elm_UnitDefinitions => end_popList elm_BaseUnit el st
  | elm_BaseUnit => end_popList elm_DisplayUnitDefinition el st
  | elm_DirectDependency => end_popList elm_Name el st
  | elm_Model => end_popList elm_File el st
  | elm_Name => end_Name st
  | elm_BAD_DEFINED => Ret st
  | _ =>
      match getAstNodeType el with
      | astElement => endCheck el st
      | _ => Abort
      end
  end.

(** The C string that [strncpy] and [strncat] take from a chunk: its
    characters up to the first NUL, if it has one. *)
Fixpoint c_chars (s : string) : string :=
  match s with
  | EmptyString => EmptyString
  | String c rest => if Ascii.eqb c zero then EmptyString else String c (c_chars rest)
  end.

Definition line_feed : string := String (ascii_of_nat 10) EmptyString.

(** [handleData(context, s, len)]: the chunk is the [len] characters at [s]. *)
Definition handleData (s : string) (st : PState) : PState :=
  if skipData st then st
  else
    let data' :=
      match data st with
      | None => if String.eqb s line_feed then EmptyString else c_chars s
      | Some d => (d ++ c_chars s)%string
      end in
    {| stack := stack st; data := Some data'; skipData := skipData st;
       stopped := stopped st |}.

(** ** Running a document *)

(** What the tokenizer finds in the file: a start tag, an end tag, a chunk of
    text, or an empty-element tag (a start tag closed by a slash). *)
Inductive Event : Type :=
  | Open (name : string) (attr : list (string * string))
  | Close (name : string)
  | Text (chunk : string)
  | Empty (name : string) (attr : list (string * string)).

(** The callbacks behind one event.  For an empty-element tag the tokenizer
    calls [startElement] and then [endElement] without a look at the stop
    flag in between: [endElement] runs also when [startElement] has just
    stopped the parse (the documentation of [XML_StopParser] names this
    callback as one that still follows a stop). *)
Definition step (ev : Event) (st : PState) : outcome PState :=
  match ev with
  | Open name attr => Ret (startElement name attr st)
  | Close name => endElement name st
  | Text chunk => Ret (handleData chunk st)
  | Empty name attr => endElement name (startElement name attr st)
  end.

(** The tokenizer delivers the events in order, and none after the event in
    which it was stopped. *)
Fixpoint run (evs : list Event) (st : PState) : outcome PState :=
  match evs with
  | [] => Ret st
  | ev :: rest =>
      if stopped st then Ret st
      else st1 <- step ev st ;; run rest st1
  end.

Definition initial : PState :=
  {| stack := {| live := []; dead := [] |}; data := None; skipData := false;
     stopped := false |}.

(** The cast of the popped node to [ModelDescription*] in [parse], without a
    test of its kind.  The fields of the root are there to read in a node
    that was allocated in the shape of the root; in a node of another shape
    the read of [md->modelVariables] is outside the node, and the run has no
    result to rely on. *)
Definition as_ModelDescription (e : Element) : outcome Element :=
  match e with
  | mkModelDescription _ _ _ _ _ _ _ _ => Ret e
  | _ => Abort
  end.

Section Parse.
Context {libc : Libc}.

(** [parse] on the events of a well-formed file: a stopped tokenizer makes
    [XML_Parse] fail and [parse] return NULL; otherwise the node on top is
    popped, the stack must be empty, and the node is validated as the
    root. *)
Definition parse (evs : list Event) : outcome (option Element) :=
  st <- run evs initial ;;
  if stopped st then Ret None
  else
    r <- stackPop (stack st) ;;
    let '(md, s) := r in
    if stackIsEmpty s then
      md <- as_ModelDescription md ;;
      validate md
    else Abort.

End Parse.

(** ** Vocabulary of the specification *)

(** The variables and the type definitions of a model description, an absent
    list read as the empty one. *)
Definition variables (md : Element) : list Element :=
  match modelVariables md with Some vars => vars | None => [] end.

Definition type_definitions (md : Element) : list Element :=
  match typeDefinitions md with Some tds => tds | None => [] end.

(** The declaredType attribute of the type-spec of a variable. *)
Definition declaredType_of (sv : Element) : option string :=
  match typeSpec sv with
  | Some ts => getString ts att_declaredType
  | None => None
  end.




(** The lookup with fallback in the words of the specification: read the
    attribute on the given node; when it is absent there, resolve the
    declaredType attribute of that node against the type definitions and read
    the attribute on the type-spec of the type found. *)
Definition spec_fallback_lookup (md node : Element) (a : Att) : outcome (option string) :=
  match getString node a with
  | Some value => Ret (Some value)
  | None =>
      ty <- getDeclaredType md (getString node att_declaredType) ;;
      match ty with
      | Some t => getString_at (typeSpec t) a
      | None => Ret None
      end
  end.

(** No NUL among the characters of a chunk (XML text has none). *)
Definition no_NUL (s : string) : Prop := c_chars s = s.

(** The list-producing elements with the kind of their children, as the
    specification lists them. *)
Definition child_kind (el : Elm) : option Elm :=
  match el with
  | elm_UnitDefinitions => Some elm_BaseUnit
  | elm_TypeDefinitions => Some elm_Type
  | elm_VendorAnnotations => Some elm_Tool
  | elm_Tool => Some elm_Annotation
  | elm_EnumerationType => Some elm_Item
  | elm_BaseUnit => Some elm_DisplayUnitDefinition
  | elm_DirectDependency => Some elm_Name
  | elm_Model => Some elm_File
  | elm_ModelVariables => Some elm_ScalarVariable
  | _ => None
  end.

(** The name of an element kind in the table, [elmNames[el]]. *)
Definition name_of (el : Elm) : string :=
  nth (Z.to_nat (Elm_to_Z el)) elmNames EmptyString.

(** Two states of the parser that agree on all but a part [B] at the bottom
    of the second stack and the slots above the tops. *)
Definition frame_rel (B : list Element) (s1 s2 : PState) : Prop :=
  live (stack s2) = live (stack s1) ++ B /\
  data s2 = data s1 /\ skipData s2 = skipData s1 /\ stopped s2 = stopped s1.

(** A callback that, where it runs on without a stop, runs the same way above
    any such part. *)
Definition framed (f : PState -> outcome PState) : Prop :=
  forall B s1 s2 s1',
    frame_rel B s1 s2 -> f s1 = Ret s1' -> stopped s1' = false ->
    exists s2', f s2 = Ret s2' /\ frame_rel B s1' s2'.


(** Two states that agree on what the callbacks read: the nodes on the
    stack, the text buffer and the two flags. *)
Definition agree (s1 s2 : PState) : Prop :=
  live (stack s1) = live (stack s2) /\
  data s1 = data s2 /\ skipData s1 = skipData s2 /\ stopped s1 = stopped s2.

(** The state in which an element is assembled on its own: an empty stack,
    the text buffer of [st], no text recorded. *)
Definition on_its_own (st : PState) : PState :=
  {| stack := {| live := []; dead := [] |}; data := data st; skipData := true;
     stopped := false |}.

(** ** Further vocabulary: names, raw attributes, text, well-formed trees *)

(** The name of an attribute and of an enum value in their tables,
    [attNames[a]] and [enuNames[id]]. *)
Definition attribute_name (a : Att) : string :=
  nth (Z.to_nat (Att_to_Z a)) attNames EmptyString.

Definition enum_name (id : Enu) : string :=
  nth (Z.to_nat (Enu_to_Z id)) enuNames EmptyString.

(** The value that the raw attribute list of an open event gives the
    attribute [a]: the value of the first pair whose name is the name of
    [a]. *)
Fixpoint raw_value (attr : list (string * string)) (a : Att) : option string :=
  match attr with
  | [] => None
  | (name, value) :: rest =>
      if Att_eqb (checkAttribute name) a then Some value else raw_value rest a
  end.

(** The chunks of text delivered one after the other. *)
Definition deliver (chunks : list string) (st : PState) : PState :=
  fold_left (fun s chunk => handleData chunk s) chunks st.

(** The text of a Name element whose content arrives as [chunks] in a buffer
    that holds [d]: a first chunk of one line feed starts the empty text. *)
Definition name_text (d : option string) (chunks : list string) : option string :=
  match d, chunks with
  | Some x, _ => Some (x ++ String.concat EmptyString chunks)%string
  | None, [] => None
  | None, c :: rest =>
      Some ((if String.eqb c line_feed then EmptyString else c)
            ++ String.concat EmptyString rest)%string
  end.

(** A state with the stack extended at the bottom by [B]. *)
Definition above (B : list Element) (st : PState) : PState :=
  with_stack st {| live := live (stack st) ++ B; dead := dead (stack st) |}.

(** The nodes of an optional part of the root. *)
Definition part (o : option Element) : list Element :=
  match o with Some x => [x] | None => [] end.

Definition has_kind (k : Elm) (e : Element) : bool := Elm_eqb (type e) k.

Definition part_kind (k : Elm) (o : option Element) : Prop :=
  match o with Some x => type x = k | None => True end.

(** A tree in the shape that the kinds of its nodes ask for: every node has
    the shape of its kind, a list holds children of the child kind of its
    element, a type-spec is of a type-spec kind, dependencies are Name
    nodes, capabilities and model are of their kinds, and the parts of the
    root are lists of the kinds of the schema. *)
Definition is_CoSimulation_kind (t : Elm) : bool :=
  Elm_eqb t elm_CoSimulation_StandAlone || Elm_eqb t elm_CoSimulation_Tool.

Fixpoint well_formed (e : Element) : bool :=
  match e with
  | mkElement t _ =>
      match getAstNodeType t with astElement => true | _ => false end
  | mkListElement t _ l =>
      match child_kind t with
      | Some k =>
          match l with
          | Some l => forallb (fun c => has_kind k c && well_formed c) l
          | None => true
          end
      | None => false
      end
  | mkType t _ ts =>
      Elm_eqb t elm_Type
      && match ts with
         | Some c => is_typeSpec_of_Type (type c) && well_formed c
         | None => true
         end
  | mkScalarVariable t _ ts dd =>
      Elm_eqb t elm_ScalarVariable
      && match ts with
         | Some c => is_typeSpec_of_variable (type c) && well_formed c
         | None => true
         end
      && match dd with
         | Some l => forallb (fun c => has_kind elm_Name c && well_formed c) l
         | None => true
         end
  | mkCoSimulation t _ ca mo =>
      is_CoSimulation_kind t
      && match ca with
         | Some c => has_kind elm_Capabilities c && well_formed c
         | None => true
         end
      && match mo with
         | Some c => has_kind elm_Model c && well_formed c
         | None => true
         end
  | mkModelDescription t _ ud td de va mv cs =>
      Elm_eqb t elm_fmiModelDescription
      && match ud with
         | Some l => forallb (fun c => has_kind elm_BaseUnit c && well_formed c) l
         | None => true
         end
      && match td with
         | Some l => forallb (fun c => has_kind elm_Type c && well_formed c) l
         | None => true
         end
      && match de with
         | Some c => has_kind elm_DefaultExperiment c && well_formed c
         | None => true
         end
      && match va with
         | Some l => forallb (fun c => has_kind elm_Tool c && well_formed c) l
         | None => true
         end
      && match mv with
         | Some l => forallb (fun c => has_kind elm_ScalarVariable c && well_formed c) l
         | None => true
         end
      && match cs with
         | Some c => is_CoSimulation_kind (type c) && well_formed c
         | None => true
         end
  end.

(** Every node on the stack is well formed. *)
Definition stack_well_formed (st : PState) : Prop :=
  Forall (fun e => well_formed e = true) (live (stack st)).

(** Variable [x] does not answer to the value reference [vr] in the base
    type of [ty]: its type-spec is of another base type, or its value
    reference is another one. *)
Definition passed_over {libc : Libc} (vr : Z) (ty : Elm) (x : Element) : Prop :=
  exists ts,
    typeSpec x = Some ts /\
    (sameBaseType ty (type ts) = false \/
     exists r, getValueReference x = Ret r /\ r <> vr).

(** An optional co-simulation node. *)
Definition part_CoSimulation (o : option Element) : Prop :=
  match o with
  | Some x => type x = elm_CoSimulation_StandAlone \/ type x = elm_CoSimulation_Tool
  | None => True
  end.

(** A list of well-formed nodes of kind [k], or no list; a well-formed node
    of one of the kinds [kinds], or no node. *)
Definition list_ok (k : Elm) (l : option (list Element)) : Prop :=
  match l with
  | Some l => forallb (fun c => has_kind k c && well_formed c) l = true
  | None => True
  end.

Definition node_ok (kinds : Elm -> bool) (o : option Element) : Prop :=
  match o with
  | Some c => kinds (type c) = true /\ well_formed c = true
  | None => True
  end.

(** A callback that keeps the stack well formed, where it does not stop the
    parse. *)
Definition keeps_well_formed (f : PState -> outcome PState) : Prop :=
  forall st st',
    f st = Ret st' -> stopped st' = false ->
    stack_well_formed st -> stack_well_formed st'.

(** An event that names an element outside the element table, or a start
    tag or an empty-element tag with an attribute outside the attribute
    table. *)
Definition outside_vocabulary (ev : Event) : Prop :=
  match ev with
  | Open name attr | Empty name attr =>
      ~ In name elmNames \/
      exists n v, In (n, v) attr /\ ~ In n attNames
  | Close name => ~ In name elmNames
  | Text _ => False
  end.

(** An empty-element tag of a known element. *)
Definition known_empty_tag (ev : Event) : Prop :=
  match ev with
  | Empty name _ => In name elmNames
  | _ => False
  end.

(** A callback that leaves a stopped parse stopped. *)
Definition stays_stopped (f : PState -> outcome PState) : Prop :=
  forall st st', stopped st = true -> f st = Ret st' -> stopped st' = true.

(** ** Sample data *)

(** A stand-in for the C library that scans unsigned decimal numerals only,
    with the integers as doubles. *)
Definition digit_value (c : ascii) : option Z :=
  let n := Z.of_nat (nat_of_ascii c) in
  if (48 <=? n) && (n <=? 57) then Some (n - 48) else None.

Fixpoint scan_digits (s : string) (acc : Z) : option Z :=
  match s with
  | EmptyString => Some acc
  | String c rest =>
      match digit_value c with
      | Some d => scan_digits rest (10 * acc + d)
      | None => None
      end
  end.

Definition scan_numeral (s : string) : option Z :=
  match s with
  | EmptyString => None
  | _ => scan_digits s 0
  end.

Definition numeral_libc : Libc :=
  {| double := Z; double_0 := 0; double_1 := 1;
     sscanf_lf := scan_numeral; sscanf_d := scan_numeral; sscanf_u := scan_numeral |}.

(** A type T1 with a description, and three variables: x declares T1, y
    declares nothing and has a description, z declares a type T9 that is not
    defined. *)
Definition sample_T1 : Element :=
  mkType elm_Type [(att_name, Some "T1"); (att_description, Some "a length")]
    (Some (mkElement elm_RealType [(att_nominal, Some "2")])).

Definition sample_x : Element :=
  mkScalarVariable elm_ScalarVariable
    [(att_name, Some "x"); (att_valueReference, Some "0")]
    (Some (mkElement elm_Real [(att_declaredType, Some "T1")])) None.

Definition sample_y : Element :=
  mkScalarVariable elm_ScalarVariable
    [(att_name, Some "y"); (att_valueReference, Some "1");
     (att_description, Some "own"); (att_causality, Some "output")]
    (Some (mkElement elm_Real [(att_nominal, Some "fast")])) None.

Definition sample_z : Element :=
  mkScalarVariable elm_ScalarVariable
    [(att_name, Some "z"); (att_valueReference, Some "2")]
    (Some (mkElement elm_Real [(att_declaredType, Some "T9")])) None.

Definition sample_md (vars : list Element) : Element :=
  mkModelDescription elm_fmiModelDescription [(att_modelName, Some "m")]
    None (Some [sample_T1]) None None (Some vars) None.


(** A co-simulation element of the tool kind, its events, the node it
    assembles to, and a document around it, with and without the
    Implementation wrapper. *)
Definition sample_tool_events : list Event :=
  [ Open "CoSimulation_Tool" [];
    Open "Capabilities" [("canHandleEvents", "true")];
    Close "Capabilities";
    Open "Model" [("entryPoint", "fmu://m")];
    Open "File" [("file", "a")];
    Close "File";
    Close "Model";
    Close "CoSimulation_Tool" ].

Definition sample_tool : Element :=
  mkCoSimulation elm_CoSimulation_Tool []
    (Some (mkElement elm_Capabilities [(att_canHandleEvents, Some "true")]))
    (Some (mkListElement elm_Model [(att_entryPoint, Some "fmu://m")]
             (Some [mkElement elm_File [(att_file, Some "a")]]))).

Definition sample_root : Element :=
  mkModelDescription elm_fmiModelDescription [(att_modelName, Some "m")]
    None None None None None None.

Definition sample_prefix : list Event :=
  [ Open "fmiModelDescription" [("modelName", "m")] ].

Definition sample_wrapped : list Event :=
  sample_prefix
  ++ [Open "Implementation" []] ++ sample_tool_events ++ [Close "Implementation"]
  ++ [Close "fmiModelDescription"].

Definition sample_bare : list Event :=
  sample_prefix ++ sample_tool_events ++ [Close "fmiModelDescription"].

(** A ModelVariables element in which a Real stands before the variable. *)
Definition sample_misplaced : list Event :=
  [ Open "ModelVariables" [];
    Open "Real" [];
    Close "Real";
    Open "ScalarVariable" [("name", "x")];
    Open "Real" [];
    Close "Real";
    Close "ScalarVariable";
    Close "ModelVariables" ].

(** The state after the open event of the root, and the states in which the
    sample elements end. *)
Definition sample_open_root : PState :=
  {| stack := {| live := [sample_root]; dead := [] |}; data := None;
     skipData := true; stopped := false |}.

Definition sample_tool_end : PState :=
  Eval vm_compute in
    match run sample_tool_events (on_its_own sample_open_root) with
    | Ret st => st
    | Abort => initial
    end.

Definition sample_variable_nodes : list Element :=
  [ mkScalarVariable elm_ScalarVariable [(att_name, Some "x")]
      (Some (mkElement elm_Real [])) None;
    mkScalarVariable elm_ScalarVariable [(att_name, Some "y")]
      (Some (mkElement elm_Integer [])) None ].

Definition sample_before_close : PState :=
  {| stack := {| live := rev sample_variable_nodes
                         ++ [mkListElement elm_ModelVariables [] None; sample_root];
                 dead := [] |};
     data := None; skipData := true; stopped := false |}.

Definition sample_recording (d : option string) : PState :=
  {| stack := {| live := [mkElement elm_Name []]; dead := [] |}; data := d;
     skipData := false; stopped := false |}.

(** A model description whose first type definition has no name, before T1;
    the variable x declares T1.  And the events of such a document. *)
Definition sample_unnamed : Element :=
  mkType elm_Type [] (Some (mkElement elm_RealType [])).

Definition sample_md_unnamed : Element :=
  mkModelDescription elm_fmiModelDescription [(att_modelName, Some "m")]
    None (Some [sample_unnamed; sample_T1]) None None (Some [sample_x]) None.


(** The events [evs] assemble, on their own, to the node [e]: run on an empty
    stack with an empty text buffer and text skipped, they end without a
    stop with [e] alone on the stack, in such a state again. *)
Definition assembles (evs : list Event) (e : Element) : Prop :=
  exists st',
    run evs (on_its_own initial) = Ret st' /\
    live (stack st') = [e] /\
    data st' = None /\ skipData st' = true /\ stopped st' = false.

(** A document with the type T1 and the variable x that declares it. *)
Definition sample_typed_events : list Event :=
  [ Open "fmiModelDescription" [("modelName", "m")];
    Open "TypeDefinitions" [];
    Open "Type" [("name", "T1"); ("description", "a length")];
    Open "RealType" [("nominal", "2")];
    Close "RealType";
    Close "Type";
    Close "TypeDefinitions";
    Open "ModelVariables" [];
    Open "ScalarVariable" [("name", "x"); ("valueReference", "0")];
    Open "Real" [("declaredType", "T1")];
    Close "Real";
    Close "ScalarVariable";
    Close "ModelVariables";
    Close "fmiModelDescription" ].

(** * Properties *)

(** ** Identities and name tables *)

Lemma Elm_to_Z_inj (a b : Elm) : Elm_to_Z a = Elm_to_Z b -> a = b.
Proof.
  intros H.
  assert (Hr : forall x, Elm_of_Z (Elm_to_Z x) = x) by (intros x; destruct x; reflexivity).
  rewrite <- (Hr a), <- (Hr b), H. reflexivity.
Qed.

Lemma Att_to_Z_inj (a b : Att) : Att_to_Z a = Att_to_Z b -> a = b.
Proof.
  intros H.
  assert (Hr : forall x, Att_of_Z (Att_to_Z x) = x) by (intros x; destruct x; reflexivity).
  rewrite <- (Hr a), <- (Hr b), H. reflexivity.
Qed.

Lemma Enu_to_Z_inj (a b : Enu) : Enu_to_Z a = Enu_to_Z b -> a = b.
Proof.
  intros H.
  assert (Hr : forall x, Enu_of_Z (Enu_to_Z x) = x) by (intros x; destruct x; reflexivity).
  rewrite <- (Hr a), <- (Hr b), H. reflexivity.
Qed.

Lemma Elm_eqb_eq (a b : Elm) : Elm_eqb a b = true <-> a = b.
Proof.
  unfold Elm_eqb. rewrite Z.eqb_eq. split.
  - apply Elm_to_Z_inj.
  - intros ->. reflexivity.
Qed.

Lemma Elm_eqb_neq (a b : Elm) : Elm_eqb a b = false <-> a <> b.
Proof.
  rewrite <- Elm_eqb_eq. destruct (Elm_eqb a b); split; congruence.
Qed.

Lemma Elm_eqb_refl (a : Elm) : Elm_eqb a a = true.
Proof. apply Elm_eqb_eq. reflexivity. Qed.

Lemma Att_eqb_eq (a b : Att) : Att_eqb a b = true <-> a = b.
Proof.
  unfold Att_eqb. rewrite Z.eqb_eq. split.
  - apply Att_to_Z_inj.
  - intros ->. reflexivity.
Qed.

Lemma Enu_eqb_eq (a b : Enu) : Enu_eqb a b = true <-> a = b.
Proof.
  unfold Enu_eqb. rewrite Z.eqb_eq. split.
  - apply Enu_to_Z_inj.
  - intros ->. reflexivity.
Qed.

Lemma Enu_eqb_neq (a b : Enu) : Enu_eqb a b = false <-> a <> b.
Proof.
  rewrite <- Enu_eqb_eq. destruct (Enu_eqb a b); split; congruence.
Qed.

(** [checkName] finds the first entry equal to the name, if there is one. *)
Lemma checkName_from_found (array : list string) :
  forall (i : Z) (name : string),
    In name array ->
    i <= checkName_from i name array < i + Z.of_nat (List.length array) /\
    nth_error array (Z.to_nat (checkName_from i name array - i)) = Some name.
Proof.
  induction array as [|s rest IH]; intros i name Hin.
  - destruct Hin.
  - cbn [checkName_from]. destruct (String.eqb_spec name s) as [->|Hne].
    + rewrite Z.sub_diag. cbn [List.length]. split; [lia | reflexivity].
    + destruct Hin as [Heq|Hin]; [congruence|].
      destruct (IH (i + 1) name Hin) as [Hb Hn]. cbn [List.length]. split; [lia|].
      replace (checkName_from (i + 1) name rest - i)
        with (Z.succ (checkName_from (i + 1) name rest - (i + 1))) by lia.
      rewrite Z2Nat.inj_succ by lia. exact Hn.
Qed.

Lemma checkName_from_missing (array : list string) :
  forall (i : Z) (name : string),
    ~ In name array -> checkName_from i name array = -1.
Proof.
  induction array as [|s rest IH]; intros i name Hnin; cbn [checkName_from].
  - reflexivity.
  - destruct (String.eqb_spec name s) as [->|Hne].
    + exfalso. apply Hnin. left. reflexivity.
    + apply IH. intros Hin. apply Hnin. right. exact Hin.
Qed.

Lemma Enu_of_Z_good (i : Z) :
  0 <= i < 13 -> Enu_of_Z i <> enu_BAD_DEFINED /\ Enu_to_Z (Enu_of_Z i) = i.
Proof.
  intros Hi.
  assert (Hc : i = 0 \/ i = 1 \/ i = 2 \/ i = 3 \/ i = 4 \/ i = 5 \/ i = 6 \/
               i = 7 \/ i = 8 \/ i = 9 \/ i = 10 \/ i = 11 \/ i = 12) by lia.
  repeat (destruct Hc as [->|Hc]; [cbv; split; [discriminate|reflexivity]|]).
  subst i. cbv. split; [discriminate|reflexivity].
Qed.

(** A value of the enum table resolves to the identity that names it; any
    other value resolves to the BAD identity. *)
Lemma checkEnumValue_found (v : string) :
  In v enuNames ->
  checkEnumValue v <> enu_BAD_DEFINED /\
  nth_error enuNames (Z.to_nat (Enu_to_Z (checkEnumValue v))) = Some v.
Proof.
  intros Hin. unfold checkEnumValue, checkName.
  destruct (checkName_from_found enuNames 0 v Hin) as [Hb Hn].
  change (Z.of_nat (List.length enuNames)) with 13 in Hb.
  destruct (Enu_of_Z_good (checkName_from 0 v enuNames)) as [Hg Hr]; [lia|].
  split; [exact Hg|]. rewrite Hr. rewrite Z.sub_0_r in Hn. exact Hn.
Qed.

Lemma checkEnumValue_missing (v : string) :
  ~ In v enuNames -> checkEnumValue v = enu_BAD_DEFINED.
Proof.
  intros Hnin. unfold checkEnumValue, checkName.
  rewrite (checkName_from_missing enuNames 0 v Hnin). reflexivity.
Qed.

(** ** Base types and value references *)

Lemma sameBaseType_true_iff (t1 t2 : Elm) :
  sameBaseType t1 t2 = true <->
  t1 = t2 \/
  (t1 = elm_Enumeration /\ t2 = elm_Integer) \/
  (t2 = elm_Enumeration /\ t1 = elm_Integer).
Proof.
  unfold sameBaseType.
  rewrite !orb_true_iff, !andb_true_iff, !Elm_eqb_eq. tauto.
Qed.

(** C7.  [sameBaseType t1 t2] holds exactly when the two kinds are equal or
    one is Enumeration and the other Integer; so it is reflexive and
    symmetric, and two different kinds that are not the pair
    Enumeration/Integer are told apart. *)
Theorem sameBaseType_spec :
  (forall t1 t2 : Elm,
      sameBaseType t1 t2 = true <->
      t1 = t2 \/
      (t1 = elm_Enumeration /\ t2 = elm_Integer) \/
      (t2 = elm_Enumeration /\ t1 = elm_Integer)) /\
  (forall t : Elm, sameBaseType t t = true) /\
  (forall t1 t2 : Elm, sameBaseType t1 t2 = sameBaseType t2 t1) /\
  (forall t1 t2 : Elm,
      t1 <> t2 ->
      ~ (t1 = elm_Enumeration /\ t2 = elm_Integer) ->
      ~ (t1 = elm_Integer /\ t2 = elm_Enumeration) ->
      sameBaseType t1 t2 = false).
Proof.
  split; [exact sameBaseType_true_iff|]. split; [|split].
  - intros t. apply sameBaseType_true_iff. left. reflexivity.
  - intros t1 t2.
    destruct (sameBaseType t1 t2) eqn:H12, (sameBaseType t2 t1) eqn:H21;
      try reflexivity.
    + apply sameBaseType_true_iff in H12.
      assert (H : sameBaseType t2 t1 = true)
        by (apply sameBaseType_true_iff; intuition congruence).
      congruence.
    + apply sameBaseType_true_iff in H21.
      assert (H : sameBaseType t1 t2 = true)
        by (apply sameBaseType_true_iff; intuition congruence).
      congruence.
  - intros t1 t2 Hne He Hi.
    destruct (sameBaseType t1 t2) eqn:H; [|reflexivity].
    apply sameBaseType_true_iff in H. exfalso. intuition congruence.
Qed.

Section AccessorProperties.
Context {libc : Libc}.

(** C8.  With the undefined value reference, 4294967295, [getVariable] and
    [getNonAliasVariable] return NULL for every model description and every
    kind, whatever the variable list holds. *)
Theorem getVariable_undefined_reference (md : Element) (ty : Elm) :
  fmiUndefinedValueReference = 4294967295 /\
  getVariable md 4294967295 ty = Ret None /\
  getNonAliasVariable md 4294967295 ty = Ret None.
Proof.
  split; [reflexivity|].
  unfold getVariable, getNonAliasVariable.
  destruct (modelVariables md) as [vars|]; split; reflexivity.
Qed.

(** C9.  On an attribute the node does not have, [getUInt] returns the
    all-ones value 4294967295, which is the undefined value reference, with
    status Missing, while [getDouble] and [getInt] return 0 with status
    Missing. *)
Theorem missing_attribute_values (element : Element) (a : Att) :
  getString element a = None ->
  getUInt element a = (4294967295, valueMissing) /\
  4294967295 = fmiUndefinedValueReference /\
  getDouble element a = (double_0, valueMissing) /\
  getInt element a = (0, valueMissing).
Proof.
  intros Hnone. unfold getUInt, getDouble, getInt. rewrite Hnone.
  repeat split.
Qed.

(** C3.  [getEnumValue] on an attribute the node does not have returns the
    default of the attribute with status Missing: flat for
    variableNamingConvention, continuous for variability, internal for
    causality, noAlias for alias, the BAD identity for any other attribute.
    On an attribute the node has, it returns the identity that the enum
    table gives the value, with status Defined, when the value is in the
    table (the identity is then the position of the value in the table),
    and the BAD identity with status Illegal when it is not.  For
    causality: nothing gives internal and Missing, the value output gives
    output and Defined, the value bogus gives BAD and Illegal. *)
Theorem getEnumValue_spec (element : Element) (a : Att) :
  (getString element a = None ->
   snd (getEnumValue element a) = valueMissing /\
   (a = att_variableNamingConvention -> fst (getEnumValue element a) = enu_flat) /\
   (a = att_variability -> fst (getEnumValue element a) = enu_continuous) /\
   (a = att_causality -> fst (getEnumValue element a) = enu_internal) /\
   (a = att_alias -> fst (getEnumValue element a) = enu_noAlias) /\
   (a <> att_variableNamingConvention -> a <> att_variability ->
    a <> att_causality -> a <> att_alias ->
    fst (getEnumValue element a) = enu_BAD_DEFINED)) /\
  (forall value : string,
      getString element a = Some value ->
      (In value enuNames ->
       exists id : Enu,
         getEnumValue element a = (id, valueDefined) /\
         id <> enu_BAD_DEFINED /\
         nth_error enuNames (Z.to_nat (Enu_to_Z id)) = Some value) /\
      (~ In value enuNames ->
       getEnumValue element a = (enu_BAD_DEFINED, valueIllegal))) /\
  (getString element att_causality = None ->
   getCausality element = enu_internal /\
   getEnumValue element att_causality = (enu_internal, valueMissing)) /\
  (getString element att_causality = Some "output" ->
   getCausality element = enu_output /\
   getEnumValue element att_causality = (enu_output, valueDefined)) /\
  (getString element att_causality = Some "bogus" ->
   getCausality element = enu_BAD_DEFINED /\
   getEnumValue element att_causality = (enu_BAD_DEFINED, valueIllegal)).
Proof.
  split; [|split; [|split; [|split]]].
  - intros Hnone. unfold getEnumValue. rewrite Hnone. cbn [fst snd].
    split; [reflexivity|].
    split; [intros ->; reflexivity|]. split; [intros ->; reflexivity|].
    split; [intros ->; reflexivity|]. split; [intros ->; reflexivity|].
    intros H1 H2 H3 H4. destruct a; congruence.
  - intros value Hsome. unfold getEnumValue. rewrite Hsome. cbv zeta. split.
    + intros Hin. destruct (checkEnumValue_found value Hin) as [Hg Hn].
      exists (checkEnumValue value). split; [|split; assumption].
      apply Enu_eqb_neq in Hg. rewrite Hg. reflexivity.
    + intros Hnin. rewrite (checkEnumValue_missing value Hnin). reflexivity.
  - intros Hnone. unfold getCausality, getEnumValue. rewrite Hnone.
    split; reflexivity.
  - intros Hsome. unfold getCausality, getEnumValue. rewrite Hsome.
    split; reflexivity.
  - intros Hsome. unfold getCausality, getEnumValue. rewrite Hsome.
    split; reflexivity.
Qed.

(** C10.  [getNominal] returns the nominal value only when one was found
    and scanned as a double (status Defined); it returns the default 1.0
    when no value was found at the variable and its declared type (or no
    variable was found), and also when the value found does not scan as a
    double (status Illegal). *)
Theorem getNominal_spec (md : Element) (vr : Z) :
  getNominal md vr =
    match getVariableAttributeString md vr elm_Real att_nominal with
    | Abort => Abort
    | Ret None => Ret double_1
    | Ret (Some value) =>
        match sscanf_lf value with
        | Some d => Ret d
        | None => Ret double_1
        end
    end /\
  (forall value : string,
      getVariableAttributeString md vr elm_Real att_nominal = Ret (Some value) ->
      (sscanf_lf value = None <->
       exists d, getVariableAttributeDouble md vr elm_Real att_nominal
                 = Ret (d, valueIllegal))) /\
  (forall d : double,
      getVariableAttributeDouble md vr elm_Real att_nominal = Ret (d, valueDefined) ->
      getNominal md vr = Ret d) /\
  (forall (d : double) (vs : ValueStatus),
      getVariableAttributeDouble md vr elm_Real att_nominal = Ret (d, vs) ->
      vs <> valueDefined ->
      getNominal md vr = Ret double_1).
Proof.
  unfold getNominal, getVariableAttributeDouble.
  destruct (getVariableAttributeString md vr elm_Real att_nominal) as [[value|]|];
    cbn [bind].
  - destruct (sscanf_lf value) as [d|] eqn:Hscan; cbn [bind fst snd].
    + split; [reflexivity|]. split; [|split].
      * intros v Hv. injection Hv as <-. rewrite Hscan. split; [discriminate|].
        intros [d' Hd']. discriminate.
      * intros d' Hd'. congruence.
      * intros d' vs Hd' Hvs. congruence.
    + split; [reflexivity|]. split; [|split].
      * intros v Hv. injection Hv as <-. rewrite Hscan. split; [|reflexivity].
        intros _. exists double_0. reflexivity.
      * intros d' Hd'. discriminate.
      * intros d' vs Hd' Hvs. reflexivity.
  - split; [reflexivity|]. split; [|split].
    + intros v Hv. discriminate.
    + intros d' Hd'. discriminate.
    + intros d' vs Hd' Hvs. reflexivity.
  - split; [reflexivity|]. split; [|split]; intros; discriminate.
Qed.

End AccessorProperties.

(** ** Declared types: lookup, fallback and validation *)








Section FallbackProperties.
Context {libc : Libc}.

(** C6, as the code has it.  [getString2] reads the attribute on the given
    node and, when it is absent there, on the type-spec of the type that
    the node's own declaredType names.  [getVariableAttributeString] does
    the same from the type-spec of the variable that [getVariable] finds,
    and returns NULL when there is no such variable.  [getDescription]
    reads the description on the variable and, when it is absent there,
    resolves the declaredType of the variable's type-spec and reads the
    description on the type found, not on the type-spec of that type.  In
    each, absence at both levels gives NULL; in particular a variable
    without a description gets the description of its declared type. *)
Theorem fallback_lookups (md : Element) :
  (forall (tp : Element) (a : Att),
      getString2 md tp a = spec_fallback_lookup md tp a /\
      (forall value, getString tp a = Some value ->
                     getString2 md tp a = Ret (Some value)) /\
      (getString tp a = None ->
       (forall t ts,
           getDeclaredType md (getString tp att_declaredType) = Ret (Some t) ->
           typeSpec t = Some ts ->
           getString2 md tp a = Ret (getString ts a)) /\
       (getDeclaredType md (getString tp att_declaredType) = Ret None ->
        getString2 md tp a = Ret None))) /\
  (forall (vr : Z) (ty : Elm) (a : Att),
      (getVariable md vr ty = Ret None ->
       getVariableAttributeString md vr ty a = Ret None) /\
      (forall sv ts,
          getVariable md vr ty = Ret (Some sv) ->
          typeSpec sv = Some ts ->
          getVariableAttributeString md vr ty a = spec_fallback_lookup md ts a)) /\
  (forall sv : Element,
      (forall value, getString sv att_description = Some value ->
                     getDescription md sv = Ret (Some value)) /\
      (forall ts,
          getString sv att_description = None ->
          typeSpec sv = Some ts ->
          (forall t,
              getDeclaredType md (getString ts att_declaredType) = Ret (Some t) ->
              getDescription md sv = Ret (getString t att_description)) /\
          (getDeclaredType md (getString ts att_declaredType) = Ret None ->
           getDescription md sv = Ret None))).
Proof.
  split; [|split].
  - intros tp a. split; [reflexivity|]. unfold getString2. split.
    + intros value ->. reflexivity.
    + intros ->. split.
      * intros t ts -> Hts. cbn [bind]. rewrite Hts. reflexivity.
      * intros ->. reflexivity.
  - intros vr ty a. unfold getVariableAttributeString. split.
    + intros ->. reflexivity.
    + intros sv ts -> Hts. cbn [bind]. rewrite Hts. cbn [getString_at bind].
      unfold spec_fallback_lookup. destruct (getString ts a); reflexivity.
  - intros sv. unfold getDescription. split.
    + intros value ->. reflexivity.
    + intros ts -> Hts. rewrite Hts. cbn [getString_at bind]. split.
      * intros t ->. reflexivity.
      * intros ->. reflexivity.
Qed.

End FallbackProperties.

(** ** Text of a Name element *)

(** [handleData] on one chunk.  While text is recorded, a chunk that is one
    line feed starts a new buffer as the empty text; any other chunk starts
    the buffer with its characters; and once the buffer is started every
    chunk, a single line feed too, is appended as it is.  While text is
    skipped the chunk changes nothing. *)
Theorem handleData_spec (s : string) (st : PState) :
  (skipData st = true -> handleData s st = st) /\
  (skipData st = false ->
   stack (handleData s st) = stack st /\
   skipData (handleData s st) = false /\
   stopped (handleData s st) = stopped st /\
   (data st = None -> s = line_feed ->
    data (handleData s st) = Some EmptyString) /\
   (data st = None -> s <> line_feed -> no_NUL s ->
    data (handleData s st) = Some s) /\
   (forall d, data st = Some d -> no_NUL s ->
              data (handleData s st) = Some (d ++ s)%string) /\
   (forall d, data st = Some d ->
              data (handleData line_feed st) = Some (d ++ line_feed)%string)).
Proof.
  unfold handleData, no_NUL. split.
  - intros ->. reflexivity.
  - intros Hskip. rewrite Hskip. cbn [stack skipData stopped data].
    repeat split; try assumption.
    + intros -> ->. reflexivity.
    + intros -> Hne Hnul. destruct (String.eqb_spec s line_feed) as [Heq|_];
        [contradiction|]. rewrite Hnul. reflexivity.
    + intros d -> Hnul. rewrite Hnul. reflexivity.
    + intros d ->. reflexivity.
Qed.

(** ** Closing a list element *)

(** The loop of [popList] on a stack that holds a run of nodes of kind [e]
    above a node of another kind. *)
Lemma popList_while_run (e : Elm) (sentinel : Element) (rest : list Element) :
  type sentinel <> e ->
  forall (popped : list Element) (elm : Element) (lv dd : list Element) (n : Z),
    elm :: lv = popped ++ sentinel :: rest ->
    Forall (fun x => type x = e) popped ->
    popList_while e elm lv (elm :: dd) n =
    Ret (sentinel, {| live := rest; dead := sentinel :: rev popped ++ dd |},
         n + Z.of_nat (List.length popped)).
Proof.
  intros Hs. induction popped as [|x popped IH]; intros elm lv dd n Heq Hall.
  - cbn [app] in Heq. injection Heq as -> ->.
    apply Elm_eqb_neq in Hs.
    destruct rest; cbn [popList_while]; rewrite Hs;
      cbn [rev app List.length]; rewrite Z.add_0_r; reflexivity.
  - cbn [app] in Heq. injection Heq as -> ->.
    inversion Hall as [|? ? Hx Hrun]; subst.
    destruct popped as [|y popped].
    + cbn [app popList_while]. rewrite Elm_eqb_refl.
      rewrite (IH sentinel rest (x :: dd) (n + 1) eq_refl Hrun).
      cbn [rev app List.length]. do 2 f_equal. lia.
    + cbn [app popList_while]. rewrite Elm_eqb_refl.
      rewrite (IH y (popped ++ sentinel :: rest) (x :: dd) (n + 1) eq_refl Hrun).
      cbn [rev List.length]. rewrite <- !app_assoc. cbn [app].
      do 2 f_equal. lia.
Qed.

(** [popList] on such a stack: the run is popped, the node under it is back
    on top, and it has the run as its list, oldest first, when it is of the
    list shape; when not, it is as it was and the run is in no list. *)
Lemma popList_run (e : Elm) (st : PState) (popped : list Element)
  (sentinel : Element) (rest : list Element) :
  live (stack st) = popped ++ sentinel :: rest ->
  Forall (fun x => type x = e) popped ->
  type sentinel <> e ->
  exists dd,
    popList e st =
    Ret (with_stack st
           {| live := (if is_astListElement (getAstNodeType (type sentinel))
                       then set_list (rev popped) sentinel else sentinel) :: rest;
              dead := dd |}).
Proof.
  intros Hlive Hall Hs. unfold popList, stackPop.
  destruct (live (stack st)) as [|elm0 lv] eqn:Hl.
  - destruct popped; discriminate.
  - cbn [bind live dead].
    rewrite (popList_while_run e sentinel rest Hs popped elm0 lv (dead (stack st)) 0
               Hlive Hall).
    cbn [bind]. unfold stackPush, stackLastPopedAsArray0, stackUpdateTop.
    cbn [live dead tl]. rewrite Z.add_0_l, Nat2Z.id.
    rewrite <- length_rev, firstn_app, Nat.sub_diag, firstn_all.
    cbn [firstn]. rewrite app_nil_r.
    exists (rev popped ++ dead (stack st)).
    destruct (is_astListElement (getAstNodeType (type sentinel))); reflexivity.
Qed.

(** Where [popList] returns, the stack held such a run. *)
Lemma popList_while_inv (e : Elm) :
  forall (lv : list Element) (elm : Element) (dd : list Element) (n : Z) r,
    popList_while e elm lv dd n = Ret r ->
    exists popped sentinel rest,
      elm :: lv = popped ++ sentinel :: rest /\
      Forall (fun x => type x = e) popped /\ type sentinel <> e.
Proof.
  induction lv as [|x lv IH]; intros elm dd n r H; cbn [popList_while] in H.
  - destruct (Elm_eqb (type elm) e) eqn:He; [discriminate|].
    exists [], elm, []. split; [reflexivity|]. split; [constructor|].
    apply Elm_eqb_neq. exact He.
  - destruct (Elm_eqb (type elm) e) eqn:He.
    + destruct (IH x (x :: dd) (n + 1) r H) as [popped [s [rest [Heq [Hall Hs]]]]].
      exists (elm :: popped), s, rest. cbn [app]. rewrite Heq.
      split; [reflexivity|]. split; [|exact Hs].
      constructor; [apply Elm_eqb_eq; exact He | exact Hall].
    + exists [], elm, (x :: lv). split; [reflexivity|]. split; [constructor|].
      apply Elm_eqb_neq. exact He.
Qed.

Lemma popList_inv (e : Elm) (st st' : PState) :
  popList e st = Ret st' ->
  exists popped sentinel rest,
    live (stack st) = popped ++ sentinel :: rest /\
    Forall (fun x => type x = e) popped /\ type sentinel <> e.
Proof.
  unfold popList, stackPop. intros H.
  destruct (live (stack st)) as [|elm0 lv]; [discriminate|].
  cbn [bind live dead] in H.
  destruct (popList_while e elm0 lv (elm0 :: dead (stack st)) 0) as [r|] eqn:Hw;
    [|discriminate].
  exact (popList_while_inv e lv elm0 _ 0 r Hw).
Qed.

Lemma checkElement_name_of (el : Elm) :
  el <> elm_BAD_DEFINED -> checkElement (name_of el) = el.
Proof. destruct el; intros H; [congruence | reflexivity ..]. Qed.

Lemma endElement_list (el child : Elm) (st : PState) :
  child_kind el = Some child ->
  endElement (name_of el) st = end_popList child el st.
Proof.
  intros Hk. unfold endElement, checkElement_cb.
  rewrite checkElement_name_of by (destruct el; discriminate).
  destruct el; try discriminate; injection Hk as <-; reflexivity.
Qed.

(** The list-producing elements are the nine of the specification, under
    their names in the element table. *)
Example list_producing_elements :
  map (fun el => (name_of el, child_kind el))
    [ elm_UnitDefinitions; elm_TypeDefinitions; elm_VendorAnnotations; elm_Tool;
      elm_EnumerationType; elm_BaseUnit; elm_DirectDependency; elm_Model;
      elm_ModelVariables ]
  = [ ("UnitDefinitions", Some elm_BaseUnit); ("TypeDefinitions", Some elm_Type);
      ("VendorAnnotations", Some elm_Tool); ("Tool", Some elm_Annotation);
      ("EnumerationType", Some elm_Item);
      ("BaseUnit", Some elm_DisplayUnitDefinition);
      ("DirectDependency", Some elm_Name); ("Model", Some elm_File);
      ("ModelVariables", Some elm_ScalarVariable) ].
Proof. reflexivity. Qed.

(** C1, as the code has it.  On the close event of a list-producing element,
    with the children of its child kind on top of the stack (last child on
    top) above a node of another kind, the machine pops the children and
    pushes that node back; when the node is of the list shape it gets the
    children, in the order of the document, as its list; when it is of
    another shape nothing is attached, the children are in no list, and the
    parse is stopped.  The closing check stops the parse as well when the
    node is not of the kind of the closed element. *)
Theorem close_list_element (el child : Elm) (st : PState)
  (children : list Element) (node : Element) (rest : list Element) :
  child_kind el = Some child ->
  live (stack st) = rev children ++ node :: rest ->
  Forall (fun x => type x = child) children ->
  type node <> child ->
  exists st',
    endElement (name_of el) st = Ret st' /\
    live (stack st') =
      (if is_astListElement (getAstNodeType (type node))
       then set_list children node else node) :: rest /\
    data st' = data st /\ skipData st' = skipData st /\
    stopped st' = (stopped st || negb (Elm_eqb (type node) el)) /\
    (forall t a l,
        node = mkListElement t a l -> getAstNodeType t = astListElement ->
        live (stack st') = mkListElement t a (Some children) :: rest) /\
    (getAstNodeType (type node) <> astListElement ->
     live (stack st') = node :: rest /\ stopped st' = true).
Proof.
  intros Hk Hlive Hall Hnode.
  rewrite (endElement_list el child st Hk). unfold end_popList.
  destruct (popList_run child st (rev children) node rest Hlive
              (Forall_rev Hall) Hnode) as [dd Hpop].
  rewrite Hpop, rev_involutive. cbn [bind]. unfold endCheck, checkPeek.
  cbn [with_stack stack live].
  set (top := if is_astListElement (getAstNodeType (type node))
              then set_list children node else node).
  assert (Htop : type top = type node).
  { unfold top. destruct (is_astListElement (getAstNodeType (type node)));
      [destruct node|]; reflexivity. }
  assert (Hel : Elm_eqb el elm_BAD_DEFINED = false)
    by (destruct el; try discriminate; reflexivity).
  rewrite Hel. unfold checkElementType. rewrite Htop.
  eexists. split; [reflexivity|].
  assert (Hattach : forall t a l,
             node = mkListElement t a l -> getAstNodeType t = astListElement ->
             top = mkListElement t a (Some children)).
  { intros t a l -> Ht. unfold top. cbn [type]. rewrite Ht. reflexivity. }
  assert (Hkeep : getAstNodeType (type node) <> astListElement -> top = node).
  { intros Hshape. unfold top.
    destruct (getAstNodeType (type node)); cbn [is_astListElement];
      congruence. }
  assert (Hlist : getAstNodeType el = astListElement)
    by (destruct el; try discriminate; reflexivity).
  destruct (Elm_eqb (type node) el) eqn:Hne; cbn [snd stack live data skipData
    stopped XML_StopParser with_stack negb].
  - apply Elm_eqb_eq in Hne. rewrite orb_false_r.
    split; [reflexivity|]. split; [reflexivity|]. split; [reflexivity|].
    split; [reflexivity|]. split.
    + intros t a l Hn Ht. rewrite (Hattach t a l Hn Ht). reflexivity.
    + intros Hshape. exfalso. apply Hshape. rewrite Hne. exact Hlist.
  - rewrite orb_true_r.
    split; [reflexivity|]. split; [reflexivity|]. split; [reflexivity|].
    split; [reflexivity|]. split.
    + intros t a l Hn Ht. rewrite (Hattach t a l Hn Ht). reflexivity.
    + intros Hshape. rewrite (Hkeep Hshape). split; reflexivity.
Qed.

(** ** The machine above a part of the stack it does not reach *)

Lemma checkPeek_true (e : Elm) (s s' : PState) :
  checkPeek e s = (true, s') -> s' = s /\ live (stack s) <> [].
Proof.
  unfold checkPeek, checkElementType. destruct (live (stack s)) as [|top l].
  - discriminate.
  - destruct (Elm_eqb e elm_BAD_DEFINED), (Elm_eqb (type top) e);
      intros H; inversion H; split; (reflexivity || discriminate).
Qed.

Lemma checkPeek_false (e : Elm) (s s' : PState) :
  checkPeek e s = (false, s') -> stopped s' = true.
Proof.
  unfold checkPeek, checkElementType. destruct (live (stack s)) as [|top l].
  - intros H. inversion H. reflexivity.
  - destruct (Elm_eqb e elm_BAD_DEFINED), (Elm_eqb (type top) e);
      intros H; inversion H; reflexivity.
Qed.

Lemma checkPeek_frame (B : list Element) (e : Elm) (s1 s2 s1' : PState) :
  frame_rel B s1 s2 -> checkPeek e s1 = (true, s1') -> checkPeek e s2 = (true, s2).
Proof.
  intros [Hl _]. unfold checkPeek, checkElementType. rewrite Hl.
  destruct (live (stack s1)) as [|top l]; [discriminate|]. cbn [app].
  destruct (Elm_eqb e elm_BAD_DEFINED), (Elm_eqb (type top) e);
    intros H; inversion H; reflexivity.
Qed.

Lemma checkPop_some (e : Elm) (s s' : PState) (x : Element) :
  checkPop e s = (Some x, s') ->
  exists l,
    live (stack s) = x :: l /\
    s' = with_stack s {| live := l; dead := x :: dead (stack s) |}.
Proof.
  unfold checkPop. destruct (checkPeek e s) as [[|] s0] eqn:Hp; [|discriminate].
  destruct (checkPeek_true e s s0 Hp) as [-> _].
  destruct (live (stack s)) as [|y l]; [discriminate|].
  intros H. inversion H. subst. exists l. split; reflexivity.
Qed.

Lemma checkPop_none (e : Elm) (s s' : PState) :
  checkPop e s = (None, s') -> stopped s' = true.
Proof.
  unfold checkPop. destruct (checkPeek e s) as [[|] s0] eqn:Hp.
  - destruct (checkPeek_true e s s0 Hp) as [-> Hne].
    destruct (live (stack s)) as [|y l]; [congruence|discriminate].
  - intros H. inversion H. subst. exact (checkPeek_false e s s' Hp).
Qed.

Lemma checkPop_stopped (e : Elm) (s : PState) :
  stopped s = true -> stopped (snd (checkPop e s)) = true.
Proof.
  intros Hs. destruct (checkPop e s) as [[x|] s'] eqn:Hp; cbn [snd].
  - destruct (checkPop_some e s s' x Hp) as [l [_ ->]]. exact Hs.
  - exact (checkPop_none e s s' Hp).
Qed.

Lemma checkPop_frame (B : list Element) (e : Elm) (s1 s2 s1' : PState) (x : Element) :
  frame_rel B s1 s2 -> checkPop e s1 = (Some x, s1') ->
  exists s2', checkPop e s2 = (Some x, s2') /\ frame_rel B s1' s2'.
Proof.
  intros HR Hp. pose proof HR as [Hl [Hd [Hk Hs]]].
  destruct (checkPop_some e s1 s1' x Hp) as [l [Hl1 ->]].
  unfold checkPop in *.
  destruct (checkPeek e s1) as [[|] s0] eqn:Hpk; [|discriminate].
  rewrite (checkPeek_frame B e s1 s2 s0 HR Hpk).
  rewrite Hl, Hl1. cbn [app]. eexists. split; [reflexivity|].
  unfold frame_rel. cbn [with_stack stack live data skipData stopped]. tauto.
Qed.

Lemma frame_rel_push (B : list Element) (s1 s2 : PState) (x : Element) :
  frame_rel B s1 s2 ->
  frame_rel B (with_stack s1 (stackPush (stack s1) x))
              (with_stack s2 (stackPush (stack s2) x)).
Proof.
  intros [Hl [Hd [Hk Hs]]]. unfold frame_rel, stackPush.
  cbn [with_stack stack live data skipData stopped]. rewrite Hl. tauto.
Qed.

Lemma frame_rel_update (B : list Element) (s1 s2 : PState) (f : Element -> Element) :
  frame_rel B s1 s2 -> live (stack s1) <> [] ->
  frame_rel B (with_stack s1 (stackUpdateTop f (stack s1)))
              (with_stack s2 (stackUpdateTop f (stack s2))).
Proof.
  intros [Hl [Hd [Hk Hs]]] Hne. unfold frame_rel, stackUpdateTop.
  rewrite Hl. destruct (live (stack s1)) as [|x l]; [congruence|].
  cbn [app with_stack stack live data skipData stopped]. tauto.
Qed.

Lemma frame_rel_stop (B : list Element) (s1 s2 : PState) :
  frame_rel B s1 s2 -> stopped s1 = stopped s2.
Proof. intros [_ [_ [_ Hs]]]. symmetry. exact Hs. Qed.

Lemma framed_endCheck (el : Elm) : framed (endCheck el).
Proof.
  intros B s1 s2 s1' HR H Hns. unfold endCheck in *.
  destruct (checkPeek el s1) as [[|] s0] eqn:Hp; cbn [snd] in H;
    injection H as <-.
  - destruct (checkPeek_true el s1 s0 Hp) as [-> _].
    rewrite (checkPeek_frame B el s1 s2 s1 HR Hp). cbn [snd].
    exists s2. split; [reflexivity | exact HR].
  - rewrite (checkPeek_false el s1 s0 Hp) in Hns. discriminate.
Qed.

Lemma framed_popList (e : Elm) : framed (popList e).
Proof.
  intros B s1 s2 s1' HR H _. pose proof HR as [Hl [Hd [Hk Hs]]].
  destruct (popList_inv e s1 s1' H) as [popped [node [rest [Hl1 [Hall Hn]]]]].
  destruct (popList_run e s1 popped node rest Hl1 Hall Hn) as [d1 H1].
  assert (Hl2 : live (stack s2) = popped ++ node :: (rest ++ B))
    by (rewrite Hl, Hl1, <- app_assoc; reflexivity).
  destruct (popList_run e s2 popped node (rest ++ B) Hl2 Hall Hn) as [d2 H2].
  rewrite H1 in H. injection H as <-. rewrite H2. eexists. split; [reflexivity|].
  unfold frame_rel. cbn [with_stack stack live data skipData stopped]. tauto.
Qed.

Lemma framed_take_if (cond : Element -> bool) (child : Element)
  (k : option Element -> Element -> PState -> outcome PState) :
  (forall taken c, framed (k taken c)) ->
  framed (fun st => take_if cond child st k).
Proof.
  intros Hk B s1 s2 s1' HR H Hns. unfold take_if in *.
  destruct (cond child).
  - destruct (checkPop elm_BAD_DEFINED s1) as [[c|] s0] eqn:Hp.
    + destruct (checkPop_frame B _ s1 s2 s0 c HR Hp) as [s2a [Hp2 HR2]].
      rewrite Hp2. exact (Hk _ _ B s0 s2a s1' HR2 H Hns).
    + injection H as <-. rewrite (checkPop_none _ s1 s0 Hp) in Hns. discriminate.
  - exact (Hk _ _ B s1 s2 s1' HR H Hns).
Qed.

(** A pop in the run above the part: it gives the same node in both states,
    or the first state is stopped. *)
Ltac frame_pop :=
  match goal with
  | HR : frame_rel ?B ?s1 ?s2, H : context [checkPop ?e ?s1] |- _ =>
      let c := fresh "c" in
      let sa := fresh "sa" in
      let Hp := fresh "Hp" in
      destruct (checkPop e s1) as [[c|] sa] eqn:Hp;
      [ let sb := fresh "sb" in
        let Hq := fresh "Hq" in
        let HR' := fresh "HR" in
        destruct (checkPop_frame B e s1 s2 sa c HR Hp) as [sb [Hq HR']];
        rewrite Hq; clear HR Hq;
        cbv beta iota in H; cbv beta iota
      | let Hst := fresh "Hst" in
        pose proof (checkPop_none e s1 sa Hp) as Hst;
        clear HR; cbv beta iota in H ]
  end.

(** A pop in a stopped state leaves it stopped. *)
Ltac stopped_pop :=
  match goal with
  | Hst : stopped ?s = true, H : context [checkPop ?e ?s] |- _ =>
      let c := fresh "c" in
      let sa := fresh "sa" in
      let Hp := fresh "Hp" in
      let Hst' := fresh "Hst" in
      pose proof (checkPop_stopped e s Hst) as Hst';
      destruct (checkPop e s) as [c sa] eqn:Hp;
      cbn [snd] in Hst'; clear Hst; cbv beta iota in H
  end.

(** The run returned a stopped state, against the assumption. *)
Ltac stopped_end :=
  match goal with
  | H : Ret ?s = Ret ?s', Hns : stopped ?s' = false |- _ =>
      injection H as <-; congruence
  end.

(** The closing check after a push, or after a write to the top. *)
Ltac frame_push :=
  match goal with
  | HR : frame_rel ?B _ _, H : endCheck _ _ = Ret ?s', Hns : stopped ?s' = false |- _ =>
      exact (framed_endCheck _ B _ _ s' (frame_rel_push B _ _ _ HR) H Hns)
  end.

Ltac frame_update Hne :=
  match goal with
  | HR : frame_rel ?B _ _, H : endCheck _ _ = Ret ?s', Hns : stopped ?s' = false |- _ =>
      exact (framed_endCheck _ B _ _ s' (frame_rel_update B _ _ _ HR Hne) H Hns)
  end.

Lemma framed_end_Implementation : framed end_Implementation.
Proof.
  intros B s1 s2 s1' HR H Hns. unfold end_Implementation in *.
  frame_pop.
  - frame_pop.
    + frame_push.
    + stopped_end.
  - stopped_pop. repeat match goal with c : option Element |- _ => destruct c end;
      stopped_end.
Qed.

Lemma framed_end_CoSimulation_StandAlone : framed end_CoSimulation_StandAlone.
Proof.
  intros B s1 s2 s1' HR H Hns. unfold end_CoSimulation_StandAlone in *.
  frame_pop.
  - frame_pop.
    + frame_push.
    + stopped_end.
  - stopped_pop. repeat match goal with c : option Element |- _ => destruct c end;
      stopped_end.
Qed.

Lemma framed_end_CoSimulation_Tool : framed end_CoSimulation_Tool.
Proof.
  intros B s1 s2 s1' HR H Hns. unfold end_CoSimulation_Tool in *.
  frame_pop.
  - frame_pop.
    + frame_pop.
      * frame_push.
      * stopped_end.
    + stopped_pop. repeat match goal with c : option Element |- _ => destruct c end;
        stopped_end.
  - stopped_pop. stopped_pop.
    repeat match goal with c : option Element |- _ => destruct c end; stopped_end.
Qed.

Lemma framed_end_Type : framed end_Type.
Proof.
  intros B s1 s2 s1' HR H Hns. unfold end_Type in *.
  frame_pop; [|stopped_end].
  destruct (checkPeek elm_Type sa) as [[|] s0] eqn:Hpk.
  - destruct (checkPeek_true _ sa s0 Hpk) as [-> Hne].
    match goal with HR : frame_rel B sa ?sb |- _ =>
      rewrite (checkPeek_frame B _ sa sb sa HR Hpk) end.
    destruct (is_typeSpec_of_Type (type c)).
    + frame_update Hne.
    + injection H as <-. discriminate.
  - injection H as <-. rewrite (checkPeek_false _ sa s0 Hpk) in Hns. discriminate.
Qed.

Lemma framed_end_ScalarVariable_with (deps : option (list Element)) (child : Element) :
  framed (end_ScalarVariable_with deps child).
Proof.
  intros B s1 s2 s1' HR H Hns. unfold end_ScalarVariable_with in *.
  destruct (checkPeek elm_ScalarVariable s1) as [[|] s0] eqn:Hpk.
  - destruct (checkPeek_true _ s1 s0 Hpk) as [-> Hne].
    rewrite (checkPeek_frame B _ s1 s2 s1 HR Hpk).
    destruct (is_typeSpec_of_variable (type child)).
    + frame_update Hne.
    + injection H as <-. discriminate.
  - injection H as <-. rewrite (checkPeek_false _ s1 s0 Hpk) in Hns. discriminate.
Qed.

Lemma framed_end_ScalarVariable : framed end_ScalarVariable.
Proof.
  intros B s1 s2 s1' HR H Hns. unfold end_ScalarVariable in *.
  frame_pop; [|stopped_end].
  destruct (Elm_eqb (type c) elm_DirectDependency).
  - frame_pop; [|stopped_end].
    match goal with HR : frame_rel B _ _ |- _ =>
      exact (framed_end_ScalarVariable_with _ _ B _ _ s1' HR H Hns) end.
  - match goal with HR : frame_rel B _ _ |- _ =>
      exact (framed_end_ScalarVariable_with _ _ B _ _ s1' HR H Hns) end.
Qed.

Lemma framed_end_Name : framed end_Name.
Proof.
  intros B s1 s2 s1' HR H Hns. unfold end_Name in *.
  frame_pop; [|stopped_end].
  match goal with HR : frame_rel B _ _ |- _ => destruct HR as [Hl [Hd [Hk Hs]]] end.
  rewrite Hd, Hs.
  refine (framed_endCheck _ B _ _ s1' _ H Hns).
  unfold frame_rel, stackPush. cbn [stack live data skipData stopped].
  rewrite Hl. tauto.
Qed.

Lemma framed_end_popList (child el : Elm) : framed (end_popList child el).
Proof.
  intros B s1 s2 s1' HR H Hns. unfold end_popList in *.
  destruct (popList child s1) as [sa|] eqn:Hp; [|discriminate].
  cbn [bind] in H.
  destruct (framed_popList child B s1 s2 sa HR Hp) as [sb [Hq HR']].
  - destruct (stopped sa) eqn:Hsa; [|reflexivity].
    unfold endCheck in H. injection H as <-.
    destruct (checkPeek el sa) as [[|] s0] eqn:Hpk; cbn [snd] in Hns.
    + destruct (checkPeek_true _ sa s0 Hpk) as [-> _]. congruence.
    + rewrite (checkPeek_false _ sa s0 Hpk) in Hns. discriminate.
  - rewrite Hq. cbn [bind]. exact (framed_endCheck el B sa sb s1' HR' H Hns).
Qed.

Lemma framed_end_fmiModelDescription : framed end_fmiModelDescription.
Proof.
  intros B s1 s2 s1' HR H Hns. unfold end_fmiModelDescription in *.
  frame_pop; [|discriminate].
  clear Hp.
  match goal with HR : frame_rel B ?sa ?sb |- _ => revert B sa sb s1' HR H Hns end.
  change (framed (fun st =>
    take_if is_CoSimulation c st (fun cs child st =>
    take_if (fun c => Elm_eqb (type c) elm_ModelVariables) child st (fun mv child st =>
    take_if (fun c => Elm_eqb (type c) elm_VendorAnnotations) child st (fun va child st =>
    take_if (fun c => Elm_eqb (type c) elm_DefaultExperiment) child st (fun de child st =>
    take_if (fun c => Elm_eqb (type c) elm_TypeDefinitions) child st (fun td child st =>
    take_if (fun c => Elm_eqb (type c) elm_UnitDefinitions) child st (fun ud child st =>
    take_if (fun c => match cs with None => is_CoSimulation c | Some _ => false end)
      child st (fun cs2 child st =>
    let cs := match cs with Some _ => cs | None => cs2 end in
    let '(ok, st) := checkElementType child elm_fmiModelDescription st in
    if ok then
      let md := set_description (list_of mv) (list_of va) de (list_of td) (list_of ud) cs child in
      endCheck elm_fmiModelDescription (with_stack st (stackPush (stack st) md))
    else Ret st))))))))).
  clear s1 s2.
  do 7 (apply framed_take_if; intros ? ?).
  intros B s1 s2 s1' HR H Hns. cbv zeta in *. unfold checkElementType in *.
  match goal with
  | |- context [Elm_eqb (type ?x) elm_fmiModelDescription] =>
      destruct (Elm_eqb (type x) elm_fmiModelDescription)
  end.
  - frame_push.
  - injection H as <-. discriminate.
Qed.

Lemma framed_endElement (elm : string) : framed (endElement elm).
Proof.
  intros B s1 s2 s1' HR H Hns. unfold endElement, checkElement_cb in *.
  destruct (Elm_eqb (checkElement elm) elm_BAD_DEFINED) eqn:Hbad.
  - apply Elm_eqb_eq in Hbad. rewrite Hbad in *. injection H as <-. discriminate.
  - destruct (checkElement elm); try discriminate;
      first
        [ exact (framed_end_fmiModelDescription B s1 s2 s1' HR H Hns)
        | exact (framed_end_Implementation B s1 s2 s1' HR H Hns)
        | exact (framed_end_CoSimulation_StandAlone B s1 s2 s1' HR H Hns)
        | exact (framed_end_CoSimulation_Tool B s1 s2 s1' HR H Hns)
        | exact (framed_end_Type B s1 s2 s1' HR H Hns)
        | exact (framed_end_ScalarVariable B s1 s2 s1' HR H Hns)
        | exact (framed_end_Name B s1 s2 s1' HR H Hns)
        | exact (framed_end_popList _ _ B s1 s2 s1' HR H Hns)
        | exact (framed_endCheck _ B s1 s2 s1' HR H Hns) ].
Qed.

Lemma framed_startElement (elm : string) (attr : list (string * string)) :
  framed (fun st => Ret (startElement elm attr st)).
Proof.
  intros B s1 s2 s1' HR H Hns. injection H as <-.
  eexists. split; [reflexivity|].
  destruct HR as [Hl [Hd [Hk Hs]]].
  unfold startElement, checkElement_cb in *.
  destruct (Elm_eqb (checkElement elm) elm_BAD_DEFINED); [discriminate|].
  destruct (newElement (checkElement elm) (getAstNodeType (checkElement elm)) attr);
    [|discriminate].
  unfold frame_rel, stackPush. cbn [with_stack stack live data skipData stopped].
  rewrite Hl. tauto.
Qed.

Lemma framed_handleData (chunk : string) :
  framed (fun st => Ret (handleData chunk st)).
Proof.
  intros B s1 s2 s1' HR H Hns. injection H as <-.
  eexists. split; [reflexivity|].
  destruct HR as [Hl [Hd [Hk Hs]]]. unfold handleData.
  rewrite Hk. destruct (skipData s1) eqn:Hskip; unfold frame_rel.
  - rewrite Hskip. tauto.
  - cbn [stack live data skipData stopped]. rewrite Hd. tauto.
Qed.

(** [startElement] pushes or stops the same way above any part of the stack. *)
Lemma frame_rel_startElement (elm : string) (attr : list (string * string))
  (B : list Element) (s1 s2 : PState) :
  frame_rel B s1 s2 ->
  frame_rel B (startElement elm attr s1) (startElement elm attr s2).
Proof.
  intros [Hl [Hd [Hk Hs]]]. unfold startElement, checkElement_cb.
  destruct (Elm_eqb (checkElement elm) elm_BAD_DEFINED).
  - unfold frame_rel, XML_StopParser. cbn [stack live data skipData stopped]. tauto.
  - destruct (newElement (checkElement elm) (getAstNodeType (checkElement elm)) attr);
      unfold frame_rel, XML_StopParser, stackPush;
      cbn [with_stack stack live data skipData stopped]; rewrite ?Hl; tauto.
Qed.

Lemma framed_step (ev : Event) : framed (step ev).
Proof.
  destruct ev as [name attr|name|chunk|name attr]; cbn [step].
  - apply framed_startElement.
  - apply framed_endElement.
  - apply framed_handleData.
  - intros B s1 s2 s1' HR H Hns.
    exact (framed_endElement name B _ _ s1'
             (frame_rel_startElement name attr B s1 s2 HR) H Hns).
Qed.

Lemma run_stopped (evs : list Event) (st : PState) :
  stopped st = true -> run evs st = Ret st.
Proof. intros Hs. destruct evs; cbn [run]; [|rewrite Hs]; reflexivity. Qed.

Lemma run_app (evs1 evs2 : list Event) :
  forall st, run (evs1 ++ evs2) st = (st1 <- run evs1 st ;; run evs2 st1).
Proof.
  induction evs1 as [|ev evs1 IH]; intros st; cbn [app run bind].
  - reflexivity.
  - destruct (stopped st) eqn:Hs.
    + cbn [bind]. symmetry. apply run_stopped. exact Hs.
    + destruct (step ev st) as [st1|]; cbn [bind]; [apply IH | reflexivity].
Qed.

(** A run that ends without a stop ends the same way above any part of the
    stack, whatever the slots above the top hold. *)
Lemma framed_run (evs : list Event) : framed (run evs).
Proof.
  induction evs as [|ev evs IH]; intros B s1 s2 s1' HR H Hns; cbn [run] in *.
  - injection H as <-. exists s2. split; [reflexivity | exact HR].
  - rewrite <- (frame_rel_stop B s1 s2 HR).
    destruct (stopped s1) eqn:Hs1.
    + injection H as <-. congruence.
    + destruct (step ev s1) as [sa|] eqn:Hstep; [|discriminate]. cbn [bind] in H.
      assert (Hsa : stopped sa = false).
      { destruct (stopped sa) eqn:Hsa; [|reflexivity].
        rewrite (run_stopped evs sa Hsa) in H. injection H as <-. congruence. }
      destruct (framed_step ev B s1 s2 sa HR Hstep Hsa) as [sb [Hq HR']].
      rewrite Hq. cbn [bind]. exact (IH B sa sb s1' HR' H Hns).
Qed.

(** An empty-element tag whose start does not stop the parse runs as its
    start tag followed by its end tag. *)
Lemma run_Empty (name : string) (attr : list (string * string))
  (rest : list Event) (st : PState) :
  stopped (startElement name attr st) = false ->
  run (Empty name attr :: rest) st = run (Open name attr :: Close name :: rest) st.
Proof.
  intros Hns. cbn [run step bind]. rewrite Hns. reflexivity.
Qed.

(** ** The Implementation wrapper *)

Lemma agree_frame_rel (s1 s2 : PState) : agree s1 s2 <-> frame_rel [] s1 s2.
Proof.
  unfold agree, frame_rel. rewrite app_nil_r.
  split; intros [Hl [Hd [Hk Hs]]]; repeat split; congruence.
Qed.

Lemma agree_sym (s1 s2 : PState) : agree s1 s2 -> agree s2 s1.
Proof. unfold agree. intros [Hl [Hd [Hk Hs]]]. repeat split; congruence. Qed.

(** A run that ends without a stop does not depend on the slots above the
    top of the stack. *)
Lemma agree_run (evs : list Event) (s1 s2 s1' : PState) :
  agree s1 s2 -> run evs s1 = Ret s1' -> stopped s1' = false ->
  exists s2', run evs s2 = Ret s2' /\ agree s1' s2'.
Proof.
  intros Ha H Hns. apply agree_frame_rel in Ha.
  destruct (framed_run evs [] s1 s2 s1' Ha H Hns) as [s2' [H2 HR]].
  exists s2'. split; [exact H2 | apply agree_frame_rel; exact HR].
Qed.

Lemma checkPeek_top (e : Elm) (s : PState) (x : Element) (l : list Element) :
  live (stack s) = x :: l ->
  e = elm_BAD_DEFINED \/ type x = e ->
  checkPeek e s = (true, s).
Proof.
  intros Hl He. unfold checkPeek, checkElementType. rewrite Hl.
  destruct (Elm_eqb e elm_BAD_DEFINED) eqn:Hb; [reflexivity|].
  destruct He as [->|<-]; [discriminate|]. rewrite Elm_eqb_refl. reflexivity.
Qed.

Lemma checkPop_top (e : Elm) (s : PState) (x : Element) (l : list Element) :
  live (stack s) = x :: l ->
  e = elm_BAD_DEFINED \/ type x = e ->
  checkPop e s = (Some x, with_stack s {| live := l; dead := x :: dead (stack s) |}).
Proof.
  intros Hl He. unfold checkPop. rewrite (checkPeek_top e s x l Hl He), Hl.
  reflexivity.
Qed.

Lemma end_Implementation_top (st : PState) (cs im : Element) (rest : list Element) :
  live (stack st) = cs :: im :: rest ->
  type im = elm_Implementation ->
  exists st',
    endElement "Implementation" st = Ret st' /\
    live (stack st') = cs :: rest /\
    data st' = data st /\ skipData st' = skipData st /\ stopped st' = stopped st.
Proof.
  intros Hl Him.
  change (endElement "Implementation" st) with (end_Implementation st).
  unfold end_Implementation.
  rewrite (checkPop_top elm_BAD_DEFINED st cs (im :: rest) Hl (or_introl eq_refl)).
  erewrite (checkPop_top elm_Implementation _ im rest);
    [|reflexivity | right; exact Him].
  unfold endCheck.
  erewrite (checkPeek_top (type cs) _ cs rest);
    [|reflexivity | right; reflexivity].
  eexists. split; [reflexivity|]. cbn. repeat split.
Qed.

Lemma run_Open (name : string) (attr : list (string * string))
  (rest : list Event) (st : PState) (e : Element) :
  Elm_eqb (checkElement name) elm_BAD_DEFINED = false ->
  newElement (checkElement name) (getAstNodeType (checkElement name)) attr = Some e ->
  stopped st = false ->
  run (Open name attr :: rest) st =
  run rest {| stack := stackPush (stack st) e; data := data st;
              skipData := negb (Elm_eqb (checkElement name) elm_Name);
              stopped := false |}.
Proof.
  intros Hbad Hnew Hs. cbn [run step bind]. rewrite Hs. cbn [bind].
  unfold startElement, checkElement_cb. rewrite Hbad, Hnew.
  unfold with_stack. cbn [stack data skipData stopped]. rewrite Hs. reflexivity.
Qed.

(** C4.  The close event of Implementation pops the node on top, pops the
    Implementation node under it and pushes the first node back as it was,
    leaving the text buffer and the flags alone.  So when the events of a
    CoSimulation_Tool element assemble, on their own, to a node [cs], the
    same events inside an Implementation element and the same events
    without it both leave [cs] on top of the stack they started from, in
    states that agree; and whatever events follow, a run from one of the two
    states that ends without a stop is matched by a run from the other that
    ends in a state that agrees with it. *)
Theorem Implementation_transparent :
  (forall (st : PState) (cs im : Element) (rest : list Element),
      live (stack st) = cs :: im :: rest ->
      type im = elm_Implementation ->
      exists st',
        endElement "Implementation" st = Ret st' /\
        live (stack st') = cs :: rest /\
        data st' = data st /\ skipData st' = skipData st /\
        stopped st' = stopped st) /\
  (forall (ia ca : list (string * string)) (body : list Event)
          (cs : Element) (st0 se : PState),
      addAttributes ia <> None ->
      stopped st0 = false ->
      run (Open "CoSimulation_Tool" ca :: body) (on_its_own st0) = Ret se ->
      live (stack se) = [cs] ->
      stopped se = false ->
      exists s1 s2,
        run (Open "Implementation" ia
             :: (Open "CoSimulation_Tool" ca :: body) ++ [Close "Implementation"])
            st0 = Ret s1 /\
        run (Open "CoSimulation_Tool" ca :: body) st0 = Ret s2 /\
        live (stack s1) = cs :: live (stack st0) /\
        live (stack s2) = cs :: live (stack st0) /\
        stopped s1 = false /\
        agree s1 s2 /\
        (forall post s1',
            run post s1 = Ret s1' -> stopped s1' = false ->
            exists s2', run post s2 = Ret s2' /\ agree s1' s2') /\
        (forall post s2',
            run post s2 = Ret s2' -> stopped s2' = false ->
            exists s1', run post s1 = Ret s1' /\ agree s2' s1')).
Proof.
  split; [exact end_Implementation_top|].
  intros ia ca body cs st0 se Hia Hs0 Hiso Hcs Hse.
  assert (Htool : Elm_eqb (checkElement "CoSimulation_Tool") elm_BAD_DEFINED = false)
    by reflexivity.
  assert (Himpl : Elm_eqb (checkElement "Implementation") elm_BAD_DEFINED = false)
    by reflexivity.
  destruct (newElement (checkElement "CoSimulation_Tool")
              (getAstNodeType (checkElement "CoSimulation_Tool")) ca)
    as [e|] eqn:Hnew.
  2:{ exfalso. cbn [run step bind on_its_own stopped] in Hiso.
      unfold startElement, checkElement_cb in Hiso. rewrite Htool, Hnew in Hiso.
      rewrite run_stopped in Hiso by reflexivity.
      injection Hiso as <-. discriminate. }
  rewrite (run_Open _ ca body (on_its_own st0) e Htool Hnew eq_refl) in Hiso.
  destruct (addAttributes ia) as [att|] eqn:Hatt; [clear Hia|congruence].
  set (im := mkElement elm_Implementation att).
  assert (Hnim : newElement (checkElement "Implementation")
                   (getAstNodeType (checkElement "Implementation")) ia = Some im).
  { unfold newElement. rewrite Hatt. reflexivity. }
  (* the element without the wrapper *)
  rewrite (run_Open _ ca body st0 e Htool Hnew Hs0).
  match type of Hiso with run body ?s = _ => set (iso := s) in * end.
  match goal with |- context [run body ?s] => set (bare := s) end.
  assert (HRb : frame_rel (live (stack st0)) iso bare).
  { unfold frame_rel, iso, bare, on_its_own, stackPush.
    cbn [stack live data skipData stopped app]. tauto. }
  destruct (framed_run body _ iso bare se HRb Hiso Hse) as [s2 [Hrun2 HR2]].
  (* the element inside the wrapper *)
  rewrite (run_Open _ ia _ st0 im Himpl Hnim Hs0), run_app.
  match goal with |- context [run (Open "CoSimulation_Tool" ca :: body) ?s] =>
    set (inside := s) end.
  rewrite (run_Open _ ca body inside e Htool Hnew eq_refl).
  match goal with |- context [run body ?s] => set (wrapped := s) end.
  assert (HRw : frame_rel (im :: live (stack st0)) iso wrapped).
  { unfold frame_rel, iso, wrapped, inside, on_its_own, stackPush.
    cbn [stack live data skipData stopped app]. tauto. }
  destruct (framed_run body _ iso wrapped se HRw Hiso Hse) as [s1a [Hrun1 HR1]].
  rewrite Hrun1. cbn [bind run step].
  destruct HR1 as [Hl1 [Hd1 [Hk1 Hs1]]]. destruct HR2 as [Hl2 [Hd2 [Hk2 Hs2]]].
  rewrite Hcs in Hl1, Hl2. cbn [app] in Hl1, Hl2.
  rewrite Hs1, Hse.
  destruct (end_Implementation_top s1a cs im (live (stack st0)) Hl1 eq_refl)
    as [s1 [Hend [Hl [Hd [Hk Hs]]]]].
  rewrite Hend. cbn [bind].
  assert (Hag : agree s1 s2) by (unfold agree; repeat split; congruence).
  exists s1, s2. split; [reflexivity|]. split; [exact Hrun2|].
  split; [exact Hl|]. split; [exact Hl2|]. split; [congruence|].
  split; [exact Hag|]. split.
  - intros post s1' Hpost Hns. exact (agree_run post s1 s2 s1' Hag Hpost Hns).
  - intros post s2' Hpost Hns.
    exact (agree_run post s2 s1 s2' (agree_sym s1 s2 Hag) Hpost Hns).
Qed.

(** * The properties on the sample data *)

(** The sample documents parse to the root with the tool node attached, with
    the wrapper and without it. *)
Example sample_documents_parse :
  parse sample_wrapped = parse sample_bare /\
  parse sample_bare =
    Ret (Some (mkModelDescription elm_fmiModelDescription [(att_modelName, Some "m")]
                 None None None None None (Some sample_tool))).
Proof. split; vm_compute; reflexivity. Qed.

Lemma sameBaseType_spec_witness :
  sameBaseType elm_Enumeration elm_Integer = true /\
  sameBaseType elm_Real elm_Integer = false.
Proof.
  destruct sameBaseType_spec as [Hiff [_ [_ Hdistinct]]]. split.
  - apply (proj2 (Hiff elm_Enumeration elm_Integer)). right. left.
    split; reflexivity.
  - apply (Hdistinct elm_Real elm_Integer).
    + discriminate.
    + intros [H _]. discriminate H.
    + intros [H _]. discriminate H.
Defined.

Lemma missing_attribute_values_witness :
  getString sample_x att_causality = None /\
  @getUInt numeral_libc sample_x att_causality = (4294967295, valueMissing) /\
  4294967295 = fmiUndefinedValueReference /\
  @getDouble numeral_libc sample_x att_causality = (0, valueMissing) /\
  @getInt numeral_libc sample_x att_causality = (0, valueMissing).
Proof.
  split; [reflexivity|].
  apply (@missing_attribute_values numeral_libc sample_x att_causality).
  reflexivity.
Defined.

Lemma getEnumValue_spec_witness :
  getString sample_y att_causality = Some "output" /\
  getCausality sample_y = enu_output /\
  getEnumValue sample_y att_causality = (enu_output, valueDefined).
Proof.
  split; [reflexivity|].
  destruct (getEnumValue_spec sample_y att_causality) as [_ [_ [_ [Houtput _]]]].
  apply Houtput. reflexivity.
Defined.

Lemma getNominal_spec_witness :
  @getVariableAttributeDouble numeral_libc (sample_md [sample_x; sample_y]) 1
    elm_Real att_nominal = Ret (0, valueIllegal) /\
  @getNominal numeral_libc (sample_md [sample_x; sample_y]) 1 = Ret 1 /\
  @getNominal numeral_libc (sample_md [sample_x; sample_y]) 0 = Ret 2.
Proof.
  split; [reflexivity|]. split.
  - destruct (@getNominal_spec numeral_libc (sample_md [sample_x; sample_y]) 1)
      as [_ [_ [_ Hdefault]]].
    apply (Hdefault 0 valueIllegal); [reflexivity | discriminate].
  - destruct (@getNominal_spec numeral_libc (sample_md [sample_x; sample_y]) 0)
      as [_ [_ [Hdefined _]]].
    apply (Hdefined 2). reflexivity.
Defined.




Lemma fallback_lookups_witness :
  getString sample_x att_description = None /\
  getDescription (sample_md [sample_x]) sample_x = Ret (Some "a length") /\
  @getVariableAttributeString numeral_libc (sample_md [sample_x]) 0 elm_Real att_nominal
  = Ret (Some "2").
Proof.
  split; [reflexivity|].
  destruct (@fallback_lookups numeral_libc (sample_md [sample_x]))
    as [_ [Hvar Hdescr]].
  split.
  - destruct (Hdescr sample_x) as [_ Hfall].
    destruct (Hfall (mkElement elm_Real [(att_declaredType, Some "T1")])
                eq_refl eq_refl) as [Hfound _].
    exact (Hfound sample_T1 eq_refl).
  - destruct (Hvar 0 elm_Real att_nominal) as [_ Hsome].
    exact (Hsome sample_x (mkElement elm_Real [(att_declaredType, Some "T1")])
             eq_refl eq_refl).
Defined.

(** C6, against the specification: for the variable x, which has no description and
    whose type-spec declares T1, [getDescription] returns the description of
    the Type node T1, while the lookup in the words of the specification
    finds nothing on the given node (x itself has no declaredType), and the
    type-spec of T1, where the specification reads, has no description
    either. *)
Lemma getDescription_reads_the_type :
  getDescription (sample_md [sample_x]) sample_x = Ret (Some "a length") /\
  spec_fallback_lookup (sample_md [sample_x]) sample_x att_description = Ret None /\
  getString_at (typeSpec sample_T1) att_description = Ret None.
Proof. repeat split. Qed.

Lemma handleData_spec_witness :
  data (handleData "x" (sample_recording None)) = Some "x" /\
  data (handleData line_feed (sample_recording None)) = Some EmptyString /\
  data (handleData "y" (sample_recording (Some "x"))) = Some "xy".
Proof.
  split; [|split].
  - destruct (handleData_spec "x" (sample_recording None)) as [_ Hrec].
    destruct (Hrec eq_refl) as [_ [_ [_ [_ [Hfirst _]]]]].
    apply Hfirst; [reflexivity | discriminate | reflexivity].
  - destruct (handleData_spec line_feed (sample_recording None)) as [_ Hrec].
    destruct (Hrec eq_refl) as [_ [_ [_ [Hlf _]]]].
    apply Hlf; reflexivity.
  - destruct (handleData_spec "y" (sample_recording (Some "x"))) as [_ Hrec].
    destruct (Hrec eq_refl) as [_ [_ [_ [_ [_ [Happ _]]]]]].
    apply (Happ "x"); reflexivity.
Defined.

(** C5, where the code leaves the rule of its own comment (a chunk of one
    line feed is replaced by the empty string): a chunk of one line feed that
    arrives when the buffer already holds text is appended as it is; the
    buffer is not what an empty chunk leaves. *)
Lemma line_feed_appended :
  data (handleData line_feed (sample_recording (Some "x")))
  = Some (String "x" line_feed) /\
  data (handleData EmptyString (sample_recording (Some "x"))) = Some "x" /\
  data (handleData line_feed (sample_recording (Some "x")))
  <> data (handleData EmptyString (sample_recording (Some "x"))).
Proof. split; [reflexivity|]. split; [reflexivity|]. discriminate. Qed.

Lemma close_list_element_witness :
  exists st',
    endElement "ModelVariables" sample_before_close = Ret st' /\
    live (stack st') =
      [mkListElement elm_ModelVariables [] (Some sample_variable_nodes); sample_root] /\
    stopped st' = false.
Proof.
  destruct (close_list_element elm_ModelVariables elm_ScalarVariable
              sample_before_close sample_variable_nodes
              (mkListElement elm_ModelVariables [] None) [sample_root]
              eq_refl eq_refl)
    as [st' [Hend [Hlive [_ [_ [Hstop _]]]]]].
  - repeat constructor.
  - discriminate.
  - exists st'. split; [exact Hend|]. split; [exact Hlive | exact Hstop].
Defined.

(** C1, against the specification: in the sample with a Real before the variable,
    the close event of ModelVariables pops the variable, finds the Real,
    which is not of the list shape, and pushes it back with nothing
    attached: the variable is in no list, the ModelVariables node has none,
    and the parse is stopped. *)
Lemma misplaced_child_not_attached :
  exists st st',
    run (removelast sample_misplaced) initial = Ret st /\
    live (stack st) =
      [ mkScalarVariable elm_ScalarVariable [(att_name, Some "x")]
          (Some (mkElement elm_Real [])) None;
        mkElement elm_Real [];
        mkListElement elm_ModelVariables [] None ] /\
    stopped st = false /\
    endElement "ModelVariables" st = Ret st' /\
    live (stack st') = [mkElement elm_Real []; mkListElement elm_ModelVariables [] None] /\
    stopped st' = true.
Proof. do 2 eexists. repeat split. Qed.

Lemma Implementation_transparent_witness :
  exists s1 s2,
    run (Open "Implementation" [] :: sample_tool_events ++ [Close "Implementation"])
        sample_open_root = Ret s1 /\
    run sample_tool_events sample_open_root = Ret s2 /\
    live (stack s1) = [sample_tool; sample_root] /\
    live (stack s2) = [sample_tool; sample_root] /\
    stopped s1 = false /\
    agree s1 s2.
Proof.
  destruct (proj2 Implementation_transparent [] [] (tl sample_tool_events)
              sample_tool sample_open_root sample_tool_end)
    as [s1 [s2 [H1 [H2 [Hl1 [Hl2 [Hs Hag]]]]]]].
  - discriminate.
  - reflexivity.
  - vm_compute. reflexivity.
  - reflexivity.
  - reflexivity.
  - exists s1, s2. destruct Hag as [Hag _].
    split; [exact H1|]. split; [exact H2|]. split; [exact Hl1|].
    split; [exact Hl2|]. split; [exact Hs | exact Hag].
Defined.

(** * Further properties *)

(** ** Name tables: from a name to its identity and back *)

Lemma small_index (i : Z) (n : nat) :
  0 <= i < Z.of_nat n -> exists k : nat, (k < n)%nat /\ i = Z.of_nat k.
Proof. intros H. exists (Z.to_nat i). split; lia. Qed.

Lemma Elm_of_Z_good (i : Z) :
  0 <= i < 31 ->
  Elm_of_Z i <> elm_BAD_DEFINED /\ Elm_to_Z (Elm_of_Z i) = i.
Proof.
  intros H. destruct (small_index i 31 H) as [k [Hk ->]].
  do 31 (destruct k as [|k]; [split; [discriminate | reflexivity]|]). lia.
Qed.

Lemma Att_of_Z_good (i : Z) :
  0 <= i < 47 ->
  Att_of_Z i <> att_BAD_DEFINED /\ Att_to_Z (Att_of_Z i) = i.
Proof.
  intros H. destruct (small_index i 47 H) as [k [Hk ->]].
  do 47 (destruct k as [|k]; [split; [discriminate | reflexivity]|]). lia.
Qed.

Lemma nth_error_nth_string (l : list string) (k : nat) (s : string) :
  nth_error l k = Some s -> nth k l EmptyString = s.
Proof. intros H. apply nth_error_nth. exact H. Qed.

Lemma checkElement_found (name : string) :
  In name elmNames ->
  checkElement name <> elm_BAD_DEFINED /\ name_of (checkElement name) = name.
Proof.
  intros Hin. unfold checkElement, checkName, name_of.
  destruct (checkName_from_found elmNames 0 name Hin) as [Hb Hn].
  change (Z.of_nat (List.length elmNames)) with 31 in Hb.
  destruct (Elm_of_Z_good (checkName_from 0 name elmNames)) as [Hg Hr]; [lia|].
  split; [exact Hg|]. rewrite Hr. rewrite Z.sub_0_r in Hn.
  apply nth_error_nth_string. exact Hn.
Qed.

Lemma checkElement_missing (name : string) :
  ~ In name elmNames -> checkElement name = elm_BAD_DEFINED.
Proof.
  intros Hnin. unfold checkElement, checkName.
  rewrite (checkName_from_missing elmNames 0 name Hnin). reflexivity.
Qed.

Lemma checkAttribute_found (name : string) :
  In name attNames ->
  checkAttribute name <> att_BAD_DEFINED /\
  attribute_name (checkAttribute name) = name.
Proof.
  intros Hin. unfold checkAttribute, checkName, attribute_name.
  destruct (checkName_from_found attNames 0 name Hin) as [Hb Hn].
  change (Z.of_nat (List.length attNames)) with 47 in Hb.
  destruct (Att_of_Z_good (checkName_from 0 name attNames)) as [Hg Hr]; [lia|].
  split; [exact Hg|]. rewrite Hr. rewrite Z.sub_0_r in Hn.
  apply nth_error_nth_string. exact Hn.
Qed.

Lemma checkAttribute_missing (name : string) :
  ~ In name attNames -> checkAttribute name = att_BAD_DEFINED.
Proof.
  intros Hnin. unfold checkAttribute, checkName.
  rewrite (checkName_from_missing attNames 0 name Hnin). reflexivity.
Qed.

Lemma checkAttribute_known (name : string) :
  checkAttribute name <> att_BAD_DEFINED <-> In name attNames.
Proof.
  split.
  - intros Hg. destruct (in_dec string_dec name attNames) as [Hin|Hnin];
      [exact Hin|]. exfalso. apply Hg. apply checkAttribute_missing. exact Hnin.
  - intros Hin. apply (checkAttribute_found name Hin).
Qed.

Lemma checkElement_known (name : string) :
  checkElement name <> elm_BAD_DEFINED <-> In name elmNames.
Proof.
  split.
  - intros Hg. destruct (in_dec string_dec name elmNames) as [Hin|Hnin];
      [exact Hin|]. exfalso. apply Hg. apply checkElement_missing. exact Hnin.
  - intros Hin. apply (checkElement_found name Hin).
Qed.

(** X1.  The three name tables give every name of the table an identity
    other than BAD, from which the table gives the name back; every identity
    other than BAD is the identity of its own name; and a name outside the
    table gets the BAD identity. *)
Theorem name_tables_round_trip :
  (forall el, el <> elm_BAD_DEFINED -> checkElement (name_of el) = el) /\
  (forall a, a <> att_BAD_DEFINED -> checkAttribute (attribute_name a) = a) /\
  (forall id, id <> enu_BAD_DEFINED -> checkEnumValue (enum_name id) = id) /\
  (forall name,
      (In name elmNames ->
       checkElement name <> elm_BAD_DEFINED /\ name_of (checkElement name) = name) /\
      (~ In name elmNames -> checkElement name = elm_BAD_DEFINED)) /\
  (forall name,
      (In name attNames ->
       checkAttribute name <> att_BAD_DEFINED /\
       attribute_name (checkAttribute name) = name) /\
      (~ In name attNames -> checkAttribute name = att_BAD_DEFINED)) /\
  (forall name,
      (In name enuNames ->
       checkEnumValue name <> enu_BAD_DEFINED /\
       enum_name (checkEnumValue name) = name) /\
      (~ In name enuNames -> checkEnumValue name = enu_BAD_DEFINED)).
Proof.
  split; [|split; [|split; [|split; [|split]]]].
  - intros el H. destruct el; [congruence | reflexivity ..].
  - intros a H. destruct a; [congruence | reflexivity ..].
  - intros id H. destruct id; [congruence | reflexivity ..].
  - intros name. split; [apply checkElement_found | apply checkElement_missing].
  - intros name. split; [apply checkAttribute_found | apply checkAttribute_missing].
  - intros name. split; [|apply checkEnumValue_missing].
    intros Hin. destruct (checkEnumValue_found name Hin) as [Hg Hn].
    split; [exact Hg|]. unfold enum_name. apply nth_error_nth_string. exact Hn.
Qed.

Lemma name_tables_round_trip_witness :
  checkElement "ScalarVariable" = elm_ScalarVariable /\
  name_of (checkElement "ScalarVariable") = "ScalarVariable" /\
  checkAttribute "Name" = att_BAD_DEFINED.
Proof.
  destruct name_tables_round_trip as [Helm [_ [_ [Hname [Hatt _]]]]].
  split; [|split].
  - apply (Helm elm_ScalarVariable). discriminate.
  - apply (proj1 (Hname "ScalarVariable")). vm_compute. tauto.
  - apply (proj2 (Hatt "Name")). vm_compute.
    intros H; repeat (destruct H as [H|H]; [discriminate H|]); exact H.
Defined.

(** ** Attributes: from the open event to the reads *)

Lemma addAttributes_getString (attr : list (string * string)) :
  forall att, addAttributes attr = Some att ->
  forall a, getString_from att a = raw_value attr a.
Proof.
  induction attr as [|[name value] rest IH]; intros att H a; cbn in H.
  - injection H as <-. reflexivity.
  - destruct (Att_eqb (checkAttribute name) att_BAD_DEFINED); [discriminate|].
    destruct (addAttributes rest) as [att'|]; [|discriminate].
    injection H as <-. cbn [getString_from raw_value].
    destruct (Att_eqb (checkAttribute name) a); [reflexivity|].
    apply IH. reflexivity.
Qed.

Lemma addAttributes_none (attr : list (string * string)) :
  addAttributes attr = None <->
  exists name value, In (name, value) attr /\ ~ In name attNames.
Proof.
  induction attr as [|[name value] rest IH]; cbn [addAttributes].
  - split; [discriminate|]. intros [n [v [[] _]]].
  - destruct (Att_eqb (checkAttribute name) att_BAD_DEFINED) eqn:Hb.
    + split; [|reflexivity]. intros _. exists name, value.
      split; [left; reflexivity|]. apply Att_eqb_eq in Hb.
      intros Hin. apply checkAttribute_known in Hin. contradiction.
    + assert (Hk : In name attNames).
      { apply checkAttribute_known. intros Heq. rewrite Heq in Hb. discriminate. }
      destruct (addAttributes rest) as [att'|].
      * split; [discriminate|]. intros [n [v [[Heq|Hin] Hn]]].
        -- injection Heq as <- <-. contradiction.
        -- assert (Hc : Some att' = None) by (apply IH; exists n, v; tauto).
           discriminate Hc.
      * split; [|reflexivity]. intros _.
        destruct (proj1 IH eq_refl) as [n [v [Hin Hn]]].
        exists n, v. split; [right; exact Hin | exact Hn].
Qed.

Lemma addAttributes_store (attr : list (string * string)) :
  forall att, addAttributes attr = Some att ->
  Forall (fun p => fst p <> att_BAD_DEFINED /\ snd p <> None) att /\
  List.length att = List.length attr.
Proof.
  induction attr as [|[name value] rest IH]; intros att H; cbn in H.
  - injection H as <-. split; [constructor | reflexivity].
  - destruct (Att_eqb (checkAttribute name) att_BAD_DEFINED) eqn:Hb; [discriminate|].
    destruct (addAttributes rest) as [att'|]; [|discriminate].
    injection H as <-. destruct (IH att' eq_refl) as [Hall Hlen]. split.
    + constructor; [|exact Hall]. cbn [fst snd]. split; [|discriminate].
      intros Heq. rewrite Heq in Hb. discriminate.
    + cbn [List.length]. rewrite Hlen. reflexivity.
Qed.

Lemma raw_value_first (attr : list (string * string)) :
  NoDup (map fst attr) ->
  (forall name value, In (name, value) attr -> In name attNames) ->
  forall name value, In (name, value) attr ->
  raw_value attr (checkAttribute name) = Some value.
Proof.
  induction attr as [|[n0 v0] rest IH]; intros Hnd Hknown name value Hin.
  - destruct Hin.
  - cbn [raw_value]. cbn [map fst] in Hnd. inversion Hnd as [|? ? Hnotin Hnd']; subst.
    destruct Hin as [Heq|Hin].
    + injection Heq as -> ->.
      replace (Att_eqb (checkAttribute name) (checkAttribute name)) with true
        by (symmetry; apply Att_eqb_eq; reflexivity).
      reflexivity.
    + destruct (Att_eqb (checkAttribute n0) (checkAttribute name)) eqn:He.
      * exfalso. apply Att_eqb_eq in He. apply Hnotin.
        assert (Hn0 : In n0 attNames) by (apply (Hknown n0 v0); left; reflexivity).
        assert (Hn : In name attNames) by (apply (Hknown name value); right; exact Hin).
        destruct (checkAttribute_found n0 Hn0) as [_ H0].
        destruct (checkAttribute_found name Hn) as [_ H1].
        rewrite He, H1 in H0. subst n0.
        apply in_map_iff. exists (name, value). split; [reflexivity | exact Hin].
      * apply IH; [exact Hnd' | | exact Hin].
        intros n v Hnv. apply (Hknown n v). right. exact Hnv.
Qed.

Lemma raw_value_absent (attr : list (string * string)) (a : Att) :
  (forall name value, In (name, value) attr -> checkAttribute name <> a) ->
  raw_value attr a = None.
Proof.
  induction attr as [|[n0 v0] rest IH]; intros Hall; cbn [raw_value].
  - reflexivity.
  - destruct (Att_eqb (checkAttribute n0) a) eqn:He.
    + apply Att_eqb_eq in He. exfalso.
      exact (Hall n0 v0 (or_introl eq_refl) He).
    + apply IH. intros n v Hin. apply (Hall n v). right. exact Hin.
Qed.

Lemma newElement_inv (ty : Elm) (size : AstNodeType)
  (attr : list (string * string)) (e : Element) :
  newElement ty size attr = Some e ->
  exists att, addAttributes attr = Some att /\ type e = ty /\ attributes e = att.
Proof.
  unfold newElement. destruct (addAttributes attr) as [att|]; [|discriminate].
  intros H. injection H as <-. exists att.
  destruct size; repeat split.
Qed.

Lemma newElement_none (ty : Elm) (size : AstNodeType) (attr : list (string * string)) :
  newElement ty size attr = None <->
  exists name value, In (name, value) attr /\ ~ In name attNames.
Proof.
  rewrite <- addAttributes_none. unfold newElement.
  destruct (addAttributes attr); split; congruence.
Qed.

(** X2.  [newElement] fails exactly when the open event has an attribute
    whose name is not in the attribute table.  The node it builds has the
    kind asked for and stores one pair per raw attribute, none under the BAD
    identity and none without a value; [getString] on it gives, for every
    attribute, the value of the first raw pair of that name, so that with
    names that do not repeat every raw pair is read back, and an attribute
    the event did not name is absent. *)
Theorem newElement_attributes (ty : Elm) (size : AstNodeType)
  (attr : list (string * string)) :
  (newElement ty size attr = None <->
   exists name value, In (name, value) attr /\ ~ In name attNames) /\
  (forall e,
      newElement ty size attr = Some e ->
      type e = ty /\
      List.length (attributes e) = List.length attr /\
      Forall (fun p => fst p <> att_BAD_DEFINED /\ snd p <> None) (attributes e) /\
      (forall a, getString e a = raw_value attr a) /\
      (NoDup (map fst attr) ->
       forall name value, In (name, value) attr ->
                          getString e (checkAttribute name) = Some value) /\
      (forall a,
          (forall name value, In (name, value) attr -> checkAttribute name <> a) ->
          getString e a = None)).
Proof.
  split; [apply newElement_none|].
  intros e H. destruct (newElement_inv ty size attr e H) as [att [Hadd [Hty Hatt]]].
    destruct (addAttributes_store attr att Hadd) as [Hstore Hlen].
    assert (Hget : forall a, getString e a = raw_value attr a).
    { intros a. unfold getString. rewrite Hatt.
      apply addAttributes_getString. exact Hadd. }
    split; [exact Hty|]. split; [rewrite Hatt; exact Hlen|].
    split; [rewrite Hatt; exact Hstore|]. split; [exact Hget|]. split.
    + intros Hnd name value Hin. rewrite Hget.
      apply raw_value_first; [exact Hnd | | exact Hin].
      intros n v Hnv. destruct (in_dec string_dec n attNames) as [Hk|Hk];
        [exact Hk|]. exfalso.
      assert (Hnone : addAttributes attr = None)
        by (apply addAttributes_none; exists n, v; tauto).
      congruence.
    + intros a Hall. rewrite Hget. apply raw_value_absent. exact Hall.
Qed.

Lemma newElement_attributes_witness :
  exists e,
    newElement elm_Real astElement [("start", "1"); ("min", "0")] = Some e /\
    getString e att_start = Some "1" /\
    getString e att_min = Some "0" /\
    getString e att_max = None.
Proof.
  exists (mkElement elm_Real [(att_start, Some "1"); (att_min, Some "0")]).
  destruct (newElement_attributes elm_Real astElement [("start", "1"); ("min", "0")])
    as [_ Hsome].
  destruct (Hsome _ eq_refl) as [_ [_ [_ [_ [Hread Habsent]]]]].
  assert (Hnd : NoDup (map fst [("start", "1"); ("min", "0")])).
  { cbn. constructor.
    - intros [H|[]]. discriminate H.
    - constructor; [intros [] | constructor]. }
  split; [reflexivity|]. split; [|split].
  - apply (Hread Hnd "start" "1"). left. reflexivity.
  - apply (Hread Hnd "min" "0"). right. left. reflexivity.
  - apply (Habsent att_max). intros name value [H|[H|[]]];
      injection H as <- <-; discriminate.
Defined.

(** ** The open event *)

Lemma newElement_well_formed (el : Elm) (attr : list (string * string)) (e : Element) :
  el <> elm_BAD_DEFINED ->
  newElement el (getAstNodeType el) attr = Some e ->
  well_formed e = true.
Proof.
  unfold newElement. intros Hel H.
  destruct (addAttributes attr) as [att|]; [|discriminate].
  injection H as <-. destruct el; try congruence; reflexivity.
Qed.

Lemma checkElement_Name (elm : string) :
  Elm_eqb (checkElement elm) elm_Name = String.eqb elm "Name".
Proof.
  destruct (String.eqb_spec elm "Name") as [->|Hne]; [reflexivity|].
  apply Elm_eqb_neq. intros Heq.
  destruct (in_dec string_dec elm elmNames) as [Hin|Hnin].
  - destruct (checkElement_found elm Hin) as [_ Hn]. rewrite Heq in Hn.
    apply Hne. rewrite <- Hn. reflexivity.
  - rewrite (checkElement_missing elm Hnin) in Heq. discriminate.
Qed.

(** X3.  The open event of a name outside the element table only stops the
    parse.  The open event of a known element with an attribute of unknown
    name stops the parse and pushes nothing.  Otherwise the event pushes one
    new node of the kind of the element, in the shape of that kind and
    without children, above the nodes that were there, and leaves the stop
    flag alone.  For a known element the text buffer is left alone, and text
    is recorded after the event exactly when the element is Name. *)
Theorem startElement_spec (elm : string) (attr : list (string * string)) (st : PState) :
  (~ In elm elmNames -> startElement elm attr st = XML_StopParser st) /\
  (In elm elmNames ->
   skipData (startElement elm attr st) = negb (String.eqb elm "Name") /\
   data (startElement elm attr st) = data st /\
   ((exists name value, In (name, value) attr /\ ~ In name attNames) ->
    stack (startElement elm attr st) = stack st /\
    stopped (startElement elm attr st) = true) /\
   ((forall name value, In (name, value) attr -> In name attNames) ->
    exists e,
      newElement (checkElement elm) (getAstNodeType (checkElement elm)) attr = Some e /\
      live (stack (startElement elm attr st)) = e :: live (stack st) /\
      stopped (startElement elm attr st) = stopped st /\
      type e = checkElement elm /\ name_of (type e) = elm /\
      well_formed e = true /\
      ListElement_list e = None /\ typeSpec e = None)).
Proof.
  split.
  - intros Hnin. unfold startElement, checkElement_cb.
    rewrite (checkElement_missing elm Hnin). reflexivity.
  - intros Hin. destruct (checkElement_found elm Hin) as [Hg Hname].
    unfold startElement, checkElement_cb. apply Elm_eqb_neq in Hg. rewrite Hg.
    rewrite checkElement_Name.
    destruct (newElement (checkElement elm) (getAstNodeType (checkElement elm)) attr)
      as [e|] eqn:Hnew.
    + split; [reflexivity|]. split; [reflexivity|]. split.
      * intros Hbad. exfalso.
        apply (proj2 (newElement_none (checkElement elm)
                        (getAstNodeType (checkElement elm)) attr)) in Hbad.
        congruence.
      * intros _. exists e. split; [reflexivity|]. split; [reflexivity|].
        split; [reflexivity|].
        destruct (newElement_inv _ _ _ _ Hnew) as [att [_ [Hty _]]].
        split; [exact Hty|]. split; [rewrite Hty; exact Hname|].
        apply Elm_eqb_neq in Hg.
        split; [exact (newElement_well_formed _ attr e Hg Hnew)|].
        unfold newElement in Hnew.
        destruct (addAttributes attr); [|discriminate]. injection Hnew as <-.
        destruct (getAstNodeType (checkElement elm)); split; reflexivity.
    + split; [reflexivity|]. split; [reflexivity|]. split.
      * intros _. split; reflexivity.
      * intros Hknown. exfalso.
        destruct (proj1 (newElement_none (checkElement elm)
                           (getAstNodeType (checkElement elm)) attr) Hnew)
          as [n [v [Hnv Hn]]].
        exact (Hn (Hknown n v Hnv)).
Qed.

Lemma startElement_spec_witness :
  exists e,
    newElement elm_Real astElement [("start", "1")] = Some e /\
    live (stack (startElement "Real" [("start", "1")] sample_open_root))
    = [e; sample_root] /\
    stopped (startElement "Real" [("start", "1")] sample_open_root) = false /\
    stopped (startElement "Real" [("bogus", "1")] sample_open_root) = true /\
    startElement "Bogus" [] sample_open_root = XML_StopParser sample_open_root.
Proof.
  destruct (startElement_spec "Real" [("start", "1")] sample_open_root) as [_ Hknown].
  destruct Hknown as [_ [_ [_ Hpush]]].
  { vm_compute. tauto. }
  destruct Hpush as [e [Hnew [Hlive [Hstop _]]]].
  { intros name value [H|[]]. injection H as <- <-. vm_compute. tauto. }
  exists e. split; [exact Hnew|]. split; [exact Hlive|]. split; [exact Hstop|].
  split.
  - destruct (startElement_spec "Real" [("bogus", "1")] sample_open_root)
      as [_ Hk].
    destruct Hk as [_ [_ [Hbad _]]]; [vm_compute; tauto|].
    apply Hbad. exists "bogus", "1". split; [left; reflexivity|].
    vm_compute. intros H; repeat (destruct H as [H|H]; [discriminate H|]); exact H.
  - apply (proj1 (startElement_spec "Bogus" [] sample_open_root)).
    vm_compute. intros H; repeat (destruct H as [H|H]; [discriminate H|]); exact H.
Defined.

(** ** Lookups by name and by value reference *)

Lemma getVariableByName_loop_some (vars : list Element) (name : string) (sv : Element) :
  getVariableByName_loop vars name = Ret (Some sv) ->
  exists before after,
    vars = before ++ sv :: after /\
    getString sv att_name = Some name /\
    forall x, In x before ->
              exists n, getString x att_name = Some n /\ n <> name.
Proof.
  induction vars as [|v rest IH]; cbn [getVariableByName_loop]; [discriminate|].
  unfold getName. destruct (getString v att_name) as [n|] eqn:Hn; [|discriminate].
  cbn [bind]. destruct (String.eqb_spec n name) as [->|Hne].
  - intros H. injection H as <-. exists [], rest.
    split; [reflexivity|]. split; [exact Hn|]. intros x [].
  - intros H. destruct (IH H) as [before [after [-> [Hsv Hbefore]]]].
    exists (v :: before), after. split; [reflexivity|]. split; [exact Hsv|].
    intros x [<-|Hx]; [exists n; tauto | exact (Hbefore x Hx)].
Qed.

Lemma getVariableByName_loop_none (vars : list Element) (name : string) :
  getVariableByName_loop vars name = Ret None <->
  forall x, In x vars -> exists n, getString x att_name = Some n /\ n <> name.
Proof.
  induction vars as [|v rest IH]; cbn [getVariableByName_loop].
  - split; [intros _ x [] | reflexivity].
  - unfold getName. destruct (getString v att_name) as [n|] eqn:Hn; cbn [bind].
    + destruct (String.eqb_spec n name) as [->|Hne].
      * split; [discriminate|]. intros Hall.
        destruct (Hall v (or_introl eq_refl)) as [n' [Hn' Hne]]. congruence.
      * rewrite IH. split.
        -- intros Hall x [<-|Hx]; [exists n; tauto | exact (Hall x Hx)].
        -- intros Hall x Hx. apply Hall. right. exact Hx.
    + split; [discriminate|]. intros Hall.
      destruct (Hall v (or_introl eq_refl)) as [n' [Hn' _]]. congruence.
Qed.

Lemma getVariableByName_loop_found (before after : list Element) (sv : Element)
  (name : string) :
  getString sv att_name = Some name ->
  (forall x, In x before -> exists n, getString x att_name = Some n /\ n <> name) ->
  getVariableByName_loop (before ++ sv :: after) name = Ret (Some sv).
Proof.
  intros Hsv. induction before as [|b before IH]; intros Hb;
    cbn [app getVariableByName_loop]; unfold getName.
  - rewrite Hsv. cbn [bind]. rewrite String.eqb_refl. reflexivity.
  - destruct (Hb b (or_introl eq_refl)) as [n [Hn Hne]]. rewrite Hn. cbn [bind].
    destruct (String.eqb_spec n name) as [Heq|_]; [contradiction|].
    apply IH. intros x Hx. apply Hb. right. exact Hx.
Qed.

Lemma getVariableByName_loop_abort (vars : list Element) (name : string) :
  getVariableByName_loop vars name = Abort <->
  exists before v after,
    vars = before ++ v :: after /\
    getString v att_name = None /\
    forall x, In x before ->
              exists n, getString x att_name = Some n /\ n <> name.
Proof.
  induction vars as [|v rest IH]; cbn [getVariableByName_loop].
  - split; [discriminate|]. intros [before [v [after [H _]]]].
    destruct before; discriminate.
  - unfold getName. destruct (getString v att_name) as [n|] eqn:Hn; cbn [bind].
    + destruct (String.eqb_spec n name) as [->|Hne].
      * split; [discriminate|]. intros [before [v' [after [Heq [Hv' Hb]]]]].
        destruct before as [|b before]; cbn [app] in Heq; injection Heq as <- ->.
        -- congruence.
        -- destruct (Hb v (or_introl eq_refl)) as [n' [Hn' Hne]]. congruence.
      * rewrite IH. split.
        -- intros [before [v' [after [-> [Hv' Hb]]]]].
           exists (v :: before), v', after. split; [reflexivity|].
           split; [exact Hv'|].
           intros x [<-|Hx]; [exists n; tauto | exact (Hb x Hx)].
        -- intros [before [v' [after [Heq [Hv' Hb]]]]].
           destruct before as [|b before]; cbn [app] in Heq; injection Heq as <- ->.
           ++ congruence.
           ++ exists before, v', after. split; [reflexivity|].
              split; [exact Hv'|]. intros x Hx. apply Hb. right. exact Hx.
    + split; [|reflexivity]. intros _. exists [], v, rest.
      split; [reflexivity|]. split; [exact Hn|]. intros x [].
Qed.

(** X4.  [getVariableByName] returns a variable exactly when the list has a
    variable named as asked with only variables of other names before it,
    and the variable returned is that one, the first of the name.  It
    returns NULL exactly when every variable has a name and none has the
    name asked for, and with no variable list.  It fails the assertion of
    [getName] exactly when a variable without a name comes before any of the
    name asked for. *)
Theorem getVariableByName_spec (md : Element) (name : string) :
  (forall sv,
      getVariableByName md name = Ret (Some sv) <->
      exists before after,
        variables md = before ++ sv :: after /\
        getString sv att_name = Some name /\
        forall x, In x before ->
                  exists n, getString x att_name = Some n /\ n <> name) /\
  (getVariableByName md name = Ret None <->
   forall x, In x (variables md) ->
             exists n, getString x att_name = Some n /\ n <> name) /\
  (getVariableByName md name = Abort <->
   exists before v after,
     variables md = before ++ v :: after /\
     getString v att_name = None /\
     forall x, In x before ->
               exists n, getString x att_name = Some n /\ n <> name) /\
  (modelVariables md = None -> getVariableByName md name = Ret None).
Proof.
  unfold getVariableByName, variables.
  destruct (modelVariables md) as [vars|].
  - split; [|split; [|split]].
    + intros sv. split; [apply getVariableByName_loop_some|].
      intros [before [after [-> [Hsv Hb]]]].
      exact (getVariableByName_loop_found before after sv name Hsv Hb).
    + apply getVariableByName_loop_none.
    + apply getVariableByName_loop_abort.
    + discriminate.
  - split; [|split; [|split]].
    + intros sv. split; [discriminate|].
      intros [before [after [H _]]]. destruct before; discriminate.
    + split; [intros _ x [] | reflexivity].
    + split; [discriminate|].
      intros [before [v [after [H _]]]]. destruct before; discriminate.
    + reflexivity.
Qed.

Lemma getVariableByName_spec_witness :
  getVariableByName (sample_md [sample_x; sample_y; sample_z]) "y" = Ret (Some sample_y) /\
  getVariableByName (sample_md [sample_x; sample_y; sample_z]) "w" = Ret None.
Proof.
  destruct (getVariableByName_spec (sample_md [sample_x; sample_y; sample_z]) "y")
    as [Hfound _].
  destruct (getVariableByName_spec (sample_md [sample_x; sample_y; sample_z]) "w")
    as [_ [Hnone _]].
  split.
  - apply Hfound. exists [sample_x], [sample_z].
    split; [reflexivity|]. split; [reflexivity|].
    intros x [<-|[]]. eexists. split; [reflexivity | discriminate].
  - apply Hnone.
    intros x [<-|[<-|[<-|[]]]]; eexists; (split; [reflexivity | discriminate]).
Defined.

Lemma getDeclaredType_loop_some (tds : list Element) (dt : string) (tp : Element) :
  getDeclaredType_loop tds dt = Ret (Some tp) ->
  exists before after,
    tds = before ++ tp :: after /\
    getString tp att_name = Some dt /\
    forall x, In x before ->
              exists n, getString x att_name = Some n /\ n <> dt.
Proof.
  induction tds as [|t rest IH]; cbn [getDeclaredType_loop]; [discriminate|].
  unfold getName. destruct (getString t att_name) as [n|] eqn:Hn; [|discriminate].
  cbn [bind]. destruct (String.eqb_spec dt n) as [->|Hne].
  - intros H. injection H as <-. exists [], rest.
    split; [reflexivity|]. split; [exact Hn|]. intros x [].
  - intros H. destruct (IH H) as [before [after [-> [Htp Hbefore]]]].
    exists (t :: before), after. split; [reflexivity|]. split; [exact Htp|].
    intros x [<-|Hx]; [exists n; split; [exact Hn | congruence] | exact (Hbefore x Hx)].
Qed.

Lemma getDeclaredType_loop_none (tds : list Element) (dt : string) :
  getDeclaredType_loop tds dt = Ret None <->
  forall x, In x tds -> exists n, getString x att_name = Some n /\ n <> dt.
Proof.
  induction tds as [|t rest IH]; cbn [getDeclaredType_loop].
  - split; [intros _ x [] | reflexivity].
  - unfold getName. destruct (getString t att_name) as [n|] eqn:Hn; cbn [bind].
    + destruct (String.eqb_spec dt n) as [->|Hne].
      * split; [discriminate|]. intros Hall.
        destruct (Hall t (or_introl eq_refl)) as [n' [Hn' Hne]]. congruence.
      * rewrite IH. split.
        -- intros Hall x [<-|Hx];
             [exists n; split; [exact Hn | congruence] | exact (Hall x Hx)].
        -- intros Hall x Hx. apply Hall. right. exact Hx.
    + split; [discriminate|]. intros Hall.
      destruct (Hall t (or_introl eq_refl)) as [n' [Hn' _]]. congruence.
Qed.

Lemma getDeclaredType_loop_abort (tds : list Element) (dt : string) :
  getDeclaredType_loop tds dt = Abort <->
  exists before t after,
    tds = before ++ t :: after /\
    getString t att_name = None /\
    forall x, In x before ->
              exists n, getString x att_name = Some n /\ n <> dt.
Proof.
  induction tds as [|t rest IH]; cbn [getDeclaredType_loop].
  - split; [discriminate|]. intros [before [t [after [H _]]]].
    destruct before; discriminate.
  - unfold getName. destruct (getString t att_name) as [n|] eqn:Hn; cbn [bind].
    + destruct (String.eqb_spec dt n) as [->|Hne].
      * split; [discriminate|]. intros [before [t' [after [Heq [Ht' Hb]]]]].
        destruct before as [|b before]; cbn [app] in Heq; injection Heq as <- ->.
        -- congruence.
        -- destruct (Hb t (or_introl eq_refl)) as [n' [Hn' Hne]]. congruence.
      * rewrite IH. split.
        -- intros [before [t' [after [-> [Ht' Hb]]]]].
           exists (t :: before), t', after. split; [reflexivity|].
           split; [exact Ht'|].
           intros x [<-|Hx];
             [exists n; split; [exact Hn | congruence] | exact (Hb x Hx)].
        -- intros [before [t' [after [Heq [Ht' Hb]]]]].
           destruct before as [|b before]; cbn [app] in Heq; injection Heq as <- ->.
           ++ congruence.
           ++ exists before, t', after. split; [reflexivity|].
              split; [exact Ht'|]. intros x Hx. apply Hb. right. exact Hx.
    + split; [|reflexivity]. intros _. exists [], t, rest.
      split; [reflexivity|]. split; [exact Hn|]. intros x [].
Qed.

(** X5.  [getDeclaredType] returns the first type definition of the name
    asked for, the ones before it having other names; it returns NULL when
    every type definition has another name, and also, reading no type
    definition at all, when the name asked for is NULL or there is no list;
    and it fails the assertion of [getName] exactly when a type definition
    without a name comes before any of the name asked for. *)
Theorem getDeclaredType_spec (md : Element) (dt : string) :
  (forall tp,
      getDeclaredType md (Some dt) = Ret (Some tp) ->
      exists before after,
        type_definitions md = before ++ tp :: after /\
        getString tp att_name = Some dt /\
        forall x, In x before ->
                  exists n, getString x att_name = Some n /\ n <> dt) /\
  (getDeclaredType md (Some dt) = Ret None <->
   forall x, In x (type_definitions md) ->
             exists n, getString x att_name = Some n /\ n <> dt) /\
  (getDeclaredType md (Some dt) = Abort <->
   exists before t after,
     type_definitions md = before ++ t :: after /\
     getString t att_name = None /\
     forall x, In x before ->
               exists n, getString x att_name = Some n /\ n <> dt) /\
  getDeclaredType md None = Ret None /\
  (typeDefinitions md = None -> getDeclaredType md (Some dt) = Ret None).
Proof.
  unfold getDeclaredType, type_definitions.
  destruct (typeDefinitions md) as [tds|].
  - split; [|split; [|split; [|split]]].
    + intros tp. apply getDeclaredType_loop_some.
    + apply getDeclaredType_loop_none.
    + apply getDeclaredType_loop_abort.
    + reflexivity.
    + discriminate.
  - split; [|split; [|split; [|split]]].
    + intros tp H. discriminate.
    + split; [intros _ x [] | reflexivity].
    + split; [discriminate|]. intros [before [t [after [H _]]]].
      destruct before; discriminate.
    + reflexivity.
    + reflexivity.
Qed.

Lemma getDeclaredType_spec_witness :
  getDeclaredType sample_md_unnamed (Some "T1") = Abort /\
  getDeclaredType (sample_md []) (Some "T1") = Ret (Some sample_T1) /\
  getDeclaredType (sample_md []) (Some "T9") = Ret None.
Proof.
  split; [|split].
  - apply (proj1 (proj2 (proj2 (getDeclaredType_spec sample_md_unnamed "T1")))).
    exists [], sample_unnamed, [sample_T1].
    split; [reflexivity|]. split; [reflexivity|]. intros x [].
  - reflexivity.
  - apply (proj1 (proj2 (getDeclaredType_spec (sample_md []) "T9"))).
    intros x [<-|[]]. exists "T1". split; [reflexivity | discriminate].
Defined.

Section ValueReferenceProperties.
Context {libc : Libc}.

Lemma getVariable_loop_some (vars : list Element) (vr : Z) (ty : Elm) (sv : Element) :
  getVariable_loop vars vr ty = Ret (Some sv) ->
  exists before after ts,
    vars = before ++ sv :: after /\
    typeSpec sv = Some ts /\ sameBaseType ty (type ts) = true /\
    getValueReference sv = Ret vr /\
    forall x, In x before -> passed_over vr ty x.
Proof.
  induction vars as [|v rest IH]; cbn [getVariable_loop]; [discriminate|].
  destruct (typeSpec v) as [ts|] eqn:Hts; [|discriminate].
  assert (Hrec : getVariable_loop rest vr ty = Ret (Some sv) ->
                 passed_over vr ty v ->
                 exists before after ts0,
                   v :: rest = before ++ sv :: after /\
                   typeSpec sv = Some ts0 /\ sameBaseType ty (type ts0) = true /\
                   getValueReference sv = Ret vr /\
                   forall x, In x before -> passed_over vr ty x).
  { intros H Hv. destruct (IH H) as [before [after [ts0 [-> [H1 [H2 [H3 H4]]]]]]].
    exists (v :: before), after, ts0. split; [reflexivity|].
    split; [exact H1|]. split; [exact H2|]. split; [exact H3|].
    intros x [<-|Hx]; [exact Hv | exact (H4 x Hx)]. }
  destruct (sameBaseType ty (type ts)) eqn:Hsame.
  - destruct (getValueReference v) as [r|] eqn:Hr; [|discriminate]. cbn [bind].
    destruct (Z.eqb_spec r vr) as [->|Hne].
    + intros H. injection H as <-. exists [], rest, ts.
      split; [reflexivity|]. split; [exact Hts|]. split; [exact Hsame|].
      split; [exact Hr|]. intros x [].
    + intros H. apply (Hrec H). exists ts. split; [exact Hts|].
      right. exists r. split; [exact Hr | exact Hne].
  - intros H. apply (Hrec H). exists ts. split; [exact Hts|]. left. exact Hsame.
Qed.

Lemma getVariable_loop_found (before after : list Element) (sv ts : Element)
  (vr : Z) (ty : Elm) :
  typeSpec sv = Some ts -> sameBaseType ty (type ts) = true ->
  getValueReference sv = Ret vr ->
  (forall x, In x before -> passed_over vr ty x) ->
  getVariable_loop (before ++ sv :: after) vr ty = Ret (Some sv).
Proof.
  intros Hts Hsame Hvr. induction before as [|b before IH]; intros Hb;
    cbn [app getVariable_loop].
  - rewrite Hts, Hsame, Hvr. cbn [bind]. rewrite Z.eqb_refl. reflexivity.
  - assert (IH' : getVariable_loop (before ++ sv :: after) vr ty = Ret (Some sv))
      by (apply IH; intros x Hx; apply Hb; right; exact Hx).
    destruct (Hb b (or_introl eq_refl)) as [tb [Htb [Hno|[r [Hr Hne]]]]];
      rewrite Htb.
    + rewrite Hno. exact IH'.
    + destruct (sameBaseType ty (type tb)); [|exact IH'].
      rewrite Hr. cbn [bind].
      destruct (Z.eqb_spec r vr) as [Heq|_]; [contradiction | exact IH'].
Qed.

Lemma sameBaseType_Integer_Enumeration (t : Elm) :
  sameBaseType elm_Integer t = sameBaseType elm_Enumeration t.
Proof. destruct t; reflexivity. Qed.

Lemma getVariable_loop_Integer (vars : list Element) (vr : Z) :
  getVariable_loop vars vr elm_Integer = getVariable_loop vars vr elm_Enumeration.
Proof.
  induction vars as [|v rest IH]; cbn [getVariable_loop]; [reflexivity|].
  destruct (typeSpec v) as [ts|]; [|reflexivity].
  rewrite sameBaseType_Integer_Enumeration, IH. reflexivity.
Qed.

Lemma getNonAliasVariable_loop_Integer (vars : list Element) (vr : Z) :
  getNonAliasVariable_loop vars vr elm_Integer
  = getNonAliasVariable_loop vars vr elm_Enumeration.
Proof.
  induction vars as [|v rest IH]; cbn [getNonAliasVariable_loop]; [reflexivity|].
  destruct (typeSpec v) as [ts|]; [|reflexivity].
  rewrite sameBaseType_Integer_Enumeration, IH. reflexivity.
Qed.

Lemma getNonAliasVariable_loop_some (vars : list Element) (vr : Z) (ty : Elm)
  (sv : Element) :
  getNonAliasVariable_loop vars vr ty = Ret (Some sv) ->
  In sv vars /\
  getAlias sv = enu_noAlias /\ getValueReference sv = Ret vr /\
  (exists ts, typeSpec sv = Some ts /\ sameBaseType ty (type ts) = true) /\
  exists sv', getVariable_loop vars vr ty = Ret (Some sv').
Proof.
  induction vars as [|v rest IH];
    cbn [getNonAliasVariable_loop getVariable_loop]; [discriminate|].
  destruct (typeSpec v) as [ts|] eqn:Hts; [|discriminate].
  assert (Hrec : getNonAliasVariable_loop rest vr ty = Ret (Some sv) ->
                 In sv (v :: rest) /\
                 getAlias sv = enu_noAlias /\ getValueReference sv = Ret vr /\
                 (exists ts, typeSpec sv = Some ts /\ sameBaseType ty (type ts) = true) /\
                 exists sv', getVariable_loop rest vr ty = Ret (Some sv')).
  { intros H. destruct (IH H) as [H1 [H2 [H3 [H4 H5]]]].
    split; [right; exact H1|]. tauto. }
  destruct (sameBaseType ty (type ts)) eqn:Hsame.
  - destruct (getValueReference v) as [r|] eqn:Hr; [|discriminate]. cbn [bind].
    destruct (Z.eqb_spec r vr) as [->|Hne]; cbn [andb].
    + destruct (Enu_eqb (getAlias v) enu_noAlias) eqn:Ha.
      * intros H. injection H as <-. apply Enu_eqb_eq in Ha.
        split; [left; reflexivity|]. split; [exact Ha|]. split; [exact Hr|].
        split; [exists ts; tauto|]. exists v. reflexivity.
      * intros H. destruct (Hrec H) as [H1 [H2 [H3 [H4 _]]]].
        split; [exact H1|]. split; [exact H2|]. split; [exact H3|].
        split; [exact H4|]. exists v. reflexivity.
    + intros H. exact (Hrec H).
  - intros H. exact (Hrec H).
Qed.

(** X6.  [getVariable] returns a variable exactly when the value reference
    asked for is not the undefined one and the list has a variable whose
    type-spec is of the base type asked for and whose value reference is the
    one asked for, with only variables of another base type or another value
    reference before it; the variable returned is that one, the first of the
    list.  The variable that [getNonAliasVariable] returns is such a
    variable that is no alias, and [getVariable] then returns a variable too
    (that one or an alias before it).  Integer and Enumeration ask for the
    same variables. *)
Theorem getVariable_spec (md : Element) (vr : Z) (ty : Elm) :
  (forall sv,
      getVariable md vr ty = Ret (Some sv) <->
      vr <> fmiUndefinedValueReference /\
      exists before after ts,
        variables md = before ++ sv :: after /\
        typeSpec sv = Some ts /\ sameBaseType ty (type ts) = true /\
        getValueReference sv = Ret vr /\
        forall x, In x before -> passed_over vr ty x) /\
  (forall sv,
      getNonAliasVariable md vr ty = Ret (Some sv) ->
      In sv (variables md) /\
      getAlias sv = enu_noAlias /\ getValueReference sv = Ret vr /\
      (exists ts, typeSpec sv = Some ts /\ sameBaseType ty (type ts) = true) /\
      exists sv', getVariable md vr ty = Ret (Some sv')) /\
  getVariable md vr elm_Integer = getVariable md vr elm_Enumeration /\
  getNonAliasVariable md vr elm_Integer = getNonAliasVariable md vr elm_Enumeration.
Proof.
  unfold getVariable, getNonAliasVariable, variables.
  destruct (modelVariables md) as [vars|].
  - destruct (Z.eqb_spec vr fmiUndefinedValueReference) as [Hu|Hu]; cbn [negb].
    + split; [|split; [intros sv H; discriminate | split; reflexivity]].
      intros sv. split; [discriminate|]. intros [Hne _]. contradiction.
    + split; [|split; [|split]].
      * intros sv. split.
        -- intros H. split; [exact Hu|]. exact (getVariable_loop_some _ _ _ _ H).
        -- intros [_ [before [after [ts [-> [Hts [Hsame [Hvr Hb]]]]]]]].
           exact (getVariable_loop_found before after sv ts vr ty Hts Hsame Hvr Hb).
      * intros sv H. exact (getNonAliasVariable_loop_some _ _ _ _ H).
      * apply getVariable_loop_Integer.
      * apply getNonAliasVariable_loop_Integer.
  - split; [|split; [intros sv H; discriminate | split; reflexivity]].
    intros sv. split; [discriminate|].
    intros [_ [before [after [ts [H _]]]]]. destruct before; discriminate.
Qed.

End ValueReferenceProperties.

Lemma getVariable_spec_witness :
  @getVariable numeral_libc (sample_md [sample_x; sample_y]) 1 elm_Real
  = Ret (Some sample_y) /\
  @getValueReference numeral_libc sample_y = Ret 1 /\
  1 <> fmiUndefinedValueReference.
Proof.
  split; [reflexivity|].
  destruct (@getVariable_spec numeral_libc (sample_md [sample_x; sample_y]) 1 elm_Real)
    as [Hsome _].
  destruct (proj1 (Hsome sample_y) eq_refl)
    as [Hu [before [after [ts [_ [_ [_ [Hvr _]]]]]]]].
  split; [exact Hvr | exact Hu].
Defined.

(** ** Booleans *)

(** X7.  [getBoolean] reports Defined for the two values true and false
    only, in these letters, and returns 1 for true alone; any other value
    that is there is Illegal with 0, and Missing is the status of an absent
    attribute and of no other. *)
Theorem getBoolean_spec (element : Element) (a : Att) :
  (snd (getBoolean element a) = valueDefined <->
   getString element a = Some "true" \/ getString element a = Some "false") /\
  (fst (getBoolean element a) = 1 <-> getString element a = Some "true") /\
  (snd (getBoolean element a) = valueMissing <-> getString element a = None) /\
  (snd (getBoolean element a) <> valueDefined -> fst (getBoolean element a) = 0).
Proof.
  unfold getBoolean. destruct (getString element a) as [value|].
  - destruct (String.eqb_spec value "true") as [->|Ht];
      [|destruct (String.eqb_spec value "false") as [->|Hf]];
      cbn [fst snd]; intuition (discriminate || congruence).
  - cbn [fst snd]. intuition (discriminate || congruence).
Qed.

Lemma getBoolean_spec_witness :
  fst (getBoolean (mkElement elm_Capabilities [(att_canHandleEvents, Some "True")])
         att_canHandleEvents) = 0.
Proof.
  apply (proj2 (proj2 (proj2 (getBoolean_spec
           (mkElement elm_Capabilities [(att_canHandleEvents, Some "True")])
           att_canHandleEvents)))).
  discriminate.
Defined.

(** ** The text of a Name element *)

Lemma string_app_nil_r (s : string) : (s ++ EmptyString)%string = s.
Proof. induction s as [|c s IH]; cbn; [reflexivity | rewrite IH; reflexivity]. Qed.

Lemma string_app_assoc (s t u : string) :
  ((s ++ t) ++ u)%string = (s ++ t ++ u)%string.
Proof. induction s as [|c s IH]; cbn; [reflexivity | rewrite IH; reflexivity]. Qed.

Lemma string_concat_cons (c : string) (rest : list string) :
  String.concat EmptyString (c :: rest)
  = (c ++ String.concat EmptyString rest)%string.
Proof.
  destruct rest as [|d rest]; cbn [String.concat].
  - symmetry. apply string_app_nil_r.
  - reflexivity.
Qed.

Lemma deliver_skipped (chunks : list string) (st : PState) :
  skipData st = true -> deliver chunks st = st.
Proof.
  intros Hskip. unfold deliver. induction chunks as [|c rest IH]; cbn [fold_left].
  - reflexivity.
  - unfold handleData at 2. rewrite Hskip. exact IH.
Qed.

Lemma deliver_recorded (chunks : list string) :
  forall st,
    skipData st = false -> Forall no_NUL chunks ->
    data (deliver chunks st) = name_text (data st) chunks /\
    stack (deliver chunks st) = stack st /\
    skipData (deliver chunks st) = false /\
    stopped (deliver chunks st) = stopped st.
Proof.
  unfold deliver.
  induction chunks as [|c rest IH]; intros st Hskip Hall; cbn [fold_left].
  - split; [|tauto]. unfold name_text. destruct (data st); [|reflexivity].
    cbn [String.concat]. rewrite string_app_nil_r. reflexivity.
  - inversion Hall as [|? ? Hc Hrest]; subst.
    assert (Hstep : handleData c st =
              {| stack := stack st;
                 data := Some match data st with
                              | None => if String.eqb c line_feed
                                        then EmptyString else c
                              | Some d => (d ++ c)%string
                              end;
                 skipData := false; stopped := stopped st |}).
    { unfold handleData. rewrite Hskip. unfold no_NUL in Hc. rewrite Hc.
      reflexivity. }
    rewrite Hstep.
    match goal with |- context [fold_left _ rest ?s] => set (s1 := s) end.
    destruct (IH s1 eq_refl Hrest) as [Hd [Hs [Hk Hp]]].
    rewrite Hd, Hs, Hk, Hp. cbn [data stack skipData stopped s1].
    split; [|tauto]. unfold name_text.
    destruct (data st) as [d|].
    + rewrite string_concat_cons, string_app_assoc. reflexivity.
    + reflexivity.
Qed.

(** X8.  While text is skipped, any chunks leave the state as it is.  While
    text is recorded, the chunks of a run (none of them with a NUL) are
    joined in the order they arrive: onto the text the buffer holds, or, in
    an empty buffer, from the first chunk on, which counts as empty when it
    is a single line feed; with no chunk the buffer stays as it is.  The
    stack and the flags do not change. *)
Theorem deliver_spec (chunks : list string) (st : PState) :
  (skipData st = true -> deliver chunks st = st) /\
  (skipData st = false -> Forall no_NUL chunks ->
   data (deliver chunks st) = name_text (data st) chunks /\
   stack (deliver chunks st) = stack st /\
   skipData (deliver chunks st) = false /\
   stopped (deliver chunks st) = stopped st /\
   (forall d, data st = Some d ->
              data (deliver chunks st)
              = Some (d ++ String.concat EmptyString chunks)%string) /\
   (data st = None -> chunks = [] -> data (deliver chunks st) = None) /\
   (forall c rest,
       data st = None -> chunks = c :: rest -> c <> line_feed ->
       data (deliver chunks st) = Some (String.concat EmptyString chunks)) /\
   (forall rest,
       data st = None -> chunks = line_feed :: rest ->
       data (deliver chunks st) = Some (String.concat EmptyString rest))).
Proof.
  split; [apply deliver_skipped|]. intros Hskip Hall.
  destruct (deliver_recorded chunks st Hskip Hall) as [Hd [Hs [Hk Hp]]].
  split; [exact Hd|]. split; [exact Hs|]. split; [exact Hk|]. split; [exact Hp|].
  rewrite Hd. split; [|split; [|split]].
  - intros d ->. reflexivity.
  - intros -> ->. reflexivity.
  - intros c rest -> -> Hne. cbn [name_text].
    destruct (String.eqb_spec c line_feed) as [Heq|_]; [contradiction|].
    rewrite string_concat_cons. reflexivity.
  - intros rest -> ->. reflexivity.
Qed.

Lemma deliver_spec_witness :
  data (deliver ["ab"; line_feed; "c"] (sample_recording None))
  = Some (String.concat EmptyString ["ab"; line_feed; "c"]) /\
  data (deliver [line_feed; "c"] (sample_recording None)) = Some "c".
Proof.
  split.
  - destruct (deliver_spec ["ab"; line_feed; "c"] (sample_recording None))
      as [_ Hrec].
    destruct (Hrec eq_refl) as [_ [_ [_ [_ [_ [_ [Hfirst _]]]]]]].
    { repeat constructor. }
    apply (Hfirst "ab" [line_feed; "c"]); [reflexivity | reflexivity | discriminate].
  - destruct (deliver_spec [line_feed; "c"] (sample_recording None)) as [_ Hrec].
    destruct (Hrec eq_refl) as [_ [_ [_ [_ [_ [_ [_ Hlf]]]]]]].
    { repeat constructor. }
    apply (Hlf ["c"]); reflexivity.
Defined.

Lemma run_Text (chunks : list string) :
  forall st, stopped st = false ->
             run (map Text chunks) st = Ret (deliver chunks st).
Proof.
  unfold deliver.
  induction chunks as [|c rest IH]; intros st Hs; cbn [map run fold_left].
  - reflexivity.
  - rewrite Hs. cbn [step bind]. apply IH.
    unfold handleData. destruct (skipData st); [exact Hs | exact Hs].
Qed.

(** X9.  A Name element, from its open event over the chunks of its text to
    its close event, leaves one Name node on the stack it started from.  The
    node has the text as the value of its one attribute, input; the
    attributes of the open event are not kept; and with no chunk at all the
    value is NULL, so that the attribute reads as absent.  After the close
    event the buffer is empty and text is skipped. *)
Theorem Name_element (attr : list (string * string)) (chunks : list string)
  (st : PState) :
  stopped st = false ->
  (forall name value, In (name, value) attr -> In name attNames) ->
  Forall no_NUL chunks ->
  exists st',
    run (Open "Name" attr :: map Text chunks ++ [Close "Name"]) st = Ret st' /\
    live (stack st')
    = mkElement elm_Name [(att_input, name_text (data st) chunks)]
      :: live (stack st) /\
    data st' = None /\ skipData st' = true /\ stopped st' = false /\
    (forall e, hd_error (live (stack st')) = Some e ->
               getString e att_input = name_text (data st) chunks /\
               forall a, a <> att_input -> getString e a = None).
Proof.
  intros Hs Hknown Hall.
  destruct (newElement elm_Name astElement attr) as [e|] eqn:Hnew.
  2:{ exfalso. destruct (proj1 (newElement_none _ _ attr) Hnew) as [n [v [Hnv Hn]]].
      exact (Hn (Hknown n v Hnv)). }
  destruct (newElement_inv _ _ _ _ Hnew) as [att [Hadd _]].
  assert (He : e = mkElement elm_Name att).
  { unfold newElement in Hnew. rewrite Hadd in Hnew. injection Hnew as <-.
    reflexivity. }
  subst e.
  rewrite (run_Open "Name" attr _ st (mkElement elm_Name att) eq_refl Hnew Hs).
  rewrite run_app, run_Text by reflexivity. cbn [bind].
  match goal with |- context [deliver chunks ?s] => set (s0 := s) end.
  destruct (deliver_recorded chunks s0 eq_refl Hall) as [Hd [Hst [Hk Hp]]].
  cbn [run]. rewrite Hp. cbn [stopped s0 step bind].
  change (endElement "Name" (deliver chunks s0)) with (end_Name (deliver chunks s0)).
  unfold end_Name.
  erewrite (checkPop_top elm_Name (deliver chunks s0) (mkElement elm_Name att)
              (live (stack st)));
    [| rewrite Hst; reflexivity | right; reflexivity].
  unfold endCheck.
  erewrite (checkPeek_top elm_Name _ _ (live (stack st)));
    [| reflexivity | right; reflexivity].
  cbn [snd bind with_stack stack data skipData stopped set_attributes stackPush live].
  rewrite Hd, Hp. cbn [data stopped s0].
  eexists. split; [reflexivity|]. cbn [stack live data skipData stopped].
  split; [reflexivity|]. split; [reflexivity|]. split; [reflexivity|].
  split; [reflexivity|].
  intros e He. cbn [hd_error] in He. injection He as <-.
  split; [reflexivity|]. intros a Ha. unfold getString.
  cbn [attributes getString_from].
  destruct (Att_eqb att_input a) eqn:Heq; [|reflexivity].
  apply Att_eqb_eq in Heq. congruence.
Qed.

Lemma Name_element_witness :
  exists st',
    run [Open "Name" []; Text "x"; Text "y"; Close "Name"] sample_open_root = Ret st' /\
    live (stack st') = [mkElement elm_Name [(att_input, Some "xy")]; sample_root].
Proof.
  destruct (Name_element [] ["x"; "y"] sample_open_root eq_refl)
    as [st' [Hrun [Hlive _]]].
  - intros name value [].
  - repeat constructor.
  - exists st'. split; [exact Hrun | exact Hlive].
Defined.

(** ** The assembly rules of the close event *)

Lemma checkPop_wrong (e : Elm) (s : PState) (x : Element) (l : list Element) :
  live (stack s) = x :: l ->
  e <> elm_BAD_DEFINED -> type x <> e ->
  checkPop e s = (None, XML_StopParser s).
Proof.
  intros Hl Hb Hx. unfold checkPop, checkPeek, checkElementType. rewrite Hl.
  apply Elm_eqb_neq in Hb, Hx. rewrite Hb, Hx. reflexivity.
Qed.

Lemma checkPeek_wrong (e : Elm) (s : PState) (x : Element) (l : list Element) :
  live (stack s) = x :: l ->
  e <> elm_BAD_DEFINED -> type x <> e ->
  checkPeek e s = (false, XML_StopParser s).
Proof.
  intros Hl Hb Hx. unfold checkPeek, checkElementType. rewrite Hl.
  apply Elm_eqb_neq in Hb, Hx. rewrite Hb, Hx. reflexivity.
Qed.

Lemma type_set_typeSpec (ts e : Element) : type (set_typeSpec ts e) = type e.
Proof. destruct e; reflexivity. Qed.

Lemma type_set_variable (deps : option (list Element)) (ts e : Element) :
  type (set_variable deps ts e) = type e.
Proof. destruct e; reflexivity. Qed.

Lemma type_set_capabilities (ca e : Element) : type (set_capabilities ca e) = type e.
Proof. destruct e; reflexivity. Qed.

Lemma type_set_model (mo e : Element) : type (set_model mo e) = type e.
Proof. destruct e; reflexivity. Qed.

Lemma type_set_description mv va de td ud cs (e : Element) :
  type (set_description mv va de td ud cs e) = type e.
Proof. destruct e; reflexivity. Qed.

(** X10.  On the close event of Type the node on top is popped.  When the
    node under it is a Type node and the popped node is of one of the five
    type-spec kinds of a Type, the popped node becomes the type-spec of the
    Type node, which stays on top; when the popped node is of another kind,
    or the node under it is no Type node, the parse is stopped, and the
    popped node is not put back. *)
Theorem Type_rule (st : PState) (ts under : Element) (rest : list Element) :
  live (stack st) = ts :: under :: rest ->
  exists st',
    endElement "Type" st = Ret st' /\
    data st' = data st /\ skipData st' = skipData st /\
    (type under = elm_Type -> is_typeSpec_of_Type (type ts) = true ->
     live (stack st') = set_typeSpec ts under :: rest /\
     stopped st' = stopped st) /\
    (type under <> elm_Type \/ is_typeSpec_of_Type (type ts) = false ->
     live (stack st') = under :: rest /\ stopped st' = true).
Proof.
  intros Hl. change (endElement "Type" st) with (end_Type st). unfold end_Type.
  rewrite (checkPop_top elm_BAD_DEFINED st ts (under :: rest) Hl (or_introl eq_refl)).
  match goal with |- context [checkPeek elm_Type ?s] => set (s1 := s) end.
  destruct (Elm_eqb (type under) elm_Type) eqn:Hu.
  - apply Elm_eqb_eq in Hu.
    rewrite (checkPeek_top elm_Type s1 under rest eq_refl (or_intror Hu)).
    destruct (is_typeSpec_of_Type (type ts)) eqn:Hk.
    + unfold endCheck.
      erewrite (checkPeek_top elm_Type _ (set_typeSpec ts under) rest);
        [| reflexivity | right; rewrite type_set_typeSpec; exact Hu].
      eexists. split; [reflexivity|]. cbn. split; [reflexivity|].
      split; [reflexivity|]. split; [intros _ _; split; reflexivity|].
      intros [H|H]; congruence.
    + eexists. split; [reflexivity|]. cbn. split; [reflexivity|].
      split; [reflexivity|]. split; [intros _ H; discriminate|].
      intros _. split; reflexivity.
  - apply Elm_eqb_neq in Hu.
    rewrite (checkPeek_wrong elm_Type s1 under rest eq_refl ltac:(discriminate) Hu).
    eexists. split; [reflexivity|]. cbn. split; [reflexivity|].
    split; [reflexivity|]. split; [intros H; contradiction|].
    intros _. split; reflexivity.
Qed.

Lemma Type_rule_witness :
  exists st',
    endElement "Type"
      {| stack := {| live := [mkElement elm_RealType []; mkType elm_Type [] None;
                              sample_root];
                     dead := [] |};
         data := None; skipData := true; stopped := false |} = Ret st' /\
    live (stack st')
    = [mkType elm_Type [] (Some (mkElement elm_RealType [])); sample_root] /\
    stopped st' = false.
Proof.
  destruct (Type_rule
              {| stack := {| live := [mkElement elm_RealType [];
                                      mkType elm_Type [] None; sample_root];
                             dead := [] |};
                 data := None; skipData := true; stopped := false |}
              (mkElement elm_RealType []) (mkType elm_Type [] None) [sample_root]
              eq_refl) as [st' [Hend [_ [_ [Hok _]]]]].
  destruct (Hok eq_refl eq_refl) as [Hlive Hstop].
  exists st'. split; [exact Hend|]. split; [exact Hlive | exact Hstop].
Defined.

(** X11.  On the close event of ScalarVariable, with a type-spec node on top
    of a ScalarVariable node, or a DirectDependency node on top of the two,
    the nodes above the variable are popped and the variable stays on top
    with the type-spec and with the list of the DirectDependency node as its
    dependencies (none when there is no such node), provided the type-spec
    is of one of the five kinds Real, Integer, Boolean, String, Enumeration;
    when it is of another kind the parse is stopped. *)
Theorem ScalarVariable_rule (st : PState) (deps : option Element)
  (ts sv : Element) (rest : list Element) :
  live (stack st) = part deps ++ ts :: sv :: rest ->
  part_kind elm_DirectDependency deps ->
  type ts <> elm_DirectDependency ->
  type sv = elm_ScalarVariable ->
  exists st',
    endElement "ScalarVariable" st = Ret st' /\
    data st' = data st /\ skipData st' = skipData st /\
    (is_typeSpec_of_variable (type ts) = true ->
     live (stack st') = set_variable (list_of deps) ts sv :: rest /\
     stopped st' = stopped st) /\
    (is_typeSpec_of_variable (type ts) = false ->
     live (stack st') = sv :: rest /\ stopped st' = true).
Proof.
  intros Hl Hd Hts Hsv.
  change (endElement "ScalarVariable" st) with (end_ScalarVariable st).
  unfold end_ScalarVariable.
  assert (Hwith : forall s d,
             live (stack s) = sv :: rest ->
             exists st',
               end_ScalarVariable_with d ts s = Ret st' /\
               data st' = data s /\ skipData st' = skipData s /\
               (is_typeSpec_of_variable (type ts) = true ->
                live (stack st') = set_variable d ts sv :: rest /\
                stopped st' = stopped s) /\
               (is_typeSpec_of_variable (type ts) = false ->
                live (stack st') = sv :: rest /\ stopped st' = true)).
  { intros s d Hs. unfold end_ScalarVariable_with.
    rewrite (checkPeek_top elm_ScalarVariable s sv rest Hs (or_intror Hsv)).
    destruct (is_typeSpec_of_variable (type ts)).
    - unfold endCheck, stackUpdateTop. rewrite Hs.
      erewrite (checkPeek_top elm_ScalarVariable _ (set_variable d ts sv) rest);
        [| reflexivity | right; rewrite type_set_variable; exact Hsv].
      eexists. split; [reflexivity|]. cbn. split; [reflexivity|].
      split; [reflexivity|]. split; [intros _; split; reflexivity|].
      intros H; discriminate.
    - eexists. split; [reflexivity|]. cbn. split; [reflexivity|].
      split; [reflexivity|]. split; [intros H; discriminate|].
      intros _. split; [exact Hs | reflexivity]. }
  destruct deps as [dd|]; cbn [part app part_kind list_of] in *.
  - rewrite (checkPop_top elm_BAD_DEFINED st dd (ts :: sv :: rest) Hl
               (or_introl eq_refl)).
    rewrite Hd, Elm_eqb_refl.
    erewrite (checkPop_top elm_BAD_DEFINED _ ts (sv :: rest));
      [| reflexivity | left; reflexivity].
    match goal with |- context [end_ScalarVariable_with ?d ts ?s] =>
      destruct (Hwith s d eq_refl) as [st' H']; exists st'; exact H' end.
  - rewrite (checkPop_top elm_BAD_DEFINED st ts (sv :: rest) Hl (or_introl eq_refl)).
    apply Elm_eqb_neq in Hts. rewrite Hts.
    match goal with |- context [end_ScalarVariable_with ?d ts ?s] =>
      destruct (Hwith s d eq_refl) as [st' H']; exists st'; exact H' end.
Qed.

Lemma ScalarVariable_rule_witness :
  exists st',
    endElement "ScalarVariable"
      {| stack := {| live := [mkListElement elm_DirectDependency []
                                (Some [mkElement elm_Name [(att_input, Some "u")]]);
                              mkElement elm_Real [];
                              mkScalarVariable elm_ScalarVariable [] None None];
                     dead := [] |};
         data := None; skipData := true; stopped := false |} = Ret st' /\
    live (stack st')
    = [mkScalarVariable elm_ScalarVariable [] (Some (mkElement elm_Real []))
         (Some [mkElement elm_Name [(att_input, Some "u")]])] /\
    stopped st' = false.
Proof.
  destruct (ScalarVariable_rule
              {| stack := {| live := [mkListElement elm_DirectDependency []
                                        (Some [mkElement elm_Name [(att_input, Some "u")]]);
                                      mkElement elm_Real [];
                                      mkScalarVariable elm_ScalarVariable [] None None];
                             dead := [] |};
                 data := None; skipData := true; stopped := false |}
              (Some (mkListElement elm_DirectDependency []
                       (Some [mkElement elm_Name [(att_input, Some "u")]])))
              (mkElement elm_Real [])
              (mkScalarVariable elm_ScalarVariable [] None None) []
              eq_refl eq_refl ltac:(discriminate) eq_refl)
    as [st' [Hend [_ [_ [Hok _]]]]].
  destruct (Hok eq_refl) as [Hlive Hstop].
  exists st'. split; [exact Hend|]. split; [exact Hlive | exact Hstop].
Defined.

(** X12.  On the close event of CoSimulation_StandAlone, with a Capabilities
    node on top of the co-simulation node, the Capabilities node is popped
    and attached; on the close event of CoSimulation_Tool, with a Model node
    on top of a Capabilities node on top of the co-simulation node, the two
    are popped and attached.  When the first node looked for is not on top,
    the parse is stopped, but the later pops are still made: a
    CoSimulation_StandAlone node without children, and a Capabilities node
    with a CoSimulation_Tool node under it and no Model node, are popped and
    not put back. *)
Theorem CoSimulation_rule (st : PState) (rest : list Element) :
  (forall ca cs,
      live (stack st) = ca :: cs :: rest ->
      type ca = elm_Capabilities -> type cs = elm_CoSimulation_StandAlone ->
      exists st',
        endElement "CoSimulation_StandAlone" st = Ret st' /\
        live (stack st') = set_capabilities ca cs :: rest /\
        data st' = data st /\ skipData st' = skipData st /\
        stopped st' = stopped st) /\
  (forall mo ca cs,
      live (stack st) = mo :: ca :: cs :: rest ->
      type mo = elm_Model -> type ca = elm_Capabilities ->
      type cs = elm_CoSimulation_Tool ->
      exists st',
        endElement "CoSimulation_Tool" st = Ret st' /\
        live (stack st') = set_model mo (set_capabilities ca cs) :: rest /\
        data st' = data st /\ skipData st' = skipData st /\
        stopped st' = stopped st) /\
  (forall cs,
      live (stack st) = cs :: rest ->
      type cs = elm_CoSimulation_StandAlone ->
      exists st',
        endElement "CoSimulation_StandAlone" st = Ret st' /\
        live (stack st') = rest /\ stopped st' = true) /\
  (forall ca cs,
      live (stack st) = ca :: cs :: rest ->
      type ca = elm_Capabilities -> type cs = elm_CoSimulation_Tool ->
      exists st',
        endElement "CoSimulation_Tool" st = Ret st' /\
        live (stack st') = rest /\ stopped st' = true).
Proof.
  split; [|split; [|split]].
  - intros ca cs Hl Hca Hcs.
    change (endElement "CoSimulation_StandAlone" st)
      with (end_CoSimulation_StandAlone st).
    unfold end_CoSimulation_StandAlone.
    rewrite (checkPop_top elm_Capabilities st ca (cs :: rest) Hl (or_intror Hca)).
    erewrite (checkPop_top elm_CoSimulation_StandAlone _ cs rest);
      [| reflexivity | right; exact Hcs].
    unfold endCheck.
    erewrite (checkPeek_top elm_CoSimulation_StandAlone _ (set_capabilities ca cs) rest);
      [| reflexivity | right; rewrite type_set_capabilities; exact Hcs].
    eexists. split; [reflexivity|]. cbn. repeat split.
  - intros mo ca cs Hl Hmo Hca Hcs.
    change (endElement "CoSimulation_Tool" st) with (end_CoSimulation_Tool st).
    unfold end_CoSimulation_Tool.
    rewrite (checkPop_top elm_Model st mo (ca :: cs :: rest) Hl (or_intror Hmo)).
    erewrite (checkPop_top elm_Capabilities _ ca (cs :: rest));
      [| reflexivity | right; exact Hca].
    erewrite (checkPop_top elm_CoSimulation_Tool _ cs rest);
      [| reflexivity | right; exact Hcs].
    unfold endCheck.
    erewrite (checkPeek_top elm_CoSimulation_Tool _
                (set_model mo (set_capabilities ca cs)) rest);
      [| reflexivity
       | right; rewrite type_set_model, type_set_capabilities; exact Hcs].
    eexists. split; [reflexivity|]. cbn. repeat split.
  - intros cs Hl Hcs.
    change (endElement "CoSimulation_StandAlone" st)
      with (end_CoSimulation_StandAlone st).
    unfold end_CoSimulation_StandAlone.
    rewrite (checkPop_wrong elm_Capabilities st cs rest Hl);
      [| discriminate | rewrite Hcs; discriminate].
    erewrite (checkPop_top elm_CoSimulation_StandAlone (XML_StopParser st) cs rest);
      [| exact Hl | right; exact Hcs].
    eexists. split; [reflexivity|]. cbn. split; reflexivity.
  - intros ca cs Hl Hca Hcs.
    change (endElement "CoSimulation_Tool" st) with (end_CoSimulation_Tool st).
    unfold end_CoSimulation_Tool.
    rewrite (checkPop_wrong elm_Model st ca (cs :: rest) Hl);
      [| discriminate | rewrite Hca; discriminate].
    erewrite (checkPop_top elm_Capabilities (XML_StopParser st) ca (cs :: rest));
      [| exact Hl | right; exact Hca].
    erewrite (checkPop_top elm_CoSimulation_Tool _ cs rest);
      [| reflexivity | right; exact Hcs].
    eexists. split; [reflexivity|]. cbn. split; reflexivity.
Qed.

Lemma CoSimulation_rule_witness :
  exists st',
    endElement "CoSimulation_StandAlone"
      {| stack := {| live := [mkCoSimulation elm_CoSimulation_StandAlone [] None None;
                              sample_root];
                     dead := [] |};
         data := None; skipData := true; stopped := false |} = Ret st' /\
    live (stack st') = [sample_root] /\ stopped st' = true.
Proof.
  destruct (CoSimulation_rule
              {| stack := {| live := [mkCoSimulation elm_CoSimulation_StandAlone []
                                        None None; sample_root];
                             dead := [] |};
                 data := None; skipData := true; stopped := false |}
              [sample_root]) as [_ [_ [Hlost _]]].
  exact (Hlost (mkCoSimulation elm_CoSimulation_StandAlone [] None None)
           eq_refl eq_refl).
Defined.

Lemma take_if_taken (cond : Element -> bool) (child : Element) (s : PState)
  (k : option Element -> Element -> PState -> outcome PState)
  (next : Element) (l : list Element) :
  cond child = true ->
  live (stack s) = next :: l ->
  take_if cond child s k
  = k (Some child) next
      (with_stack s {| live := l; dead := next :: dead (stack s) |}).
Proof.
  intros Hc Hl. unfold take_if. rewrite Hc.
  rewrite (checkPop_top elm_BAD_DEFINED s next l Hl (or_introl eq_refl)).
  reflexivity.
Qed.

Lemma take_if_skipped (cond : Element -> bool) (child : Element) (s : PState)
  (k : option Element -> Element -> PState -> outcome PState) :
  cond child = false -> take_if cond child s k = k None child s.
Proof. intros Hc. unfold take_if. rewrite Hc. reflexivity. Qed.

(** The kind of a node decides a test of the root rule. *)
Ltac kind_test :=
  cbv beta; unfold is_CoSimulation;
  repeat match goal with
         | H : type ?x = _ |- context [type ?x] => rewrite H
         end;
  reflexivity.

Ltac root_step :=
  first
    [ erewrite take_if_taken; [| kind_test | reflexivity]
    | rewrite take_if_skipped by kind_test ].

(** X13.  On the close event of the root, with the parts of the root on the
    stack above the root node, each one there or not, from the top: a
    co-simulation node, the ModelVariables, VendorAnnotations,
    DefaultExperiment, TypeDefinitions and UnitDefinitions nodes, and, when
    no co-simulation node was on top, a co-simulation node in this last
    place: the parts are popped and the root node is pushed back with the
    lists of the four list nodes, the DefaultExperiment node and the
    co-simulation node as its fields, absent parts as NULL; the parse is
    not stopped. *)
Theorem root_rule (st : PState) (cs mv va de td ud cs2 : option Element)
  (root : Element) (rest : list Element) :
  live (stack st)
  = part cs ++ part mv ++ part va ++ part de ++ part td ++ part ud ++ part cs2
    ++ root :: rest ->
  part_CoSimulation cs -> part_kind elm_ModelVariables mv ->
  part_kind elm_VendorAnnotations va -> part_kind elm_DefaultExperiment de ->
  part_kind elm_TypeDefinitions td -> part_kind elm_UnitDefinitions ud ->
  part_CoSimulation cs2 -> (cs <> None -> cs2 = None) ->
  type root = elm_fmiModelDescription ->
  exists st',
    endElement "fmiModelDescription" st = Ret st' /\
    live (stack st')
    = set_description (list_of mv) (list_of va) de (list_of td) (list_of ud)
        (match cs with Some _ => cs | None => cs2 end) root :: rest /\
    data st' = data st /\ skipData st' = skipData st /\ stopped st' = stopped st.
Proof.
  intros Hl Hcs Hmv Hva Hde Htd Hud Hcs2 Hone Hroot.
  change (endElement "fmiModelDescription" st) with (end_fmiModelDescription st).
  unfold end_fmiModelDescription.
  assert (Hfinal : forall (s : PState) mvl val del tdl udl csl,
             live (stack s) = rest ->
             exists st',
               (let '(ok, s1) := checkElementType root elm_fmiModelDescription s in
                if ok
                then endCheck elm_fmiModelDescription
                       (with_stack s1
                          (stackPush (stack s1)
                             (set_description mvl val del tdl udl csl root)))
                else Ret s1) = Ret st' /\
               live (stack st') = set_description mvl val del tdl udl csl root :: rest /\
               data st' = data s /\ skipData st' = skipData s /\
               stopped st' = stopped s).
  { intros s mvl val del tdl udl csl Hs. unfold checkElementType.
    rewrite Hroot, Elm_eqb_refl. unfold endCheck.
    erewrite (checkPeek_top elm_fmiModelDescription _ _ rest);
      [| unfold stackPush; cbn [with_stack stack live]; rewrite Hs; reflexivity
       | right; rewrite type_set_description; exact Hroot].
    eexists. split; [reflexivity|]. cbn. rewrite Hs. repeat split. }
  destruct cs as [cs|]; [destruct Hcs as [Hcs|Hcs];
                         rewrite (Hone ltac:(discriminate)) in * |];
    destruct mv as [mv|]; destruct va as [va|]; destruct de as [de|];
    destruct td as [td|]; destruct ud as [ud|];
    try (destruct cs2 as [cs2|]; [destruct Hcs2 as [Hcs2|Hcs2]|]);
    cbn [part app part_kind list_of] in *;
    (erewrite checkPop_top; [| exact Hl | left; reflexivity]);
    do 7 root_step;
    cbv zeta;
    match goal with
    | |- context [checkElementType root elm_fmiModelDescription ?s] =>
        match goal with
        | |- context [set_description ?a ?b ?c ?d ?e ?f root] =>
            destruct (Hfinal s a b c d e f) as [st' [H1 H2]]
        end
    end;
    try reflexivity;
    exists st'; (split; [exact H1 | exact H2]).
Qed.

Lemma root_rule_witness :
  exists st',
    endElement "fmiModelDescription"
      {| stack := {| live := [mkListElement elm_ModelVariables [] (Some [sample_x]);
                              sample_tool; sample_root];
                     dead := [] |};
         data := None; skipData := true; stopped := false |} = Ret st' /\
    live (stack st')
    = [mkModelDescription elm_fmiModelDescription [(att_modelName, Some "m")]
         None None None None (Some [sample_x]) (Some sample_tool)] /\
    stopped st' = false.
Proof.
  destruct (root_rule
              {| stack := {| live := [mkListElement elm_ModelVariables []
                                        (Some [sample_x]);
                                      sample_tool; sample_root];
                             dead := [] |};
                 data := None; skipData := true; stopped := false |}
              None (Some (mkListElement elm_ModelVariables [] (Some [sample_x])))
              None None None None (Some sample_tool) sample_root [])
    as [st' [Hend [Hlive [_ [_ Hstop]]]]];
    try exact I; try reflexivity.
  - right. reflexivity.
  - intros H. congruence.
  - exists st'. split; [exact Hend|]. split; [exact Hlive | exact Hstop].
Defined.

(** X14.  The close event of a name outside the element table only stops
    the parse.  The close event of an element of the plain shape other than
    Name and Implementation pops and pushes nothing: it leaves the state as
    it is when the node on top is of the kind of the element, and stops the
    parse when it is of another kind or the stack is empty. *)
Theorem leaf_rule (elm : string) (st : PState) :
  (~ In elm elmNames -> endElement elm st = Ret (XML_StopParser st)) /\
  (In elm elmNames ->
   getAstNodeType (checkElement elm) = astElement ->
   elm <> "Name" -> elm <> "Implementation" ->
   (forall x rest,
       live (stack st) = x :: rest -> name_of (type x) = elm ->
       type x <> elm_BAD_DEFINED ->
       endElement elm st = Ret st) /\
   (forall x rest,
       live (stack st) = x :: rest -> type x <> checkElement elm ->
       endElement elm st = Ret (XML_StopParser st)) /\
   (live (stack st) = [] -> endElement elm st = Ret (XML_StopParser st))).
Proof.
  split.
  - intros Hnin. unfold endElement, checkElement_cb.
    rewrite (checkElement_missing elm Hnin). reflexivity.
  - intros Hin Hshape Hname Himpl.
    destruct (checkElement_found elm Hin) as [Hg Hback].
    assert (Hend : endElement elm st = endCheck (checkElement elm) st).
    { unfold endElement, checkElement_cb. apply Elm_eqb_neq in Hg. rewrite Hg.
      destruct (checkElement elm) eqn:He; try discriminate; try reflexivity.
      - exfalso. apply Hname. rewrite <- Hback. reflexivity.
      - exfalso. apply Himpl. rewrite <- Hback. reflexivity. }
    rewrite Hend. unfold endCheck. split; [|split].
    + intros x rest Hl Hx Hxb.
      assert (Hty : type x = checkElement elm).
      { rewrite <- Hx. symmetry. apply checkElement_name_of. exact Hxb. }
      rewrite (checkPeek_top _ st x rest Hl (or_intror Hty)). reflexivity.
    + intros x rest Hl Hx.
      rewrite (checkPeek_wrong _ st x rest Hl Hg Hx). reflexivity.
    + intros Hl. unfold checkPeek. rewrite Hl. reflexivity.
Qed.

Lemma leaf_rule_witness :
  endElement "Bogus" sample_open_root = Ret (XML_StopParser sample_open_root) /\
  endElement "Real" sample_open_root = Ret (XML_StopParser sample_open_root).
Proof.
  split.
  - apply (proj1 (leaf_rule "Bogus" sample_open_root)).
    vm_compute. intros H; repeat (destruct H as [H|H]; [discriminate H|]); exact H.
  - destruct (proj2 (leaf_rule "Real" sample_open_root)) as [_ [Hwrong _]].
    + vm_compute. tauto.
    + reflexivity.
    + discriminate.
    + discriminate.
    + apply (Hwrong sample_root []); [reflexivity | discriminate].
Defined.

(** ** Runs *)

(** X15.  A run of events that ends without a stop reads and writes only
    the nodes it found on the stack and the ones it pushed: started with any
    further nodes under the stack, it ends with the same nodes above them,
    the same text buffer and the same flags. *)
Theorem run_above (evs : list Event) (B : list Element) (st st' : PState) :
  run evs st = Ret st' ->
  stopped st' = false ->
  exists st'',
    run evs (above B st) = Ret st'' /\
    live (stack st'') = live (stack st') ++ B /\
    data st'' = data st' /\ skipData st'' = skipData st' /\
    stopped st'' = false.
Proof.
  intros Hrun Hns.
  assert (HR : frame_rel B st (above B st)).
  { unfold frame_rel, above. cbn. tauto. }
  destruct (framed_run evs B st (above B st) st' HR Hrun Hns)
    as [st'' [H2 [Hl [Hd [Hk Hs]]]]].
  exists st''. split; [exact H2|]. split; [exact Hl|]. split; [exact Hd|].
  split; [exact Hk | congruence].
Qed.

Lemma run_above_witness :
  exists st'',
    run sample_tool_events (above [sample_root] (on_its_own sample_open_root))
    = Ret st'' /\
    live (stack st'') = [sample_tool; sample_root].
Proof.
  destruct (run_above sample_tool_events [sample_root]
              (on_its_own sample_open_root) sample_tool_end)
    as [st'' [Hrun [Hlive _]]].
  - vm_compute. reflexivity.
  - reflexivity.
  - exists st''. split; [exact Hrun | exact Hlive].
Defined.

(** ** Well-formed trees *)

Lemma well_formed_list_shape (e : Element) :
  well_formed e = true ->
  getAstNodeType (type e) = astListElement ->
  exists t a l, e = mkListElement t a l.
Proof.
  destruct e as [t a|t a l|t a ts|t a ts dd|t a ca mo|t a ud td de va mv cs];
    cbn [well_formed type]; intros Hwf Hshape.
  - rewrite Hshape in Hwf. discriminate.
  - exists t, a, l. reflexivity.
  - apply andb_true_iff in Hwf. destruct Hwf as [Ht _].
    apply Elm_eqb_eq in Ht. subst t. discriminate.
  - apply andb_true_iff in Hwf. destruct Hwf as [Hwf _].
    apply andb_true_iff in Hwf. destruct Hwf as [Ht _].
    apply Elm_eqb_eq in Ht. subst t. discriminate.
  - apply andb_true_iff in Hwf. destruct Hwf as [Hwf _].
    apply andb_true_iff in Hwf. destruct Hwf as [Ht _].
    unfold is_CoSimulation_kind in Ht. apply orb_true_iff in Ht.
    destruct Ht as [Ht|Ht]; apply Elm_eqb_eq in Ht; subst t; discriminate.
  - repeat (apply andb_true_iff in Hwf; destruct Hwf as [Hwf _]).
    apply Elm_eqb_eq in Hwf. subst t. discriminate.
Qed.

Lemma list_of_node_ok (K k : Elm) (o : option Element) :
  node_ok (fun t => Elm_eqb t K) o ->
  child_kind K = Some k ->
  list_ok k (list_of o).
Proof.
  destruct o as [x|]; cbn [node_ok list_of]; [|intros; exact I].
  intros [Hk Hwf] Hchild. apply Elm_eqb_eq in Hk.
  destruct x; cbn [ListElement_list]; try exact I.
  cbn [type] in Hk. subst. cbn [well_formed] in Hwf. rewrite Hchild in Hwf.
  destruct list_; [exact Hwf | exact I].
Qed.

Lemma well_formed_set_list (children : list Element) (node : Element) (el k : Elm) :
  well_formed node = true -> type node = el -> child_kind el = Some k ->
  Forall (fun c => type c = k /\ well_formed c = true) children ->
  well_formed (set_list children node) = true.
Proof.
  intros Hwf Hty Hk Hall. destruct node; cbn [set_list]; try exact Hwf.
  cbn [type] in Hty. subst. cbn [well_formed]. rewrite Hk.
  apply forallb_forall. intros c Hc.
  rewrite Forall_forall in Hall. destruct (Hall c Hc) as [Hck Hcw].
  unfold has_kind. rewrite Hck, Elm_eqb_refl, Hcw. reflexivity.
Qed.

Lemma well_formed_set_typeSpec (ts tp : Element) :
  well_formed tp = true -> is_typeSpec_of_Type (type ts) = true ->
  well_formed ts = true -> well_formed (set_typeSpec ts tp) = true.
Proof.
  intros Hwf Hk Hts. destruct tp; cbn [set_typeSpec]; try exact Hwf.
  cbn [well_formed] in *. apply andb_true_iff in Hwf. destruct Hwf as [Ht _].
  rewrite Ht, Hk, Hts. reflexivity.
Qed.

Lemma well_formed_set_variable (deps : option (list Element)) (ts sv : Element) :
  well_formed sv = true -> is_typeSpec_of_variable (type ts) = true ->
  well_formed ts = true -> list_ok elm_Name deps ->
  well_formed (set_variable deps ts sv) = true.
Proof.
  intros Hwf Hk Hts Hd. destruct sv; cbn [set_variable]; try exact Hwf.
  cbn [well_formed] in *. apply andb_true_iff in Hwf. destruct Hwf as [Hwf _].
  apply andb_true_iff in Hwf. destruct Hwf as [Ht _].
  rewrite Ht, Hk, Hts. cbn [andb]. destruct deps; [exact Hd | reflexivity].
Qed.

Lemma well_formed_set_capabilities (ca cs : Element) :
  well_formed cs = true -> type ca = elm_Capabilities ->
  well_formed ca = true -> well_formed (set_capabilities ca cs) = true.
Proof.
  intros Hwf Hk Hca. destruct cs; cbn [set_capabilities]; try exact Hwf.
  cbn [well_formed] in *. apply andb_true_iff in Hwf. destruct Hwf as [Hwf Hmo].
  apply andb_true_iff in Hwf. destruct Hwf as [Ht _].
  unfold has_kind at 1. rewrite Ht, Hk, Hca, Hmo. reflexivity.
Qed.

Lemma well_formed_set_model (mo cs : Element) :
  well_formed cs = true -> type mo = elm_Model ->
  well_formed mo = true -> well_formed (set_model mo cs) = true.
Proof.
  intros Hwf Hk Hmo. destruct cs; cbn [set_model]; try exact Hwf.
  cbn [well_formed] in *. apply andb_true_iff in Hwf. destruct Hwf as [Hwf _].
  rewrite Hwf. unfold has_kind. rewrite Hk, Hmo. reflexivity.
Qed.

Lemma well_formed_set_attributes (att : Attributes) (e : Element) :
  well_formed (set_attributes att e) = well_formed e.
Proof. destruct e; reflexivity. Qed.

Lemma well_formed_set_description mvl val de tdl udl cs (root : Element) :
  well_formed root = true ->
  list_ok elm_ScalarVariable mvl -> list_ok elm_Tool val ->
  node_ok (fun t => Elm_eqb t elm_DefaultExperiment) de ->
  list_ok elm_Type tdl -> list_ok elm_BaseUnit udl ->
  node_ok is_CoSimulation_kind cs ->
  well_formed (set_description mvl val de tdl udl cs root) = true.
Proof.
  intros Hwf Hmv Hva Hde Htd Hud Hcs.
  destruct root; cbn [set_description]; try exact Hwf.
  cbn [well_formed] in *.
  repeat (apply andb_true_iff in Hwf; destruct Hwf as [Hwf _]).
  rewrite Hwf. cbn [andb].
  repeat (apply andb_true_iff; split).
  - destruct udl; [exact Hud | reflexivity].
  - destruct tdl; [exact Htd | reflexivity].
  - destruct de as [c|]; [|reflexivity]. destruct Hde as [Hk Hc].
    unfold has_kind. rewrite Hk, Hc. reflexivity.
  - destruct val; [exact Hva | reflexivity].
  - destruct mvl; [exact Hmv | reflexivity].
  - destruct cs as [c|]; [|reflexivity]. destruct Hcs as [Hk Hc].
    rewrite Hk, Hc. reflexivity.
Qed.

Lemma checkPop_well_formed (e : Elm) (s s' : PState) (x : Element) :
  checkPop e s = (Some x, s') ->
  stack_well_formed s ->
  well_formed x = true /\ stack_well_formed s' /\
  stopped s' = stopped s /\ (e = elm_BAD_DEFINED \/ type x = e).
Proof.
  intros Hp Hwf. destruct (checkPop_some e s s' x Hp) as [l [Hl ->]].
  unfold stack_well_formed in *. rewrite Hl in Hwf.
  inversion Hwf as [|? ? Hx Hrest]; subst.
  split; [exact Hx|]. split; [exact Hrest|]. split; [reflexivity|].
  unfold checkPop, checkPeek, checkElementType in Hp. rewrite Hl in Hp.
  destruct (Elm_eqb e elm_BAD_DEFINED) eqn:Hb.
  - left. apply Elm_eqb_eq. exact Hb.
  - right. destruct (Elm_eqb (type x) e) eqn:Hx'; [|discriminate].
    apply Elm_eqb_eq. exact Hx'.
Qed.

Lemma endCheck_ok (el : Elm) (s s' : PState) :
  endCheck el s = Ret s' -> stopped s' = false ->
  s' = s /\
  exists x l, live (stack s) = x :: l /\ (el = elm_BAD_DEFINED \/ type x = el).
Proof.
  unfold endCheck. intros H Hns. injection H as <-.
  destruct (checkPeek el s) as [[|] s0] eqn:Hp; cbn [snd] in *.
  - destruct (checkPeek_true el s s0 Hp) as [-> Hne]. split; [reflexivity|].
    unfold checkPeek, checkElementType in Hp.
    destruct (live (stack s)) as [|x l]; [congruence|]. exists x, l.
    split; [reflexivity|].
    destruct (Elm_eqb el elm_BAD_DEFINED) eqn:Hb.
    + left. apply Elm_eqb_eq. exact Hb.
    + right. destruct (Elm_eqb (type x) el) eqn:Hx; [|discriminate].
      apply Elm_eqb_eq. exact Hx.
  - rewrite (checkPeek_false el s s0 Hp) in Hns. discriminate.
Qed.

Lemma keeps_endCheck (el : Elm) : keeps_well_formed (endCheck el).
Proof.
  intros st st' H Hns Hwf. destruct (endCheck_ok el st st' H Hns) as [-> _].
  exact Hwf.
Qed.

Lemma stack_well_formed_push (s : PState) (x : Element) :
  stack_well_formed s -> well_formed x = true ->
  stack_well_formed (with_stack s (stackPush (stack s) x)).
Proof. intros Hwf Hx. unfold stack_well_formed in *. cbn. constructor; assumption. Qed.

Lemma keeps_end_popList (child el : Elm) :
  child_kind el = Some child -> keeps_well_formed (end_popList child el).
Proof.
  intros Hk st st' H Hns Hwf. unfold end_popList in H.
  destruct (popList child st) as [s1|] eqn:Hp; [|discriminate]. cbn [bind] in H.
  destruct (endCheck_ok el s1 st' H Hns) as [-> [x [l [Hl Hx]]]].
  destruct Hx as [Hx|Hx]; [subst el; discriminate|].
  destruct (popList_inv child st s1 Hp) as [popped [node [rest [Hlive [Hall Hn]]]]].
  destruct (popList_run child st popped node rest Hlive Hall Hn) as [dd Hrun].
  rewrite Hrun in Hp. injection Hp as <-.
  unfold stack_well_formed in *. cbn [with_stack stack live] in *.
  rewrite Hlive in Hwf. apply Forall_app in Hwf. destruct Hwf as [Hpop Hrest].
  pose proof (Forall_inv Hrest) as Hnode. cbv beta in Hnode.
  pose proof (Forall_inv_tail Hrest) as Hrest'.
  injection Hl as <- <-. constructor; [|exact Hrest'].
  assert (Hty : type node = el).
  { destruct (is_astListElement (getAstNodeType (type node)));
      [destruct node|]; exact Hx. }
  replace (is_astListElement (getAstNodeType (type node))) with true
    by (rewrite Hty; destruct el; try discriminate; reflexivity).
  apply (well_formed_set_list (rev popped) node el child Hnode Hty Hk).
  apply Forall_rev. rewrite Forall_forall in *. intros c Hc.
  split; [exact (Hall c Hc) | exact (Hpop c Hc)].
Qed.

(** A pop in a run on a well-formed stack: the node popped is well formed
    and of the kind asked for, or the parse is stopped. *)
Ltac wf_pop c sa Hc Hwf' Hk :=
  match goal with
  | Hwf : stack_well_formed ?s, H : context [checkPop ?e ?s] |- _ =>
      let Hp := fresh "Hp" in
      destruct (checkPop e s) as [[c|] sa] eqn:Hp;
      [ destruct (checkPop_well_formed e s sa c Hp Hwf) as [Hc [Hwf' [_ Hk]]];
        clear Hwf Hp; cbv beta iota in H
      | let Hst := fresh "Hst" in
        pose proof (checkPop_none e s sa Hp) as Hst; clear Hwf Hp;
        cbv beta iota in H ]
  end.

Ltac stopped_rest :=
  repeat stopped_pop;
  repeat match goal with c : option Element |- _ => destruct c end;
  stopped_end.

Lemma stack_well_formed_update (s : PState) (f : Element -> Element) :
  stack_well_formed s ->
  (forall x, well_formed x = true -> well_formed (f x) = true) ->
  stack_well_formed (with_stack s (stackUpdateTop f (stack s))).
Proof.
  intros Hwf Hf. unfold stack_well_formed, stackUpdateTop in *.
  destruct (live (stack s)) as [|x l] eqn:Hl; cbn [with_stack stack live].
  - rewrite Hl. constructor.
  - constructor; [apply Hf; exact (Forall_inv Hwf) | exact (Forall_inv_tail Hwf)].
Qed.

Lemma keeps_end_Implementation : keeps_well_formed end_Implementation.
Proof.
  intros st st' H Hns Hwf. unfold end_Implementation in H.
  wf_pop cs s1 Hcs Hwf1 Hk1; [|stopped_rest].
  wf_pop im s2 Him Hwf2 Hk2; [|stopped_rest].
  exact (keeps_endCheck _ _ st' H Hns (stack_well_formed_push s2 cs Hwf2 Hcs)).
Qed.

Lemma keeps_end_CoSimulation_StandAlone :
  keeps_well_formed end_CoSimulation_StandAlone.
Proof.
  intros st st' H Hns Hwf. unfold end_CoSimulation_StandAlone in H.
  wf_pop ca s1 Hca Hwf1 Hk1; [|stopped_rest].
  wf_pop cs s2 Hcs Hwf2 Hk2; [|stopped_rest].
  destruct Hk1 as [Hk1|Hk1]; [discriminate|].
  refine (keeps_endCheck _ _ st' H Hns (stack_well_formed_push s2 _ Hwf2 _)).
  apply well_formed_set_capabilities; assumption.
Qed.

Lemma keeps_end_CoSimulation_Tool : keeps_well_formed end_CoSimulation_Tool.
Proof.
  intros st st' H Hns Hwf. unfold end_CoSimulation_Tool in H.
  wf_pop mo s1 Hmo Hwf1 Hk1; [|stopped_rest].
  wf_pop ca s2 Hca Hwf2 Hk2; [|stopped_rest].
  wf_pop cs s3 Hcs Hwf3 Hk3; [|stopped_rest].
  destruct Hk1 as [Hk1|Hk1]; [discriminate|].
  destruct Hk2 as [Hk2|Hk2]; [discriminate|].
  refine (keeps_endCheck _ _ st' H Hns (stack_well_formed_push s3 _ Hwf3 _)).
  apply well_formed_set_model; [|assumption|assumption].
  apply well_formed_set_capabilities; assumption.
Qed.

Lemma keeps_end_Type : keeps_well_formed end_Type.
Proof.
  intros st st' H Hns Hwf. unfold end_Type in H.
  wf_pop ts s1 Hts Hwf1 Hk1; [|stopped_rest].
  destruct (checkPeek elm_Type s1) as [[|] s0] eqn:Hpk.
  - destruct (checkPeek_true _ s1 s0 Hpk) as [-> _].
    destruct (is_typeSpec_of_Type (type ts)) eqn:Hkind.
    + refine (keeps_endCheck _ _ st' H Hns (stack_well_formed_update s1 _ Hwf1 _)).
      intros x Hx. apply well_formed_set_typeSpec; assumption.
    + injection H as <-. discriminate.
  - injection H as <-. rewrite (checkPeek_false _ s1 s0 Hpk) in Hns. discriminate.
Qed.

Lemma keeps_end_ScalarVariable_with (deps : option (list Element)) (child : Element) :
  well_formed child = true -> list_ok elm_Name deps ->
  keeps_well_formed (end_ScalarVariable_with deps child).
Proof.
  intros Hchild Hdeps st st' H Hns Hwf. unfold end_ScalarVariable_with in H.
  destruct (checkPeek elm_ScalarVariable st) as [[|] s0] eqn:Hpk.
  - destruct (checkPeek_true _ st s0 Hpk) as [-> _].
    destruct (is_typeSpec_of_variable (type child)) eqn:Hkind.
    + refine (keeps_endCheck _ _ st' H Hns (stack_well_formed_update st _ Hwf _)).
      intros x Hx. apply well_formed_set_variable; assumption.
    + injection H as <-. discriminate.
  - injection H as <-. rewrite (checkPeek_false _ st s0 Hpk) in Hns. discriminate.
Qed.

Lemma keeps_end_ScalarVariable : keeps_well_formed end_ScalarVariable.
Proof.
  intros st st' H Hns Hwf. unfold end_ScalarVariable in H.
  wf_pop child s1 Hchild Hwf1 Hk1; [|stopped_rest].
  destruct (Elm_eqb (type child) elm_DirectDependency) eqn:Hdd.
  - wf_pop ts s2 Hts Hwf2 Hk2; [|stopped_rest].
    refine (keeps_end_ScalarVariable_with _ ts Hts _ s2 st' H Hns Hwf2).
    apply (list_of_node_ok elm_DirectDependency elm_Name (Some child));
      [split; assumption | reflexivity].
  - exact (keeps_end_ScalarVariable_with None child Hchild I s1 st' H Hns Hwf1).
Qed.

Lemma keeps_end_Name : keeps_well_formed end_Name.
Proof.
  intros st st' H Hns Hwf. unfold end_Name in H.
  wf_pop name s1 Hname Hwf1 Hk1; [|stopped_rest].
  refine (keeps_endCheck _ _ st' H Hns _).
  unfold stack_well_formed, stackPush in *. cbn [stack live].
  constructor; [|exact Hwf1]. rewrite well_formed_set_attributes. exact Hname.
Qed.

Lemma take_if_inv (cond : Element -> bool) (child : Element)
  (k : option Element -> Element -> PState -> outcome PState) (s s' : PState) :
  take_if cond child s k = Ret s' -> stopped s' = false ->
  well_formed child = true -> stack_well_formed s ->
  exists taken c s0,
    k taken c s0 = Ret s' /\ well_formed c = true /\ stack_well_formed s0 /\
    match taken with
    | Some x => cond x = true /\ well_formed x = true
    | None => True
    end.
Proof.
  intros H Hns Hchild Hwf. unfold take_if in H.
  destruct (cond child) eqn:Hc.
  - wf_pop next s1 Hnext Hwf1 Hk1; [|stopped_rest].
    exists (Some child), next, s1. tauto.
  - exists None, child, s. tauto.
Qed.

Lemma keeps_end_fmiModelDescription : keeps_well_formed end_fmiModelDescription.
Proof.
  intros st st' H Hns Hwf. unfold end_fmiModelDescription in H.
  wf_pop c0 s0 Hc0 Hwf0 Hk0; [|discriminate].
  destruct (take_if_inv _ _ _ _ _ H Hns Hc0 Hwf0)
    as [cs [c1 [s1 [H1 [Hc1 [Hwf1 Hcs]]]]]]. clear H.
  destruct (take_if_inv _ _ _ _ _ H1 Hns Hc1 Hwf1)
    as [mv [c2 [s2 [H2 [Hc2 [Hwf2 Hmv]]]]]]. clear H1.
  destruct (take_if_inv _ _ _ _ _ H2 Hns Hc2 Hwf2)
    as [va [c3 [s3 [H3 [Hc3 [Hwf3 Hva]]]]]]. clear H2.
  destruct (take_if_inv _ _ _ _ _ H3 Hns Hc3 Hwf3)
    as [de [c4 [s4 [H4 [Hc4 [Hwf4 Hde]]]]]]. clear H3.
  destruct (take_if_inv _ _ _ _ _ H4 Hns Hc4 Hwf4)
    as [td [c5 [s5 [H5 [Hc5 [Hwf5 Htd]]]]]]. clear H4.
  destruct (take_if_inv _ _ _ _ _ H5 Hns Hc5 Hwf5)
    as [ud [c6 [s6 [H6 [Hc6 [Hwf6 Hud]]]]]]. clear H5.
  destruct (take_if_inv _ _ _ _ _ H6 Hns Hc6 Hwf6)
    as [cs2 [c7 [s7 [H7 [Hc7 [Hwf7 Hcs2]]]]]]. clear H6.
  cbv zeta in H7. unfold checkElementType in H7.
  destruct (Elm_eqb (type c7) elm_fmiModelDescription); cbv beta iota in H7.
  2:{ injection H7 as <-. discriminate. }
  refine (keeps_endCheck _ _ st' H7 Hns (stack_well_formed_push s7 _ Hwf7 _)).
  apply well_formed_set_description.
  - exact Hc7.
  - apply (list_of_node_ok elm_ModelVariables); [|reflexivity].
    destruct mv; [exact Hmv | exact I].
  - apply (list_of_node_ok elm_VendorAnnotations); [|reflexivity].
    destruct va; [exact Hva | exact I].
  - destruct de; [exact Hde | exact I].
  - apply (list_of_node_ok elm_TypeDefinitions); [|reflexivity].
    destruct td; [exact Htd | exact I].
  - apply (list_of_node_ok elm_UnitDefinitions); [|reflexivity].
    destruct ud; [exact Hud | exact I].
  - destruct cs as [x|]; [exact Hcs|].
    destruct cs2 as [y|]; [exact Hcs2 | exact I].
Qed.

Lemma keeps_endElement (elm : string) : keeps_well_formed (endElement elm).
Proof.
  intros st st' H Hns Hwf. unfold endElement, checkElement_cb in H.
  destruct (Elm_eqb (checkElement elm) elm_BAD_DEFINED) eqn:Hbad.
  - apply Elm_eqb_eq in Hbad. rewrite Hbad in H. injection H as <-. discriminate.
  - destruct (checkElement elm); try discriminate;
      first
        [ exact (keeps_end_fmiModelDescription st st' H Hns Hwf)
        | exact (keeps_end_Implementation st st' H Hns Hwf)
        | exact (keeps_end_CoSimulation_StandAlone st st' H Hns Hwf)
        | exact (keeps_end_CoSimulation_Tool st st' H Hns Hwf)
        | exact (keeps_end_Type st st' H Hns Hwf)
        | exact (keeps_end_ScalarVariable st st' H Hns Hwf)
        | exact (keeps_end_Name st st' H Hns Hwf)
        | refine (keeps_end_popList _ _ _ st st' H Hns Hwf); reflexivity
        | exact (keeps_endCheck _ st st' H Hns Hwf) ].
Qed.

(** [startElement] pushes a well-formed node or none. *)
Lemma stack_well_formed_startElement (elm : string) (attr : list (string * string))
  (st : PState) :
  stack_well_formed st -> stack_well_formed (startElement elm attr st).
Proof.
  intros Hwf. unfold startElement, checkElement_cb.
  destruct (Elm_eqb (checkElement elm) elm_BAD_DEFINED) eqn:Hbad; [exact Hwf|].
  destruct (newElement (checkElement elm) (getAstNodeType (checkElement elm)) attr)
    as [e|] eqn:Hnew; [|exact Hwf].
  apply Elm_eqb_neq in Hbad.
  unfold stack_well_formed, stackPush in *. cbn [with_stack stack live].
  constructor; [exact (newElement_well_formed _ attr e Hbad Hnew) | exact Hwf].
Qed.

Lemma keeps_step (ev : Event) : keeps_well_formed (step ev).
Proof.
  destruct ev as [name attr|name|chunk|name attr]; cbn [step].
  - intros st st' H Hns Hwf. injection H as <-.
    apply stack_well_formed_startElement. exact Hwf.
  - apply keeps_endElement.
  - intros st st' H Hns Hwf. injection H as <-.
    unfold stack_well_formed, handleData in *.
    destruct (skipData st); exact Hwf.
  - intros st st' H Hns Hwf.
    exact (keeps_endElement name _ st' H Hns
             (stack_well_formed_startElement name attr st Hwf)).
Qed.

Lemma keeps_run (evs : list Event) : keeps_well_formed (run evs).
Proof.
  induction evs as [|ev evs IH]; intros st st' H Hns Hwf; cbn [run] in H.
  - injection H as <-. exact Hwf.
  - destruct (stopped st) eqn:Hs.
    + injection H as <-. exact Hwf.
    + destruct (step ev st) as [s1|] eqn:Hstep; [|discriminate]. cbn [bind] in H.
      assert (Hs1 : stopped s1 = false).
      { destruct (stopped s1) eqn:Hs1; [|reflexivity].
        rewrite (run_stopped evs s1 Hs1) in H. injection H as <-. congruence. }
      exact (IH s1 st' H Hns (keeps_step ev st s1 Hstep Hs1 Hwf)).
Qed.

Lemma as_ModelDescription_inv (e e' : Element) :
  as_ModelDescription e = Ret e' -> e' = e.
Proof. destruct e; intros H; try discriminate H. injection H as <-. reflexivity. Qed.

(** X16.  Whatever the events, a run from the initial state that ends
    without a stop leaves only well-formed nodes on the stack, and the tree
    that [parse] returns is well formed: every node has the shape of its
    kind, every list holds nodes of the child kind of its element, the
    type-spec of a Type and of a variable is of one of the kinds of the
    rule, the dependencies of a variable are Name nodes, and the parts of
    the root are of the kinds of its rule. *)
Theorem parse_well_formed (evs : list Event) :
  (forall st,
      run evs initial = Ret st -> stopped st = false -> stack_well_formed st) /\
  (forall md, parse evs = Ret (Some md) -> well_formed md = true).
Proof.
  assert (Hrun : forall st,
             run evs initial = Ret st -> stopped st = false -> stack_well_formed st).
  { intros st H Hns. apply (keeps_run evs initial st H Hns). constructor. }
  split; [exact Hrun|].
  intros md H. unfold parse in H.
  destruct (run evs initial) as [st|] eqn:Hr; [|discriminate]. cbn [bind] in H.
  destruct (stopped st) eqn:Hs; [discriminate|].
  specialize (Hrun st eq_refl Hs). unfold stackPop in H.
  unfold stack_well_formed in Hrun.
  destruct (live (stack st)) as [|root l]; [discriminate|]. cbn [bind] in H.
  destruct (stackIsEmpty _); [|discriminate].
  destruct (as_ModelDescription root) as [md0|] eqn:Hcast; [|discriminate].
  apply as_ModelDescription_inv in Hcast. subst md0. cbn [bind] in H.
  unfold validate in H. destruct (validate_errors root) as [n|]; [|discriminate].
  cbn [bind] in H. destruct (negb (n =? 0)); [discriminate|].
  injection H as <-. exact (Forall_inv Hrun).
Qed.

Lemma parse_well_formed_witness :
  exists md, parse sample_bare = Ret (Some md) /\ well_formed md = true.
Proof.
  eexists. split; [vm_compute; reflexivity|].
  apply (proj2 (parse_well_formed sample_bare)). vm_compute. reflexivity.
Defined.

(** A document whose one element is not the root: the node left on the stack
    is read as a root through the cast. *)
Lemma parse_other_node : parse [Empty "Real" []] = Abort.
Proof. reflexivity. Qed.

(** ** Names outside the vocabulary *)

(** The callbacks never take a stop back. *)
Lemma checkPeek_stopped (e : Elm) (s : PState) :
  stopped s = true -> stopped (snd (checkPeek e s)) = true.
Proof.
  intros Hs. unfold checkPeek, checkElementType.
  destruct (live (stack s)) as [|top l]; [reflexivity|].
  destruct (Elm_eqb e elm_BAD_DEFINED); [exact Hs|].
  destruct (Elm_eqb (type top) e); [exact Hs | reflexivity].
Qed.

Lemma stays_endCheck (el : Elm) : stays_stopped (endCheck el).
Proof.
  intros st st' Hs H. unfold endCheck in H. injection H as <-.
  apply checkPeek_stopped. exact Hs.
Qed.

Lemma stays_popList (e : Elm) : stays_stopped (popList e).
Proof.
  intros st st' Hs H. unfold popList in H.
  destruct (stackPop (stack st)) as [[elm0 s0]|]; [|discriminate]. cbn [bind] in H.
  destruct (popList_while e elm0 (live s0) (dead s0) 0) as [[[elm s1] n]|];
    [|discriminate]. cbn [bind] in H.
  destruct (is_astListElement (getAstNodeType (type elm)));
    injection H as <-; exact Hs.
Qed.

Lemma stays_end_popList (child el : Elm) : stays_stopped (end_popList child el).
Proof.
  intros st st' Hs H. unfold end_popList in H.
  destruct (popList child st) as [s1|] eqn:Hp; [|discriminate]. cbn [bind] in H.
  exact (stays_endCheck el s1 st' (stays_popList child st s1 Hs Hp) H).
Qed.

Lemma stays_take_if (cond : Element -> bool) (child : Element)
  (k : option Element -> Element -> PState -> outcome PState) :
  (forall taken c, stays_stopped (k taken c)) ->
  stays_stopped (fun st => take_if cond child st k).
Proof.
  intros Hk st st' Hs H. unfold take_if in H.
  destruct (cond child).
  - pose proof (checkPop_stopped elm_BAD_DEFINED st Hs) as Hs1.
    destruct (checkPop elm_BAD_DEFINED st) as [[next|] s1]; cbn [snd] in Hs1.
    + exact (Hk _ _ s1 st' Hs1 H).
    + injection H as <-. exact Hs1.
  - exact (Hk _ _ st st' Hs H).
Qed.

(** The next pop of a callback that runs in a stopped parse. *)
Ltac stays_pop c s1 Hs1 :=
  match goal with
  | Hs : stopped ?s = true, H : context [checkPop ?e ?s] |- _ =>
      pose proof (checkPop_stopped e s Hs) as Hs1;
      destruct (checkPop e s) as [c s1]; cbn [snd] in Hs1; clear Hs;
      cbv beta iota in H
  end.

Ltac stays_done :=
  match goal with
  | H : Ret _ = Ret _ |- _ => injection H as <-; first [assumption | reflexivity]
  | Hs : stopped ?s = true, H : endCheck ?el _ = Ret ?s' |- stopped ?s' = true =>
      refine (stays_endCheck el _ s' _ H); exact Hs
  end.

Lemma stays_end_Implementation : stays_stopped end_Implementation.
Proof.
  intros st st' Hs H. unfold end_Implementation in H.
  stays_pop cs s1 Hs1. stays_pop im s2 Hs2.
  destruct cs, im; stays_done.
Qed.

Lemma stays_end_CoSimulation_StandAlone : stays_stopped end_CoSimulation_StandAlone.
Proof.
  intros st st' Hs H. unfold end_CoSimulation_StandAlone in H.
  stays_pop ca s1 Hs1. stays_pop cs s2 Hs2.
  destruct ca, cs; stays_done.
Qed.

Lemma stays_end_CoSimulation_Tool : stays_stopped end_CoSimulation_Tool.
Proof.
  intros st st' Hs H. unfold end_CoSimulation_Tool in H.
  stays_pop mo s1 Hs1. stays_pop ca s2 Hs2. stays_pop cs s3 Hs3.
  destruct ca, mo, cs; stays_done.
Qed.

Lemma stays_end_Type : stays_stopped end_Type.
Proof.
  intros st st' Hs H. unfold end_Type in H.
  stays_pop ts s1 Hs1. destruct ts as [ts|]; [|stays_done].
  pose proof (checkPeek_stopped elm_Type s1 Hs1) as Hs2.
  destruct (checkPeek elm_Type s1) as [[|] s2]; cbn [snd] in Hs2; [|stays_done].
  destruct (is_typeSpec_of_Type (type ts)); stays_done.
Qed.

Lemma stays_end_ScalarVariable_with (deps : option (list Element)) (child : Element) :
  stays_stopped (end_ScalarVariable_with deps child).
Proof.
  intros st st' Hs H. unfold end_ScalarVariable_with in H.
  pose proof (checkPeek_stopped elm_ScalarVariable st Hs) as Hs2.
  destruct (checkPeek elm_ScalarVariable st) as [[|] s2]; cbn [snd] in Hs2;
    [|stays_done].
  destruct (is_typeSpec_of_variable (type child)); stays_done.
Qed.

Lemma stays_end_ScalarVariable : stays_stopped end_ScalarVariable.
Proof.
  intros st st' Hs H. unfold end_ScalarVariable in H.
  stays_pop child s1 Hs1. destruct child as [child|]; [|stays_done].
  destruct (Elm_eqb (type child) elm_DirectDependency).
  - stays_pop next s2 Hs2. destruct next as [next|]; [|stays_done].
    exact (stays_end_ScalarVariable_with _ _ s2 st' Hs2 H).
  - exact (stays_end_ScalarVariable_with _ _ s1 st' Hs1 H).
Qed.

Lemma stays_end_Name : stays_stopped end_Name.
Proof.
  intros st st' Hs H. unfold end_Name in H.
  stays_pop name s1 Hs1. destruct name as [name|]; [|stays_done].
  refine (stays_endCheck elm_Name _ st' _ H). exact Hs1.
Qed.

Lemma stays_end_fmiModelDescription : stays_stopped end_fmiModelDescription.
Proof.
  intros st st' Hs H. unfold end_fmiModelDescription in H.
  stays_pop top s0 Hs0. destruct top as [child|]; [|discriminate].
  revert s0 st' Hs0 H.
  do 7 (apply stays_take_if; intros ? ?).
  intros s st' Hs H. cbv zeta in H. unfold checkElementType in H.
  match type of H with
  | context [Elm_eqb (type ?x) elm_fmiModelDescription] =>
      destruct (Elm_eqb (type x) elm_fmiModelDescription)
  end.
  - refine (stays_endCheck _ _ st' _ H). exact Hs.
  - injection H as <-. reflexivity.
Qed.

Lemma stays_endElement (elm : string) : stays_stopped (endElement elm).
Proof.
  intros st st' Hs H. unfold endElement, checkElement_cb in H.
  assert (Hs' : stopped (if Elm_eqb (checkElement elm) elm_BAD_DEFINED
                         then XML_StopParser st else st) = true)
    by (destruct (Elm_eqb (checkElement elm) elm_BAD_DEFINED); [reflexivity | exact Hs]).
  revert Hs' H.
  generalize (if Elm_eqb (checkElement elm) elm_BAD_DEFINED
              then XML_StopParser st else st).
  intros s Hs' H.
  destruct (checkElement elm); try discriminate;
    first
      [ exact (stays_end_fmiModelDescription s st' Hs' H)
      | exact (stays_end_Implementation s st' Hs' H)
      | exact (stays_end_CoSimulation_StandAlone s st' Hs' H)
      | exact (stays_end_CoSimulation_Tool s st' Hs' H)
      | exact (stays_end_Type s st' Hs' H)
      | exact (stays_end_ScalarVariable s st' Hs' H)
      | exact (stays_end_Name s st' Hs' H)
      | exact (stays_end_popList _ _ s st' Hs' H)
      | exact (stays_endCheck _ s st' Hs' H)
      | (injection H as <-; exact Hs') ].
Qed.

(** [startElement] stops the parse on a name outside the tables. *)
Lemma startElement_outside (name : string) (attr : list (string * string))
  (st : PState) :
  (~ In name elmNames \/ exists n v, In (n, v) attr /\ ~ In n attNames) ->
  stopped (startElement name attr st) = true.
Proof.
  intros Hout. unfold startElement, checkElement_cb.
  destruct (Elm_eqb (checkElement name) elm_BAD_DEFINED) eqn:Hbad; [reflexivity|].
  destruct Hout as [Hnin|Hattr].
  - rewrite (checkElement_missing name Hnin) in Hbad. discriminate.
  - apply (proj2 (newElement_none (checkElement name)
                    (getAstNodeType (checkElement name)) attr)) in Hattr.
    rewrite Hattr. reflexivity.
Qed.

Lemma step_outside_vocabulary (ev : Event) (st : PState) :
  outside_vocabulary ev ->
  (forall st', step ev st = Ret st' -> stopped st' = true) /\
  (~ known_empty_tag ev -> exists st', step ev st = Ret st').
Proof.
  destruct ev as [name attr|name|chunk|name attr];
    cbn [outside_vocabulary known_empty_tag step].
  - intros Hout. split.
    + intros st' H. injection H as <-. apply startElement_outside. exact Hout.
    + intros _. eexists. reflexivity.
  - intros Hnin. unfold endElement, checkElement_cb.
    rewrite (checkElement_missing name Hnin). split.
    + intros st' H. injection H as <-. reflexivity.
    + intros _. eexists. reflexivity.
  - intros [].
  - intros Hout. split.
    + intros st' H.
      exact (stays_endElement name _ st' (startElement_outside name attr st Hout) H).
    + intros Hnin. unfold endElement, checkElement_cb.
      rewrite (checkElement_missing name Hnin). eexists. reflexivity.
Qed.

(** X17.  An event with a name outside the vocabulary (a start tag, an end
    tag or an empty-element tag with an element name outside the element
    table, or a start tag or an empty-element tag with an attribute name
    outside the attribute table) stops the parse: whatever comes after it,
    as long as the events before it run, [parse] returns no tree.  It returns
    NULL, except for an empty-element tag of a known element, where
    [endElement] still runs after the stop, on a stack without the node of
    the element, and [parse] returns NULL or ends in a failed dereference of
    NULL, as it does for such a tag of the root element as the whole
    document. *)
Theorem parse_outside_vocabulary (pre post : list Event) (ev : Event) (st : PState) :
  run pre initial = Ret st ->
  outside_vocabulary ev ->
  (forall md, parse (pre ++ ev :: post) <> Ret (Some md)) /\
  (parse (pre ++ ev :: post) = Ret None \/ parse (pre ++ ev :: post) = Abort) /\
  (~ known_empty_tag ev -> parse (pre ++ ev :: post) = Ret None) /\
  (stopped st = true -> parse (pre ++ ev :: post) = Ret None).
Proof.
  intros Hpre Hout.
  assert (Hstopped : stopped st = true -> parse (pre ++ ev :: post) = Ret None).
  { intros Hs. unfold parse. rewrite run_app, Hpre. cbn [bind run].
    rewrite Hs. cbn [bind]. rewrite Hs. reflexivity. }
  assert (Hcases : (parse (pre ++ ev :: post) = Ret None \/
                    parse (pre ++ ev :: post) = Abort) /\
                   (~ known_empty_tag ev -> parse (pre ++ ev :: post) = Ret None)).
  { destruct (stopped st) eqn:Hs.
    - split; [left|intros _]; exact (Hstopped eq_refl).
    - destruct (step_outside_vocabulary ev st Hout) as [Hstop Hret].
      unfold parse. rewrite run_app, Hpre. cbn [bind run]. rewrite Hs.
      destruct (step ev st) as [s1|] eqn:Hstep; cbn [bind].
      + specialize (Hstop s1 eq_refl). rewrite (run_stopped post s1 Hstop).
        cbn [bind]. rewrite Hstop. split; [left|intros _]; reflexivity.
      + split; [right; reflexivity|]. intros Hne.
        destruct (Hret Hne) as [s1 Hs1]. discriminate Hs1. }
  destruct Hcases as [Hor Hne].
  split; [|split; [exact Hor|split; [exact Hne | exact Hstopped]]].
  intros md H. destruct Hor as [Hor|Hor]; rewrite Hor in H; discriminate H.
Qed.

Lemma parse_outside_vocabulary_witness :
  parse (sample_prefix ++ Open "Bogus" [] :: [Close "Bogus"; Close "fmiModelDescription"])
  = Ret None /\
  parse (sample_prefix ++ Empty "Bogus" [] :: [Close "fmiModelDescription"])
  = Ret None /\
  parse ([] ++ [Empty "fmiModelDescription" [("bogus", "1")]]) = Abort /\
  forall md,
    parse ([] ++ [Empty "fmiModelDescription" [("bogus", "1")]]) <> Ret (Some md).
Proof.
  assert (Hbogus : ~ In "Bogus" elmNames).
  { vm_compute.
    intros H; repeat (destruct H as [H|H]; [discriminate H|]); exact H. }
  assert (Hatt : exists n v,
             In (n, v) [("bogus", "1")] /\ ~ In n attNames).
  { exists "bogus", "1". split; [left; reflexivity|]. vm_compute.
    intros H; repeat (destruct H as [H|H]; [discriminate H|]); exact H. }
  split; [|split; [|split]].
  - destruct (parse_outside_vocabulary sample_prefix
                [Close "Bogus"; Close "fmiModelDescription"] (Open "Bogus" [])
                sample_open_root eq_refl (or_introl Hbogus)) as [_ [_ [Hnull _]]].
    apply Hnull. intros [].
  - destruct (parse_outside_vocabulary sample_prefix
                [Close "fmiModelDescription"] (Empty "Bogus" [])
                sample_open_root eq_refl (or_introl Hbogus)) as [_ [_ [Hnull _]]].
    apply Hnull. exact Hbogus.
  - vm_compute. reflexivity.
  - destruct (parse_outside_vocabulary [] []
                (Empty "fmiModelDescription" [("bogus", "1")])
                initial eq_refl (or_intror Hatt)) as [Hnone _].
    exact Hnone.
Defined.

(** ** What a validated tree guarantees *)

Lemma validate_loop_result (md : Element) (vars : list Element) :
  forall error n,
    validate_loop md vars error = Ret n ->
    error <= n /\
    (n = error ->
     forall sv dt,
       In sv vars -> declaredType_of sv = Some dt ->
       exists tp, getDeclaredType md (Some dt) = Ret (Some tp)).
Proof.
  induction vars as [|v rest IH]; intros error n H; cbn [validate_loop] in H.
  - injection H as <-. split; [lia|]. intros _ sv dt [].
  - destruct (typeSpec v) as [ts|] eqn:Hts; [|discriminate].
    cbn [getString_at bind] in H.
    destruct (getString ts att_declaredType) as [d|] eqn:Hd.
    + destruct (getDeclaredType md (Some d)) as [[tp|]|] eqn:Hlook;
        [| |discriminate]; cbn [bind] in H.
      * destruct (IH error n H) as [Hle Hall]. split; [exact Hle|].
        intros Hn sv dt [<-|Hin] Hdt.
        -- unfold declaredType_of in Hdt. rewrite Hts, Hd in Hdt.
           injection Hdt as <-. exists tp. exact Hlook.
        -- exact (Hall Hn sv dt Hin Hdt).
      * destruct (getName v); [|discriminate]. cbn [bind] in H.
        destruct (IH (error + 1) n H) as [Hle _]. split; [lia|]. intros Hn. lia.
    + cbn [getDeclaredType bind] in H.
      destruct (IH error n H) as [Hle Hall]. split; [exact Hle|].
      intros Hn sv dt [<-|Hin] Hdt.
      * unfold declaredType_of in Hdt. rewrite Hts, Hd in Hdt. discriminate.
      * exact (Hall Hn sv dt Hin Hdt).
Qed.

(** X18.  The tree that [validate] returns is the tree it was given, and in
    it every declared type of a variable is the name of a type definition,
    the one that [getDeclaredType] finds; no assumption on the names of the
    tree is needed, since [validate] returned. *)
Theorem validated_tree (md md' : Element) :
  validate md = Ret (Some md') ->
  md' = md /\
  forall sv dt,
    In sv (variables md) -> declaredType_of sv = Some dt ->
    exists tp,
      getDeclaredType md (Some dt) = Ret (Some tp) /\
      In tp (type_definitions md) /\ getString tp att_name = Some dt.
Proof.
  unfold validate. intros H.
  destruct (validate_errors md) as [n|] eqn:Herr; [|discriminate]. cbn [bind] in H.
  destruct (Z.eqb_spec n 0) as [->|Hn]; cbn [negb] in H; [|discriminate].
  injection H as <-. split; [reflexivity|].
  intros sv dt Hin Hdt. unfold validate_errors, variables in *.
  destruct (modelVariables md) as [vars|]; [|destruct Hin].
  destruct (validate_loop_result md vars 0 0 Herr) as [_ Hall].
  destruct (Hall eq_refl sv dt Hin Hdt) as [tp Hlook].
  exists tp. split; [exact Hlook|].
  unfold getDeclaredType, type_definitions in *.
  destruct (typeDefinitions md) as [tds|]; [|discriminate].
  destruct (getDeclaredType_loop_some tds dt tp Hlook)
    as [before [after [-> [Hname _]]]].
  split; [apply in_elt | exact Hname].
Qed.

Lemma validated_tree_witness :
  exists tp,
    getDeclaredType (sample_md [sample_x; sample_y]) (Some "T1") = Ret (Some tp) /\
    In tp (type_definitions (sample_md [sample_x; sample_y])) /\
    getString tp att_name = Some "T1".
Proof.
  destruct (validated_tree (sample_md [sample_x; sample_y])
              (sample_md [sample_x; sample_y]) eq_refl) as [_ Hall].
  apply (Hall sample_x "T1"); [left; reflexivity | reflexivity].
Defined.

Lemma parse_validates (evs : list Event) (md : Element) :
  parse evs = Ret (Some md) -> validate md = Ret (Some md).
Proof.
  unfold parse. intros H.
  destruct (run evs initial) as [st|]; [|discriminate]. cbn [bind] in H.
  destruct (stopped st); [discriminate|].
  destruct (stackPop (stack st)) as [[root s]|]; [|discriminate]. cbn [bind] in H.
  destruct (stackIsEmpty s); [|discriminate].
  destruct (as_ModelDescription root) as [md0|] eqn:Hcast; [|discriminate].
  apply as_ModelDescription_inv in Hcast. subst md0. cbn [bind] in H.
  assert (Hsame : md = root).
  { unfold validate in H. destruct (validate_errors root) as [n|]; [|discriminate].
    cbn [bind] in H. destruct (negb (n =? 0)); [discriminate|].
    injection H as <-. reflexivity. }
  rewrite Hsame in *. exact H.
Qed.

(** X19.  Whatever the events, a tree that [parse] returns has passed
    [validate], and every declared type of one of its variables is the name
    of one of its type definitions. *)
Theorem parsed_tree_resolves (evs : list Event) (md : Element) :
  parse evs = Ret (Some md) ->
  validate md = Ret (Some md) /\
  forall sv dt,
    In sv (variables md) -> declaredType_of sv = Some dt ->
    exists tp,
      In tp (type_definitions md) /\ getString tp att_name = Some dt.
Proof.
  intros H. apply parse_validates in H. split; [exact H|].
  intros sv dt Hin Hdt.
  unfold validate in H.
  destruct (validate_errors md) as [n|] eqn:Herr; [|discriminate]. cbn [bind] in H.
  destruct (Z.eqb_spec n 0) as [->|Hn]; cbn [negb] in H; [|discriminate].
  unfold validate_errors, variables in *.
  destruct (modelVariables md) as [vars|]; [|destruct Hin].
  destruct (validate_loop_result md vars 0 0 Herr) as [_ Hall].
  destruct (Hall eq_refl sv dt Hin Hdt) as [tp Hlook].
  exists tp. unfold getDeclaredType, type_definitions in *.
  destruct (typeDefinitions md) as [tds|]; [|discriminate].
  destruct (getDeclaredType_loop_some tds dt tp Hlook)
    as [before [after [-> [Hname _]]]].
  split; [apply in_elt | exact Hname].
Qed.

Lemma parsed_tree_resolves_witness :
  exists md tp,
    parse sample_typed_events = Ret (Some md) /\
    In sample_x (variables md) /\
    In tp (type_definitions md) /\ getString tp att_name = Some "T1".
Proof.
  assert (Hparse : parse sample_typed_events = Ret (Some (sample_md [sample_x])))
    by (vm_compute; reflexivity).
  destruct (parsed_tree_resolves sample_typed_events (sample_md [sample_x]) Hparse)
    as [_ Hall].
  destruct (Hall sample_x "T1") as [tp [Hin Hname]];
    [left; reflexivity | reflexivity |].
  exists (sample_md [sample_x]), tp.
  split; [exact Hparse|]. split; [left; reflexivity|].
  split; [exact Hin | exact Hname].
Defined.

(** ** Elements that assemble *)

Lemma assembles_above (evs : list Event) (e : Element) (s : PState) :
  assembles evs e ->
  data s = None -> skipData s = true -> stopped s = false ->
  exists s',
    run evs s = Ret s' /\
    live (stack s') = e :: live (stack s) /\
    data s' = None /\ skipData s' = true /\ stopped s' = false.
Proof.
  intros [st' [Hrun [Hl [Hd [Hk Hs]]]]] Hds Hks Hss.
  assert (HR : frame_rel (live (stack s)) (on_its_own initial) s).
  { unfold frame_rel, on_its_own. cbn. rewrite Hds, Hks, Hss. tauto. }
  destruct (framed_run evs _ _ s st' HR Hrun Hs) as [s' [H2 [Hl2 [Hd2 [Hk2 Hs2]]]]].
  exists s'. split; [exact H2|]. rewrite Hl in Hl2.
  split; [exact Hl2|]. split; [congruence|]. split; congruence.
Qed.

Lemma run_children (children : list (list Event * Element)) :
  Forall (fun p => assembles (fst p) (snd p)) children ->
  forall s,
    data s = None -> skipData s = true -> stopped s = false ->
    exists s',
      run (List.concat (map fst children)) s = Ret s' /\
      live (stack s') = rev (map snd children) ++ live (stack s) /\
      data s' = None /\ skipData s' = true /\ stopped s' = false.
Proof.
  induction children as [|[evs e] rest IH]; intros Hall s Hd Hk Hs.
  - exists s. cbn. tauto.
  - pose proof (Forall_inv Hall) as Hfirst. cbn [fst snd] in Hfirst.
    pose proof (Forall_inv_tail Hall) as Hrest.
    destruct (assembles_above evs e s Hfirst Hd Hk Hs)
      as [s1 [Hrun1 [Hl1 [Hd1 [Hk1 Hs1]]]]].
    destruct (IH Hrest s1 Hd1 Hk1 Hs1) as [s2 [Hrun2 [Hl2 [Hd2 [Hk2 Hs2]]]]].
    exists s2. cbn [map List.concat fst snd rev]. rewrite run_app, Hrun1. cbn [bind].
    split; [exact Hrun2|]. rewrite Hl2, Hl1, <- app_assoc.
    split; [reflexivity|]. tauto.
Qed.

(** X20.  A list-producing element whose children are elements that each
    assemble, on their own, to a node of the child kind assembles, above any
    stack, to one list node: the node of its open event with the nodes of the
    children, in the order of the document, as its list.  An element that
    has no children gets the empty list. *)
Theorem list_element_assembles (el child : Elm) (attr : list (string * string))
  (children : list (list Event * Element)) (st : PState) :
  child_kind el = Some child ->
  (forall name value, In (name, value) attr -> In name attNames) ->
  Forall (fun p => assembles (fst p) (snd p) /\ type (snd p) = child) children ->
  data st = None -> stopped st = false ->
  exists att st',
    addAttributes attr = Some att /\
    run (Open (name_of el) attr
         :: List.concat (map fst children) ++ [Close (name_of el)]) st = Ret st' /\
    live (stack st')
    = mkListElement el att (Some (map snd children)) :: live (stack st) /\
    data st' = None /\ skipData st' = true /\ stopped st' = false.
Proof.
  intros Hk Hknown Hall Hd Hs.
  assert (Hel : el <> elm_BAD_DEFINED) by (destruct el; discriminate).
  assert (Hshape : getAstNodeType el = astListElement)
    by (destruct el; try discriminate; reflexivity).
  assert (Hname : Elm_eqb el elm_Name = false)
    by (destruct el; try discriminate; reflexivity).
  destruct (addAttributes attr) as [att|] eqn:Hadd.
  2:{ exfalso. destruct (proj1 (addAttributes_none attr) Hadd) as [n [v [Hnv Hn]]].
      exact (Hn (Hknown n v Hnv)). }
  exists att.
  assert (Hnew : newElement (checkElement (name_of el))
                   (getAstNodeType (checkElement (name_of el))) attr
                 = Some (mkListElement el att None)).
  { rewrite (checkElement_name_of el Hel), Hshape. unfold newElement.
    rewrite Hadd. reflexivity. }
  rewrite (run_Open (name_of el) attr _ st (mkListElement el att None));
    [| rewrite (checkElement_name_of el Hel); apply Elm_eqb_neq; exact Hel
     | exact Hnew | exact Hs].
  rewrite (checkElement_name_of el Hel), Hname. cbn [negb].
  match goal with |- context [run _ ?s] => set (s0 := s) end.
  assert (Hass : Forall (fun p => assembles (fst p) (snd p)) children).
  { rewrite Forall_forall in *. intros p Hp. exact (proj1 (Hall p Hp)). }
  destruct (run_children children Hass s0 Hd eq_refl eq_refl)
    as [s1 [Hrun1 [Hl1 [Hd1 [Hk1 Hs1]]]]].
  rewrite run_app, Hrun1. cbn [bind run]. rewrite Hs1. cbn [step].
  rewrite (endElement_list el child s1 Hk). unfold end_popList.
  assert (Hlive : live (stack s1)
                  = rev (map snd children)
                    ++ mkListElement el att None :: live (stack st)).
  { rewrite Hl1. reflexivity. }
  assert (Hkinds : Forall (fun x => type x = child) (rev (map snd children))).
  { apply Forall_rev. rewrite Forall_forall in *. intros x Hx.
    apply in_map_iff in Hx. destruct Hx as [p [<- Hp]]. exact (proj2 (Hall p Hp)). }
  assert (Hnode : type (mkListElement el att None) <> child).
  { cbn [type]. intros Heq. subst child. destruct el; discriminate. }
  destruct (popList_run child s1 _ _ _ Hlive Hkinds Hnode) as [dd Hpop].
  rewrite Hpop. cbn [bind type]. rewrite Hshape. cbn [is_astListElement set_list].
  rewrite rev_involutive. unfold endCheck.
  erewrite (checkPeek_top el _ _ (live (stack st)));
    [| reflexivity | right; reflexivity].
  cbn [bind snd]. eexists. split; [reflexivity|].
  cbn [with_stack stack live data skipData stopped].
  split; [reflexivity|]. tauto.
Qed.

Lemma list_element_assembles_witness :
  exists st',
    run [ Open "Model" [("entryPoint", "fmu://m")];
          Open "File" [("file", "a")]; Close "File";
          Open "File" [("file", "b")]; Close "File";
          Close "Model" ] sample_open_root = Ret st' /\
    live (stack st')
    = [ mkListElement elm_Model [(att_entryPoint, Some "fmu://m")]
          (Some [mkElement elm_File [(att_file, Some "a")];
                 mkElement elm_File [(att_file, Some "b")]]);
        sample_root ].
Proof.
  destruct (list_element_assembles elm_Model elm_File [("entryPoint", "fmu://m")]
              [ ([Open "File" [("file", "a")]; Close "File"],
                 mkElement elm_File [(att_file, Some "a")]);
                ([Open "File" [("file", "b")]; Close "File"],
                 mkElement elm_File [(att_file, Some "b")]) ]
              sample_open_root eq_refl)
    as [att [st' [Hadd [Hrun [Hlive _]]]]].
  - intros name value [H|[]]. injection H as <- <-. vm_compute. tauto.
  - repeat constructor; eexists; (split; [vm_compute; reflexivity|]);
      repeat split.
  - reflexivity.
  - reflexivity.
  - injection Hadd as <-. exists st'. split; [exact Hrun | exact Hlive].
Defined.
